(** * credtools.qc: the statistical-consistency engine

    A shallow embedding of [src/credtools/qc.py]: the regularised-RSS noise
    estimator [estimate_s_rss], the kriging predictor [kriging_rss], the
    Dentist-S statistic [compute_dentist_s] and the orchestrator [locus_qc].

    - float64 values are an abstract scalar type [F] with the IEEE operations
      the source uses ([Scalar]); [Scalar_float] instantiates it with Rocq's
      primitive binary64 floats so that the model runs on concrete inputs, and
      [Scalar_R] with the reals, for what holds in exact arithmetic only.
    - numpy arrays that are shared between caller and callee live in a store
      ([heap]); a slice such as [eigvals[::-1]] is a [view1] on a location,
      and a masked assignment through it writes the underlying array.
    - functions that raise return a [result]; the store survives a raise.
    - numpy.linalg, scipy, sklearn and the pandas aggregations are taken as
      parameters ([Externals]).

    Shapes: the list operations below are total (they truncate or pad where
    numpy would raise on mismatching shapes); statements that depend on a
    shape carry it as a hypothesis. *)

From Stdlib Require Import ZArith List String Ascii Bool Lia Floats Reals Field Lra.
From stdpp Require Import base list strings gmap.
Import ListNotations.

Set Implicit Arguments.
Set Warnings "-inexact-float".
Local Open Scope string_scope.
Local Open Scope Z_scope.
Local Open Scope list_scope.

(* ===================================================================== *)
(** * Exceptions and results *)
(* ===================================================================== *)

Inductive exn : Type :=
| ValueError (msg : string)
| OverflowError (msg : string)
| IndexError (msg : string)
| TypeError (msg : string).

Inductive result (A : Type) : Type :=
| Ok (a : A)
| Raise (e : exn).
Arguments Ok {A} a.
Arguments Raise {A} e.

Definition is_ok {A} (r : result A) : bool :=
  match r with Ok _ => true | Raise _ => false end.

(** The value of a call that returned, [d] for one that raised. *)
Definition or_else {A} (r : result A) (d : A) : A :=
  match r with Ok a => a | Raise _ => d end.

(* ===================================================================== *)
(** * Scalars: float64 as the source uses it *)
(* ===================================================================== *)

(** The element-wise IEEE operations of numpy's float64. *)
Class Scalar (F : Type) : Type := {
  of_Z : Z -> F;                 (* int -> float conversion *)
  fadd : F -> F -> F;
  fsub : F -> F -> F;
  fmul : F -> F -> F;
  fdiv : F -> F -> F;
  fopp : F -> F;
  fsqrt : F -> F;                (* np.sqrt *)
  fltb : F -> F -> bool;         (* x < y; False when either side is NaN *)
  fisnan : F -> bool;            (* np.isnan *)
  fisinf : F -> bool;            (* np.isinf *)
  fnan : F;                      (* np.nan *)
  finf : F;                      (* np.inf *)
  fceil : F -> Z                 (* math.ceil of a finite value *)
}.

(** The transcendental functions numpy delegates to the C library. *)
Class Libm (F : Type) : Type := {
  np_log : F -> F;
  np_log2 : F -> F;
  np_exp : F -> F;
  np_power : F -> F -> F         (* x ** y on floats *)
}.

Declare Scope np_scope.
Delimit Scope np_scope with np.
Infix "+" := fadd : np_scope.
Infix "-" := fsub : np_scope.
Infix "*" := fmul : np_scope.
Infix "/" := fdiv : np_scope.
Notation "- x" := (fopp x) : np_scope.
Infix "<?" := fltb : np_scope.

Section Literals.
Context {F : Type} `{Scalar F}.

(** A decimal literal [m]e-[k] of the source: the float nearest to m/10^k
    (one correctly rounded division of two exactly representable integers). *)
Definition dec (m : Z) (k : Z) : F := (of_Z m / of_Z (10 ^ k))%np.

Definition f0 : F := of_Z 0.
Definition f1 : F := of_Z 1.
Definition f2 : F := of_Z 2.
(** [np.finfo(float).eps] *)
Definition float_eps : F := (of_Z 1 / of_Z (2 ^ 52))%np.
End Literals.

(* --------------------------------------------------------------------- *)
(** ** binary64 *)

Module B64.
(** int -> float, round to nearest even. *)
Definition of_Z (z : Z) : float := SF2Prim (binary_normalize prec emax z 0 false).

(** [math.ceil] of a finite float, as an integer. *)
Definition ceil (x : float) : Z :=
  match Prim2SF x with
  | S754_finite s m e =>
      let v := if s then Z.neg m else Z.pos m in
      if (0 <=? e)%Z then v * 2 ^ e else - ((- v) / 2 ^ (- e))
  | _ => 0
  end.
End B64.

#[export] Instance Scalar_float : Scalar float := {
  of_Z := B64.of_Z;
  fadd := PrimFloat.add;
  fsub := PrimFloat.sub;
  fmul := PrimFloat.mul;
  fdiv := PrimFloat.div;
  fopp := PrimFloat.opp;
  fsqrt := PrimFloat.sqrt;
  fltb := PrimFloat.ltb;
  fisnan := PrimFloat.is_nan;
  fisinf := PrimFloat.is_infinity;
  fnan := PrimFloat.nan;
  finf := PrimFloat.infinity;
  fceil := B64.ceil
}.

(* --------------------------------------------------------------------- *)
(** ** The reals *)

(** The reals as scalars: exact arithmetic. There is no NaN and no infinity
    among them: the two tests are constantly false and the two constants are
    never produced. *)
#[export] Instance Scalar_R : Scalar R := {
  of_Z := IZR;
  fadd := Rplus;
  fsub := Rminus;
  fmul := Rmult;
  fdiv := Rdiv;
  fopp := Ropp;
  fsqrt := R_sqrt.sqrt;
  fltb := fun x y => if Rlt_dec x y then true else false;
  fisnan := fun _ => false;
  fisinf := fun _ => false;
  fnan := 0%R;
  finf := 0%R;
  fceil := fun x => (- Int_part (- x))%Z
}.

(* ===================================================================== *)
(** * numpy on lists *)
(* ===================================================================== *)

Section Numpy.
Context {F : Type} `{Scalar F}.

(** [np.where(np.isnan(z), 0, z)] *)
Definition nan_to_zero (z : list F) : list F :=
  map (fun x => if fisnan x then f0 else x) z.

(** [np.sum] of a vector (accumulated left to right). *)
Definition np_sum (l : list F) : F := fold_left fadd l f0.

(** [a.dot(b)] of two vectors of one length. numpy raises [ValueError] when
    the lengths differ; here the longer vector is cut. *)
Definition dot (a b : list F) : F := np_sum (zip_with fmul a b).

(** [np.max] of a vector: NaN propagates, an empty vector raises. *)
Definition fmax (a b : F) : F :=
  if fisnan a then a else if fisnan b then b else if (a <? b)%np then b else a.

Definition np_max (l : list F) : result F :=
  match l with
  | [] => Raise (ValueError "zero-size array to reduction operation maximum which has no identity")
  | x :: xs => Ok (fold_left fmax xs x)
  end.

(** Matrices are lists of rows. *)
Definition ncols (m : list (list F)) : nat :=
  match m with [] => 0%nat | r :: _ => length r end.

Definition column (j : nat) (m : list (list F)) : list F :=
  map (fun row => nth j row f0) m.

(** [m.T] *)
Definition transpose (m : list (list F)) : list (list F) :=
  map (fun j => column j m) (seq 0 (ncols m)).

(** [a @ b] for two matrices, and for a matrix and a vector, of matching
    shapes. numpy raises [ValueError] when the inner dimensions differ; here
    the longer side is cut, so a statement that reaches a product on a
    spectrum supplied by the caller says which shape the spectrum has
    ([spectrum_shape]). *)
Definition matmul (a b : list (list F)) : list (list F) :=
  map (fun row => map (fun j => dot row (column j b)) (seq 0 (ncols b))) a.

Definition matvec (a : list (list F)) (v : list F) : list F :=
  map (fun row => dot row v) a.

(** [m op v] with [v] broadcast along the last axis: entry (i,j) is
    [m[i,j] op v[j]]. *)
Definition broadcast_last (op : F -> F -> F) (m : list (list F)) (v : list F)
  : list (list F) :=
  map (fun row => zip_with op row v) m.

(** [m[i, j]] *)
Definition at2 (m : list (list F)) (i j : nat) : F := nth j (nth i m []) f0.

(** [v[mask] = 0] with [mask = v < r_tol], on the contents of [v]. *)
Definition clamp (r_tol : F) (v : list F) : list F :=
  map (fun x => if (x <? r_tol)%np then f0 else x) v.

(** The variance-stabilising transform:
    [sigma2 = (n - 1) / (z**2 + n - 2); z = np.sqrt(sigma2) * z]. *)
Definition stabilise (n : Z) (z : list F) : list F :=
  map (fun x => (fsqrt (of_Z (n - 1) / (x * x + of_Z n - of_Z 2)) * x)%np) z.
End Numpy.

(* ===================================================================== *)
(** * Loci and result tables *)
(* ===================================================================== *)

Section Data.
Variable F : Type.

(** The summary statistics (one entry per variant, in order), the LD matrix
    and the sample size of a locus: the attributes [qc.py] reads. *)
Record Locus : Type := {
  SNPID : list string;
  BETA : list F;
  SE : list F;
  P : list F;
  ld_r : list (list F);
  sample_size : Z;
  popu : string;
  cohort : string
}.

Record LocusSet : Type := { loci : list Locus }.

(** A pandas table: named columns, in insertion order. *)
Inductive column_data : Type :=
| ColF (data : list F)
| ColS (data : list string).

Definition DataFrame : Type := list (string * column_data).
End Data.

Arguments ColS {F} data.

Section Frames.
Context {F : Type}.

Fixpoint df_get (name : string) (df : DataFrame F) : option (column_data F) :=
  match df with
  | [] => None
  | (k, c) :: rest => if String.eqb k name then Some c else df_get name rest
  end.

(** The float column [name] of a table. *)
Definition df_floats (name : string) (df : DataFrame F) : option (list F) :=
  match df_get name df with Some (ColF d) => Some d | _ => None end.

Definition column_length (c : column_data F) : nat :=
  match c with ColF d => length d | ColS d => length d end.

Definition df_rows (df : DataFrame F) : nat :=
  match df with [] => 0%nat | (_, c) :: _ => column_length c end.

(** [d[k] = v] on a dictionary or on the columns of a table: replaces the
    entry in place if the key exists, appends it otherwise. *)
Fixpoint dict_set {V} (k : string) (v : V) (d : list (string * V)) : list (string * V) :=
  match d with
  | [] => [(k, v)]
  | (k', v') :: rest =>
      if String.eqb k' k then (k, v) :: rest else (k', v') :: dict_set k v rest
  end.

Definition dict_keys {V} (d : list (string * V)) : list string := map fst d.

(** [k in d] *)
Definition has_key {V} (k : string) (d : list (string * V)) : bool :=
  existsb (String.eqb k) (dict_keys d).
End Frames.

(* ===================================================================== *)
(** * The store: arrays shared between caller and callee *)
(* ===================================================================== *)

(** Locations are positions in the store. *)
Abbreviation loc := nat.

Section Store.
Context {F : Type} `{Scalar F}.

Inductive ndarray : Type :=
| Arr1 (data : list F)             (* a 1-d float64 array *)
| Arr2 (rows : list (list F)).     (* a 2-d float64 array *)


(** The state a call runs in: the array store, numpy's global random state
    (read and advanced by the mixture fit only) and the tables written to
    disk so far, latest first. *)
Record world : Type := World {
  heap : list ndarray;
  rng : N;
  files : list (string * DataFrame F)
}.

(** A 1-d view [a] or [a[::-1]] of the array at [base1]. *)
Record view1 : Type := View1 { base1 : loc; flipped : bool }.
(** A 2-d view [m] or [m[:, ::-1]] of the matrix at [base2]. *)
Record view2 : Type := View2 { base2 : loc; cols_flipped : bool }.

Definition orient {A} (b : bool) (l : list A) : list A := if b then rev l else l.

(** The dictionary [{"eigvals": ..., "eigvecs": ...}]: two references. *)
Record eigen_dict : Type := EigenDict { eigvals : loc; eigvecs : loc }.

(** State and exceptions: a raise keeps the store as it was at the raise. *)
Definition M (A : Type) : Type := world -> result A * world.

Definition ret {A} (a : A) : M A := fun w => (Ok a, w).
Definition raise {A} (e : exn) : M A := fun w => (Raise e, w).
Definition bind {A B} (m : M A) (k : A -> M B) : M B :=
  fun w => match m w with
           | (Ok a, w') => k a w'
           | (Raise e, w') => (Raise e, w')
           end.
Definition lift {A} (r : result A) : M A := fun w => (r, w).

Definition alloc (a : ndarray) : M loc :=
  fun w => (Ok (length (heap w)), World (heap w ++ [a]) (rng w) (files w)).

Definition read1 (v : view1) : M (list F) :=
  fun w => match heap w !! base1 v with
           | Some (Arr1 d) => (Ok (orient (flipped v) d), w)
           | _ => (Raise (TypeError "not a 1-d array"), w)
           end.

Definition read2 (v : view2) : M (list (list F)) :=
  fun w => match heap w !! base2 v with
           | Some (Arr2 m) => (Ok (map (orient (cols_flipped v)) m), w)
           | _ => (Raise (TypeError "not a 2-d array"), w)
           end.

(** [v[v < r_tol] = 0] through a view: the mask is taken on the view and the
    zeros are written to the array underneath. *)
Definition clamp_in_place (v : view1) (r_tol : F) : M unit :=
  fun w => match heap w !! base1 v with
           | Some (Arr1 d) =>
               let d' := orient (flipped v) (clamp r_tol (orient (flipped v) d)) in
               (Ok tt, World (<[base1 v := Arr1 d']> (heap w)) (rng w) (files w))
           | _ => (Raise (TypeError "not a 1-d array"), w)
           end.
End Store.

Arguments ndarray F : clear implicits.
Arguments world F : clear implicits.
Arguments M F A : clear implicits.

Declare Scope M_scope.
Delimit Scope M_scope with M.
Notation "x <- c1 ;; c2" := (bind c1 (fun x => c2))
  (at level 100, c1 at next level, right associativity) : M_scope.
Notation "c1 ;; c2" := (bind c1 (fun _ => c2))
  (at level 100, right associativity) : M_scope.

(* ===================================================================== *)
(** * What [qc.py] imports *)
(* ===================================================================== *)

(** The collaborators of [qc.py] outside the statistical core: the locus
    alignment of [credtools.locus], numpy.linalg, scipy.optimize, scipy.stats,
    sklearn.mixture and the pandas aggregations of the orchestrator. The
    development holds for every implementation of them. *)
Class Externals (F : Type) : Type := {
  (** [credtools.locus.intersect_sumstat_ld]: the locus with its summary
      statistics and LD matrix aligned. Loci are values here, so the
      [locus.copy()] before it is the identity. *)
  intersect_sumstat_ld : Locus F -> Locus F;
  (** [np.linalg.eigh]: eigenvalues (ascending) and eigenvectors (columns). *)
  linalg_eigh : list (list F) -> list F * list (list F);
  (** [minimize_scalar(f, bounds=(a, b), method="bounded", options={xatol}).x] *)
  minimize_scalar : (F -> F) -> F * F -> option F -> F;
  (** [stats.norm.logpdf(x, loc, scale)] *)
  norm_logpdf : F -> F -> F -> F;
  (** [stats.chi2.logsf(x, df=1)] *)
  chi2_logsf : F -> F;
  (** [GaussianMixture(n_components, "diag", max_iter=1000).fit(x).weights_],
      from the current random state, with the state it leaves. *)
  GaussianMixture_fit : nat -> list (list F) -> N -> result (list F) * N;
  (** [pd.concat(frames, axis=0)] of a non-empty list of frames. *)
  concat_rows : list (DataFrame F) -> DataFrame F;
  (** The tabular metrics of the orchestrator. *)
  compare_maf : Locus F -> result (DataFrame F);
  ld_4th_moment : LocusSet F -> result (DataFrame F);
  ld_decay : LocusSet F -> result (DataFrame F);
  cochran_q : LocusSet F -> result (DataFrame F);
  snp_missingness : LocusSet F -> result (DataFrame F)
}.

(* ===================================================================== *)
(** * [estimate_s_rss] *)
(* ===================================================================== *)

Section EstimateS.
Context {F : Type} `{Scalar F} `{Libm F} `{Externals F}.
Local Open Scope np_scope.

(** [(sumstats[BETA] / sumstats[SE]).to_numpy()] *)
Definition raw_z (l : Locus F) : list F := zip_with fdiv (BETA l) (SE l).

(** [get_eigen]: the decomposition comes back in two fresh arrays. *)
Definition get_eigen (ldmatrix : list (list F)) : M F eigen_dict :=
  let vv := linalg_eigh ldmatrix in
  (a <- alloc (Arr1 (fst vv)) ;;
   b <- alloc (Arr2 (snd vv)) ;;
   ret (EigenDict a b))%M.

(** Lines 113-119 and 248-254: take the caller's arrays, or decompose. *)
Definition eigen_or_compute (eigvens : option eigen_dict) (input_locus : Locus F)
  : M F eigen_dict :=
  match eigvens with
  | Some d => ret d
  | None => get_eigen (ld_r input_locus)
  end.

Definition default_r_tol : F := dec 1 8.
Definition n_error : exn := ValueError "n must be greater than 1".

(** The objective of "null-mle". *)
Definition negloglikelihood (s : F) (ztv d : list F) : F :=
  let denom := map (fun di => (f1 - s) * di + s) d in
  let term1 := dec 5 1 * np_sum (map np_log denom) in
  let term2 := dec 5 1 * np_sum (zip_with fmul (zip_with fdiv ztv denom) ztv) in
  term1 + term2.

(** The objective of "null-pseudomle", in the steps of the source. *)
Definition pseudo_precision (s : F) (eigvals : list F) (eigvecs : list (list F))
  : list (list F) :=
  matmul eigvecs
    (broadcast_last fdiv (transpose eigvecs) (map (fun l => (f1 - s) * l + s) eigvals)).

Definition pseudo_postmean (precision : list (list F)) (z : list F) : list F :=
  map (fun i => - (f1 / at2 precision i i) * dot (nth i precision []) z + nth i z f0)
      (seq 0 (length z)).

Definition pseudo_postvar (precision : list (list F)) (z : list F) : list F :=
  map (fun i => f1 / at2 precision i i) (seq 0 (length z)).

Definition pseudolikelihood (s : F) (z eigvals : list F) (eigvecs : list (list F)) : F :=
  let precision := pseudo_precision s eigvals eigvecs in
  let postmean := pseudo_postmean precision z in
  let postvar := pseudo_postvar precision z in
  - np_sum (map (fun t => norm_logpdf (fst (fst t)) (snd (fst t)) (snd t))
                (zip (zip z postmean) (map fsqrt postvar))).

(** "null-partialmle", lines 150-155. *)
Definition colspace (eigvals : list F) : list nat :=
  List.filter (fun i => f0 <? nth i eigvals f0) (seq 0 (length eigvals)).

Definition null_columns (eigvals : list F) (eigvecs : list (list F)) (p : nat)
  : list (list F) :=
  map (fun j => column j eigvecs)
      (List.filter (fun j => negb (existsb (Nat.eqb j) (colspace eigvals))) (seq 0 p)).

Definition partial_mle (z eigvals : list F) (eigvecs : list (list F)) : F :=
  if (length (colspace eigvals) =? length z)%nat then f0
  else
    let znull := matvec (null_columns eigvals eigvecs (length z)) z in
    np_sum (map (fun x => x * x) znull) / of_Z (Z.of_nat (length znull)).

(** Lines 131-179: the estimate, by [method]. *)
Definition estimate_by (method : string) (z eigvals : list F) (eigvecs : list (list F))
  : result F :=
  if String.eqb method "null-mle" then
    let ztv := matvec (transpose eigvecs) z in
    Ok (minimize_scalar (fun s => negloglikelihood s ztv eigvals) (f0, f1)
                        (Some (fsqrt float_eps)))
  else if String.eqb method "null-partialmle" then
    Ok (partial_mle z eigvals eigvecs)
  else if String.eqb method "null-pseudomle" then
    Ok (minimize_scalar (fun s => pseudolikelihood s z eigvals eigvecs) (f0, f1) None)
  else Raise (ValueError "The method is not implemented").

Definition estimate_s_rss (locus : Locus F) (r_tol : F) (method : string)
           (eigvens : option eigen_dict) : M F F :=
  let input_locus := intersect_sumstat_ld locus in
  let z := raw_z input_locus in
  let n := sample_size input_locus in
  let z := nan_to_zero z in
  (d <- eigen_or_compute eigvens input_locus ;;
   clamp_in_place (View1 (eigvals d) false) r_tol ;;
   if (n <=? 1)%Z then raise n_error
   else
     let z := stabilise n z in
     ev <- read1 (View1 (eigvals d) false) ;;
     vecs <- read2 (View2 (eigvecs d) false) ;;
     lift (estimate_by method z ev vecs))%M.
End EstimateS.

(* ===================================================================== *)
(** * [kriging_rss] *)
(* ===================================================================== *)

Section Kriging.
Context {F : Type} `{Scalar F} `{Libm F} `{Externals F}.
Local Open Scope np_scope.

(** Lines 268-270: [dinv], with infinite entries replaced by 0, and
    [precision = eigvecs @ (eigvecs * dinv).T]. *)
Definition kriging_dinv (s : F) (eigvals : list F) : list F :=
  map (fun x => if fisinf x then f0 else x)
      (map (fun l => f1 / ((f1 - s) * l + s)) eigvals).

Definition kriging_precision (s : F) (eigvals : list F) (eigvecs : list (list F))
  : list (list F) :=
  matmul eigvecs (transpose (broadcast_last fmul eigvecs (kriging_dinv s eigvals))).

(** Lines 271-277: the loop over the variants. *)
Definition condmean_at (precision : list (list F)) (z : list F) (i : nat) : F :=
  - (f1 / at2 precision i i) * dot (take i (nth i precision [])) (take i z)
  - (f1 / at2 precision i i) * dot (drop (S i) (nth i precision [])) (drop (S i) z).

Definition loo_condmean (precision : list (list F)) (z : list F) : list F :=
  map (condmean_at precision z) (seq 0 (length z)).

Definition loo_condvar (precision : list (list F)) (z : list F) : list F :=
  map (fun i => f1 / at2 precision i i) (seq 0 (length z)).

(** Line 278: [(z - condmean) / np.sqrt(condvar)] *)
Definition standardise (z condmean condvar : list F) : list F :=
  zip_with fdiv (zip_with fsub z condmean) (map fsqrt condvar).

(** [int(np.ceil(x))] *)
Definition int_ceil (x : F) : result Z :=
  if fisnan x then Raise (ValueError "cannot convert float NaN to integer")
  else if fisinf x then Raise (OverflowError "cannot convert float infinity to integer")
  else Ok (fceil x).

(** [np.arange(a, b)] *)
Definition arange (a b : Z) : list Z :=
  map (fun i => (a + Z.of_nat i)%Z) (seq 0 (Z.to_nat (b - a))).

(** Lines 281-286: the grid of scale multipliers. *)
Definition a_min : F := dec 8 1.

Definition grid_a_max (z_std_diff : list F) : result F :=
  match np_max (map (fun x => x * x) z_std_diff) with
  | Ok m => Ok (if m <? f1 then f2 else f2 * fsqrt m)
  | Raise e => Raise e
  end.

Definition grid_npoint (a_max : F) (p : nat) : result Z :=
  match int_ceil (np_log2 (a_max / a_min) / np_log2 (dec 105 2)) with
  | Ok npoint => Ok (Z.min npoint (Z.of_nat p - 1))
  | Raise e => Raise e
  end.

Definition grid_of (a_max : F) (npoint : Z) : list F :=
  map (fun k => np_power (dec 105 2) (of_Z k) * a_max) (arange (- npoint) 1).

Definition a_grid (z_std_diff : list F) (p : nat) : result (list F) :=
  match grid_a_max z_std_diff with
  | Ok a_max =>
      match grid_npoint a_max p with
      | Ok npoint => Ok (grid_of a_max npoint)
      | Raise e => Raise e
      end
  | Raise e => Raise e
  end.

(** Lines 289-294 and 307-311: the log-densities over the grid, each row
    shifted by its maximum. *)
Fixpoint all_ok {A} (l : list (result A)) : result (list A) :=
  match l with
  | [] => Ok []
  | Ok a :: rest =>
      match all_ok rest with Ok r => Ok (a :: r) | Raise e => Raise e end
  | Raise e :: _ => Raise e
  end.

Definition sd_mtx (condvar grid : list F) : list (list F) :=
  map (fun v => map (fun a => fsqrt v * a) grid) condvar.

Definition llik_rows (x : list F) (sd : list (list F)) : list (list F) :=
  zip_with (fun xi row => map (fun sdv => norm_logpdf xi f0 sdv) row) x sd.

Definition row_max (m : list (list F)) : result (list F) := all_ok (map np_max m).

Definition shift_rows (m : list (list F)) (lfactors : list F) : list (list F) :=
  zip_with (fun row l => map (fun v => v - l) row) m lfactors.

(** Lines 304 and 312:
    [np.log(np.sum(np.exp(matrix_llik) * (w + 1e-15), axis=1)) + lfactors] *)
Definition log_mix (m : list (list F)) (w lfactors : list F) : list F :=
  zip_with (fun row l =>
              np_log (np_sum (zip_with fmul (map np_exp row)
                                       (map (fun wk => wk + dec 1 15) w))) + l)
           m lfactors.

(** [gmm.fit(matrix_llik); w = gmm.weights_] *)
Definition gmm_weights (n_components : nat) (x : list (list F)) : M F (list F) :=
  fun w => let r := GaussianMixture_fit n_components x (rng w) in
           (fst r, World (heap w) (snd r) (files w)).

(** Lines 268-330: from the spectrum as the call sees it (descending, clamped)
    to the result table. *)
Definition kriging_table (input_locus : Locus F) (z : list F) (s : F)
           (ev : list F) (vecs : list (list F)) : M F (DataFrame F) :=
  (let precision := kriging_precision s ev vecs in
   let condmean := loo_condmean precision z in
   let condvar := loo_condvar precision z in
   let z_std_diff := standardise z condmean condvar in
   grid <- lift (a_grid z_std_diff (length z)) ;;
   let sd := sd_mtx condvar grid in
   let llik0 := llik_rows (zip_with fsub z condmean) sd in
   lfactors0 <- lift (row_max llik0) ;;
   let llik0 := shift_rows llik0 lfactors0 in
   w <- gmm_weights (length grid) llik0 ;;
   let logl0mix := log_mix llik0 w lfactors0 in
   let llik1 := llik_rows (zip_with fadd z condmean) sd in
   lfactors1 <- lift (row_max llik1) ;;
   let llik1 := shift_rows llik1 lfactors1 in
   let logl1mix := log_mix llik1 w lfactors1 in
   let logLRmix := zip_with fsub logl1mix logl0mix in
   ret [("SNPID", ColS (SNPID input_locus));
        ("z", ColF z);
        ("condmean", ColF condmean);
        ("condvar", ColF condvar);
        ("z_std_diff", ColF z_std_diff);
        ("logLR", ColF logLRmix)])%M.

Definition kriging_rss (locus : Locus F) (r_tol : F) (s : option F)
           (eigvens : option eigen_dict) : M F (DataFrame F) :=
  let input_locus := intersect_sumstat_ld locus in
  let z := raw_z input_locus in
  let n := sample_size input_locus in
  let z := nan_to_zero z in
  (d <- eigen_or_compute eigvens input_locus ;;
   s <- match s with
        | Some s => ret s
        | None => estimate_s_rss locus default_r_tol "null-mle" (Some d)
        end ;;
   let eigvals_v := View1 (eigvals d) true in
   let eigvecs_v := View2 (eigvecs d) true in
   clamp_in_place eigvals_v r_tol ;;
   if (n <=? 1)%Z then raise n_error
   else
     let z := stabilise n z in
     ev <- read1 eigvals_v ;;
     vecs <- read2 eigvecs_v ;;
     kriging_table input_locus z s ev vecs)%M.
End Kriging.

(* ===================================================================== *)
(** * [compute_dentist_s] *)
(* ===================================================================== *)

Section Dentist.
Context {F : Type} `{Scalar F} `{Externals F}.
Local Open Scope np_scope.

(** [Series.idxmin()]: the position of the first smallest entry, NaN
    skipped; there is none in an empty or all-NaN column. *)
Fixpoint idxmin_from (l : list F) (i : nat) (best : option (nat * F)) : option nat :=
  match l with
  | [] => option_map fst best
  | x :: xs =>
      if fisnan x then idxmin_from xs (S i) best
      else match best with
           | None => idxmin_from xs (S i) (Some (i, x))
           | Some (_, b) =>
               if x <? b then idxmin_from xs (S i) (Some (i, x))
               else idxmin_from xs (S i) best
           end
  end.

Definition idxmin (l : list F) : option nat := idxmin_from l 0 None.

(** Lines 376-377, for one variant. *)
Definition dentist_t (z r lead_z : F) : F :=
  let t := ((z - r * lead_z) * (z - r * lead_z)) / (f1 - r * r) in
  if t <? f0 then finf else t.

Definition compute_dentist_s (locus : Locus F) : result (DataFrame F) :=
  let input_locus := intersect_sumstat_ld locus in
  let Z := raw_z input_locus in
  match idxmin (P input_locus) with
  | None => Raise (ValueError "attempt to get argmin of an empty sequence")
  | Some lead_idx =>
      match Z !! lead_idx, ld_r input_locus !! lead_idx with
      | Some lead_z, Some r =>
          if negb (length r =? length Z)%nat
          then Raise (ValueError "Length of values does not match length of index")
          else
            let t := zip_with (fun z rj => dentist_t z rj lead_z) Z r in
            let t := <[lead_idx := fnan]> t in
            Ok [("SNPID", ColS (SNPID input_locus));
                ("t_dentist_s", ColF t);
                ("p_dentist_s", ColF (map chi2_logsf t))]
      | _, _ => Raise (IndexError "index out of bounds")
      end
  end.
End Dentist.

(* ===================================================================== *)
(** * [locus_qc] *)
(* ===================================================================== *)

Section Orchestrator.
Context {F : Type} `{Scalar F} `{Libm F} `{Externals F}.

(** [df[name] = value], the scalar broadcast over the rows. *)
Definition set_floats (name : string) (x : F) (df : DataFrame F) : DataFrame F :=
  dict_set name (ColF (repeat x (df_rows df))) df.

Definition set_strings (name : string) (x : string) (df : DataFrame F) : DataFrame F :=
  dict_set name (ColS (repeat x (df_rows df))) df.

(** [f"{locus.popu}_{locus.cohort}"] *)
Definition cohort_label (l : Locus F) : string := (popu l ++ "_" ++ cohort l)%string.

(** [pd.concat(frames, axis=0)] *)
Definition pd_concat (frames : list (DataFrame F)) : M F (DataFrame F) :=
  match frames with
  | [] => raise (ValueError "No objects to concatenate")
  | _ => ret (concat_rows frames)
  end.

(** One turn of the loop of lines 778-791: the three tables of a locus. *)
Definition qc_one (r_tol : F) (method : string) (locus : Locus F)
  : M F (DataFrame F * DataFrame F * DataFrame F) :=
  let lo := intersect_sumstat_ld locus in
  (eigens <- get_eigen (ld_r lo) ;;
   lambda_s <- estimate_s_rss locus r_tol method (Some eigens) ;;
   expected_z <- kriging_rss locus r_tol (Some lambda_s) (Some eigens) ;;
   let expected_z := set_floats "lambda_s" lambda_s expected_z in
   let expected_z := set_strings "cohort" (cohort_label locus) expected_z in
   dentist_s <- lift (compute_dentist_s locus) ;;
   let dentist_s := set_strings "cohort" (cohort_label locus) dentist_s in
   compare_maf_res <- lift (compare_maf locus) ;;
   let compare_maf_res := set_strings "cohort" (cohort_label locus) compare_maf_res in
   ret (expected_z, dentist_s, compare_maf_res))%M.

Fixpoint qc_loop (r_tol : F) (method : string) (ls : list (Locus F))
  : M F (list (DataFrame F) * list (DataFrame F) * list (DataFrame F)) :=
  match ls with
  | [] => ret ([], [], [])
  | locus :: rest =>
      (t <- qc_one r_tol method locus ;;
       r <- qc_loop r_tol method rest ;;
       ret (fst (fst t) :: fst (fst r), snd (fst t) :: snd (fst r), snd t :: snd r))%M
  end.

(** [metric_data.to_csv(f"{out_dir}/{metric_name}.txt", ...)] for every entry. *)
Definition write_tables (out_dir : string) (d : list (string * DataFrame F)) : M F unit :=
  fun w =>
    (Ok tt,
     World (heap w) (rng w)
           (rev (map (fun kv => ((out_dir ++ "/" ++ fst kv ++ ".txt")%string, snd kv)) d) ++ files w)).

Definition qc_default_r_tol : F := dec 1 3.

Definition locus_qc (locus_set : LocusSet F) (r_tol : F) (method : string)
           (out_dir : option string) : M F (list (string * DataFrame F)) :=
  (let qc_metrics := [] in
   all <- qc_loop r_tol method (loci locus_set) ;;
   all_expected_z <- pd_concat (fst (fst all)) ;;
   all_dentist_s <- pd_concat (snd (fst all)) ;;
   all_compare_maf <- pd_concat (snd all) ;;
   let qc_metrics := dict_set "expected_z" all_expected_z qc_metrics in
   let qc_metrics := dict_set "dentist_s" all_dentist_s qc_metrics in
   let qc_metrics := dict_set "compare_maf" all_compare_maf qc_metrics in
   m4 <- lift (ld_4th_moment locus_set) ;;
   let qc_metrics := dict_set "ld_4th_moment" m4 qc_metrics in
   dk <- lift (ld_decay locus_set) ;;
   let qc_metrics := dict_set "ld_decay" dk qc_metrics in
   qc_metrics <-
     (if (1 <? length (loci locus_set))%nat then
        cq <- lift (cochran_q locus_set) ;;
        let qc_metrics := dict_set "cochran_q" cq qc_metrics in
        sm <- lift (snp_missingness locus_set) ;;
        ret (dict_set "snp_missingness" sm qc_metrics)
      else ret qc_metrics) ;;
   match out_dir with
   | Some dir => write_tables dir qc_metrics
   | None => ret tt
   end ;;
   ret qc_metrics)%M.
End Orchestrator.

(* ===================================================================== *)
(** * A binary64 instance to run the model *)
(* ===================================================================== *)

(** [Scalar_float] is IEEE binary64 exactly. The functions below stand in for
    the C library, scipy, sklearn and pandas where an example has to be
    evaluated. The elementary functions approximate the library ones closely,
    not to the last bit; the minimiser is a golden-section search; the mixture
    fit is replaced by equal weights. Only such statements are evaluated with
    them as depend neither on the last digits nor on the mixture weights. *)
Module Ref.
Local Open Scope float_scope.

Definition ln2 : float := 0x1.62e42fefa39efp-1.
Definition sqrt_half : float := 0x1.6a09e667f3bcdp-1.

Definition float_of_Z (k : Z) : float := B64.of_Z k.

(** t + t^3/3 + t^5/5 + ... *)
Fixpoint atanh_series (fuel : nat) (t2 term : float) (k : Z) (acc : float) : float :=
  match fuel with
  | O => acc
  | S fuel' =>
      atanh_series fuel' t2 (term * t2) (k + 2) (acc + term / float_of_Z k)
  end.

Definition ln_mantissa (m : float) : float :=
  let t := (m - 1) / (m + 1) in
  2 * atanh_series 16 (t * t) t 1 0.

(** x = m * 2^e with m in [sqrt(1/2), sqrt 2). *)
Definition split (x : float) : float * Z :=
  let (m, e) := Z.frexp x in
  if m <? sqrt_half then (2 * m, (e - 1)%Z) else (m, e).

Definition log (x : float) : float :=
  if PrimFloat.is_nan x then nan
  else if x <? 0 then nan
  else if x =? 0 then neg_infinity
  else if x =? infinity then infinity
  else let (m, e) := split x in float_of_Z e * ln2 + ln_mantissa m.

Definition log2 (x : float) : float :=
  if PrimFloat.is_nan x then nan
  else if x <? 0 then nan
  else if x =? 0 then neg_infinity
  else if x =? infinity then infinity
  else let (m, e) := split x in float_of_Z e + ln_mantissa m / ln2.

Fixpoint exp_series (fuel : nat) (r term : float) (k : Z) (acc : float) : float :=
  match fuel with
  | O => acc
  | S fuel' => exp_series fuel' r (term * r / float_of_Z k) (k + 1) (acc + term)
  end.

Definition exp (x : float) : float :=
  if PrimFloat.is_nan x then nan
  else if 710 <? x then infinity
  else if x <? -746 then 0
  else
    let k := (- B64.ceil (- (x / ln2 + 0.5)))%Z in
    let r := x - float_of_Z k * ln2 in
    Z.ldexp (exp_series 24 r 1 1 0) k.

Fixpoint pow_pos (x : float) (n : positive) : float :=
  match n with
  | xH => x
  | xO n' => let y := pow_pos x n' in y * y
  | xI n' => let y := pow_pos x n' in x * (y * y)
  end.

Definition integer_value (y : float) : option Z :=
  match Prim2SF y with
  | S754_zero _ => Some 0%Z
  | S754_finite s m e =>
      let v := if s then Z.neg m else Z.pos m in
      if (0 <=? e)%Z then Some (v * 2 ^ e)%Z
      else if (v mod 2 ^ (- e) =? 0)%Z then Some (v / 2 ^ (- e))%Z else None
  | _ => None
  end.

Definition pow (x y : float) : float :=
  match integer_value y with
  | Some Z0 => 1
  | Some (Zpos n) => pow_pos x n
  | Some (Zneg n) => 1 / pow_pos x n
  | None => exp (y * log x)
  end.

(** Golden-section search on [a, b], [fuel] shrinking steps. *)
Definition golden : float := 0x1.3c6ef372fe950p-1.  (* (sqrt 5 - 1) / 2 *)

Fixpoint golden_search (fuel : nat) (f : float -> float) (a b : float) : float :=
  match fuel with
  | O => 0.5 * (a + b)
  | S fuel' =>
      let c := b - golden * (b - a) in
      let d := a + golden * (b - a) in
      if f c <? f d then golden_search fuel' f a d else golden_search fuel' f c b
  end.

(** The density of the normal distribution, in logarithm. *)
Definition half_log_2pi : float := 0x1.d67f1c864beb5p-1.

Definition logpdf (x loc scale : float) : float :=
  let y := (x - loc) / scale in
  - (y * y) / 2 - half_log_2pi - log scale.

(** The survival function of the chi-squared distribution with one degree of
    freedom, in logarithm: log(erfc(sqrt(x / 2))). [erf] by its series below 1,
    [erfc] by its continued fraction from 1 on. *)
Definition sqrt_pi : float := 0x1.c5bf891b4ef6bp+0.

Fixpoint erf_series (fuel : nat) (x2 term : float) (n : Z) (acc : float) : float :=
  match fuel with
  | O => acc
  | S fuel' =>
      erf_series fuel' x2 (- term * x2 / float_of_Z (n + 1)) (n + 1)
                 (acc + term / float_of_Z (2 * n + 1))
  end.

Fixpoint erfc_fraction (k : nat) (x c : float) : float :=
  match k with
  | O => c
  | S k' => erfc_fraction k' x (x + float_of_Z (Z.of_nat k) / 2 / c)
  end.

Definition log_erfc (x : float) : float :=
  if x <? 1 then log (1 - 2 / sqrt_pi * erf_series 40 (x * x) x 0 0)
  else - (x * x) - log (sqrt_pi * erfc_fraction 200 x x).

Definition chi2_logsf (x : float) : float :=
  if PrimFloat.is_nan x then nan
  else if x <? 0 then 0
  else log_erfc (PrimFloat.sqrt (x / 2)).

(** In place of the mixture fit: [k] equal weights; the random state moves on. *)
Definition equal_weights (k : nat) (x : list (list float)) (g : N)
  : result (list float) * N :=
  (Ok (repeat (1 / float_of_Z (Z.of_nat k)) k), N.succ g).

(** The decomposition of a diagonal matrix with an ascending diagonal. *)
Definition eigh_diagonal (m : list (list float)) : list float * list (list float) :=
  (map (fun i => at2 m i i) (seq 0 (length m)),
   map (fun i => map (fun j => if (i =? j)%nat then 1 else 0) (seq 0 (length m)))
       (seq 0 (length m))).

(** Row-wise concatenation of frames that have the columns of the first. *)
Definition concat_column (name : string) (c : column_data float)
           (frames : list (DataFrame float)) : column_data float :=
  match c with
  | ColF _ => ColF (List.concat (map (fun f => default [] (df_floats name f)) frames))
  | ColS _ =>
      ColS (List.concat
              (map (fun f => match df_get name f with Some (ColS d) => d | _ => [] end)
                   frames))
  end.

Definition concat_frames (frames : list (DataFrame float)) : DataFrame float :=
  match frames with
  | [] => []
  | first :: _ => map (fun kc => (fst kc, concat_column (fst kc) (snd kc) frames)) first
  end.

(** Tables of the orchestrator's tabular metrics are left empty. *)
Definition no_table {A} (_ : A) : result (DataFrame float) := Ok [].
End Ref.

#[export] Instance Libm_float : Libm float := {
  np_log := Ref.log;
  np_log2 := Ref.log2;
  np_exp := Ref.exp;
  np_power := Ref.pow
}.

#[export] Instance Externals_float : Externals float := {
  intersect_sumstat_ld := fun l => l;
  linalg_eigh := Ref.eigh_diagonal;
  minimize_scalar := fun f bounds _ => Ref.golden_search 80 f (fst bounds) (snd bounds);
  norm_logpdf := Ref.logpdf;
  chi2_logsf := Ref.chi2_logsf;
  GaussianMixture_fit := Ref.equal_weights;
  concat_rows := Ref.concat_frames;
  compare_maf := Ref.no_table;
  ld_4th_moment := Ref.no_table;
  ld_decay := Ref.no_table;
  cochran_q := Ref.no_table;
  snp_missingness := Ref.no_table
}.

(* ===================================================================== *)
(** * The spectrum a call works on *)
(* ===================================================================== *)

Section Spectrum.
Context {F : Type} `{Scalar F} `{Externals F}.

(** The eigenvalues and eigenvectors a call starts from: the contents of the
    caller's two arrays, or the decomposition of the LD matrix. *)
Definition spectrum_of (w : world F) (eigvens : option eigen_dict)
           (input_locus : Locus F) (ev : list F) (vecs : list (list F)) : Prop :=
  match eigvens with
  | Some d =>
      heap w !! eigvals d = Some (Arr1 ev) /\ heap w !! eigvecs d = Some (Arr2 vecs)
  | None => linalg_eigh (ld_r input_locus) = (ev, vecs)
  end.

(** The state once the call's eigenvalue array holds [ev']: written in place
    in the caller's array, or in a fresh pair of arrays. *)
Definition store_with (w : world F) (eigvens : option eigen_dict)
           (ev' : list F) (vecs : list (list F)) : world F :=
  match eigvens with
  | Some d => World (<[eigvals d := Arr1 ev']> (heap w)) (rng w) (files w)
  | None => World (heap w ++ [Arr1 ev'; Arr2 vecs]) (rng w) (files w)
  end.

(** The estimate of "null-mle" (lines 139-147). *)
Definition null_mle `{Libm F} (z ev : list F) (vecs : list (list F)) : F :=
  minimize_scalar (fun s => negloglikelihood s (matvec (transpose vecs) z) ev)
                  (f0, f1) (Some (fsqrt float_eps)).

(** What a call leaves in the store of the caller who passed the dictionary
    [d]: only the eigenvalue array is written, it keeps its length, and every
    entry that was below [r_tol] is exactly zero. *)
Definition clamped_in_place (r_tol : F) (d : eigen_dict) (w w' : world F) : Prop :=
  exists ev ev',
    heap w !! eigvals d = Some (Arr1 ev)
    /\ heap w' = <[eigvals d := Arr1 ev']> (heap w)
    /\ length ev' = length ev
    /\ forall i x, ev !! i = Some x -> fltb x r_tol = true -> ev' !! i = Some f0.

(** A spectrum of the size of a locus with [p] variants: [p] eigenvalues and
    a [p] by [p] matrix of eigenvectors, as [np.linalg.eigh] returns them for
    a [p] by [p] LD matrix. On such a spectrum no product or broadcast of
    [estimate_s_rss] and [kriging_rss] has mismatching shapes. *)
Definition spectrum_shape (p : nat) (ev : list F) (vecs : list (list F)) : Prop :=
  length ev = p /\ length vecs = p /\ Forall (fun row => length row = p) vecs.

(** The entries of [Series] or array [a] that differ from [b] lie at [i] only. *)
Definition agree_except {A} (i : nat) (a b : list A) : Prop :=
  length a = length b /\ forall j, j <> i -> a !! j = b !! j.
End Spectrum.

(* ===================================================================== *)
(** * The pseudo-likelihood as the specification words it *)
(* ===================================================================== *)

Section SpecPseudo.
Context {F : Type} `{Scalar F}.
Local Open Scope np_scope.

(** [diag(v)] *)
Definition diag (v : list F) : list (list F) :=
  map (fun i => map (fun j => if (i =? j)%nat then nth i v f0 else f0)
                    (seq 0 (length v)))
      (seq 0 (length v)).

(** "builds the regularized precision matrix P = V diag(1/((1-s)l+s)) Vt" *)
Definition spec_precision (s : F) (eigvals : list F) (eigvecs : list (list F))
  : list (list F) :=
  matmul eigvecs
         (matmul (diag (map (fun l => f1 / ((f1 - s) * l + s)) eigvals))
                 (transpose eigvecs)).

(** "For each variant i, using only off-diagonal row entries (excluding i
    itself): condmean[i] = -(1/P[i,i]) (P[i,:i] z[:i] + P[i,i+1:] z[i+1:])" *)
Definition spec_loo_mean (p : list (list F)) (z : list F) (i : nat) : F :=
  - (f1 / at2 p i i)
  * (dot (take i (nth i p [])) (take i z)
     + dot (drop (S i) (nth i p [])) (drop (S i) z)).
End SpecPseudo.

(* ===================================================================== *)
(** * Concrete loci *)
(* ===================================================================== *)

Module Examples.
Local Open Scope float_scope.

Definition base_world : world float := World [] 0%N [].

(** Five independent variants, every beta/se equal to 2 (the end-to-end
    scenario of the specification), with sample size [n]. *)
Definition identity5 : list (list float) :=
  [[1; 0; 0; 0; 0]; [0; 1; 0; 0; 0]; [0; 0; 1; 0; 0]; [0; 0; 0; 1; 0]; [0; 0; 0; 0; 1]].

Definition five_variants (n : Z) : Locus float := {|
  SNPID := ["rs1"; "rs2"; "rs3"; "rs4"; "rs5"];
  BETA := [2; 2; 2; 2; 2];
  SE := [1; 1; 1; 1; 1];
  P := [0.001; 0.002; 0.003; 0.004; 0.005];
  ld_r := identity5;
  sample_size := n;
  popu := "EUR";
  cohort := "demo"
|}.

(** The caller's cached spectrum of [identity5]. *)
Definition identity5_world : world float :=
  World [Arr1 [1; 1; 1; 1; 1]; Arr2 identity5] 0%N [].

(** Two variants in LD 0.99999: eigenvalues 1e-5 and 1.99999, eigenvectors
    (-1, 1)/sqrt 2 and (1, 1)/sqrt 2, cached by the caller at locations 0
    and 1. [beta1] is the effect size of the first variant. *)
Definition inv_sqrt2 : float := 0x1.6a09e667f3bcdp-1.

Definition pair_locus (beta1 : float) (n : Z) : Locus float := {|
  SNPID := ["rs1"; "rs2"];
  BETA := [beta1; 0.7142];
  SE := [1; 1];
  P := [0.001; 0.002];
  ld_r := [[1; 0.99999]; [0.99999; 1]];
  sample_size := n;
  popu := "EUR";
  cohort := "demo"
|}.

Definition pair_world : world float :=
  World [Arr1 [1e-5; 1.99999];
         Arr2 [[- inv_sqrt2; inv_sqrt2]; [inv_sqrt2; inv_sqrt2]]] 0%N [].

Definition cached : eigen_dict := EigenDict 0 1.

(** Two variants whose spectrum clamps to zero altogether. *)
Definition null_locus : Locus float := {|
  SNPID := ["rs1"; "rs2"];
  BETA := [2; 1];
  SE := [1; 1];
  P := [0.001; 0.002];
  ld_r := [[0; 0]; [0; 0]];
  sample_size := 1000;
  popu := "EUR";
  cohort := "demo"
|}.

Definition null_world : world float :=
  World [Arr1 [0; 0]; Arr2 [[1; 0]; [0; 1]]] 0%N [].

(** Two variants in perfect LD with equal z-scores; the first is the lead. *)
Definition perfect_ld_locus : Locus float := {|
  SNPID := ["rs1"; "rs2"];
  BETA := [3; 3];
  SE := [1; 1];
  P := [0.001; 0.002];
  ld_r := [[1; 1]; [1; 1]];
  sample_size := 1000;
  popu := "EUR";
  cohort := "demo"
|}.

(** Four variants with LD matrix [V diag(0,0,1,3) Vt], V the 4x4 Hadamard
    matrix over 2: every entry below is a binary64 number and every
    operation on them is exact. *)
Definition hadamard4 : list (list float) :=
  [[0.5; 0.5; 0.5; 0.5]; [0.5; -0.5; 0.5; -0.5];
   [0.5; 0.5; -0.5; -0.5]; [0.5; -0.5; -0.5; 0.5]].

Definition hadamard4_eigvals : list float := [0; 0; 1; 3].

Definition hadamard4_ld : list (list float) :=
  [[1; -0.5; -1; 0.5]; [-0.5; 1; 0.5; -1]; [-1; 0.5; 1; -0.5]; [0.5; -1; -0.5; 1]].

(** Two calls in a row on the cached spectrum of [pair_locus]. *)
Definition first_call (r_tol : float) (s : option float)
  : result (DataFrame float) * world float :=
  kriging_rss (pair_locus 0.7 1000) r_tol s (Some cached) pair_world.

Definition second_call (r_tol : float) (s : option float)
  : result (DataFrame float) * world float :=
  kriging_rss (pair_locus 0.7 1000) r_tol s (Some cached) (snd (first_call r_tol s)).

(** The table a call returned. *)
Definition table_of {A} (r : result (DataFrame A) * world A) : DataFrame A :=
  or_else (fst r) [].

(** The grid of scale multipliers of [five_variants 1000]. *)
Definition five_grid : result (list float) :=
  a_grid (stabilise 1000 [2; 2; 2; 2; 2]) 5.

(** Thirty standardized differences of 1/2: the grid is not cut short. *)
Definition thirty_grid : result (list float) := a_grid (repeat 0.5 30) 30.

(** The orchestrator on two cohorts of the five variants. *)
Definition qc_of_two : result (list (string * DataFrame float)) * world float :=
  locus_qc {| loci := [five_variants 1000; five_variants 500] |} qc_default_r_tol
           "null-mle" None base_world.

(** The orchestrator on the set that holds [five_variants 1000] alone. *)
Definition qc_of_one : result (list (string * DataFrame float)) * world float :=
  locus_qc {| loci := [five_variants 1000] |} qc_default_r_tol "null-mle" (Some "out")
           base_world.
End Examples.

(* ===================================================================== *)
(** * The order of binary64 *)
(* ===================================================================== *)

(** The order of the binary64 values that are not NaN is the lexicographic
    order of this key: class and sign, then exponent, then mantissa. *)
Definition SFkey (x : spec_float) : Z * Z * Z :=
  match x with
  | S754_nan => (0, 0, 0)
  | S754_infinity true => (-2, 0, 0)
  | S754_infinity false => (2, 0, 0)
  | S754_zero _ => (0, 0, 0)
  | S754_finite true m e => (-1, - e, Z.neg m)
  | S754_finite false m e => (1, e, Z.pos m)
  end.

Definition lex_lt (a b : Z * Z * Z) : Prop :=
  fst (fst a) < fst (fst b)
  \/ (fst (fst a) = fst (fst b)
      /\ (snd (fst a) < snd (fst b) \/ (snd (fst a) = snd (fst b) /\ snd a < snd b))).

(** What [idxmin] has found after the entries [pre]: nothing if they are all
    NaN, else the first position that holds their smallest value. *)
Definition first_min (pre : list float) (best : option (nat * float)) : Prop :=
  match best with
  | None => forall j y, pre !! j = Some y -> PrimFloat.is_nan y = true
  | Some (k, b) =>
      pre !! k = Some b
      /\ PrimFloat.is_nan b = false
      /\ (forall j y, pre !! j = Some y -> PrimFloat.ltb y b = false)
      /\ (forall j y, (j < k)%nat -> pre !! j = Some y -> PrimFloat.is_nan y = false ->
                      PrimFloat.ltb b y = true)
  end.

(* ===================================================================== *)
(** * [cochran_q] *)
(* ===================================================================== *)

(** [stats.chi2.sf(x, df)] *)
Class Chi2 (F : Type) : Type := { chi2_sf : F -> Z -> F }.

Module Heterogeneity.
Section Heterogeneity.
Context {F : Type} `{Scalar F} `{Chi2 F}.
Local Open Scope np_scope.

(** What [cochran_q] reads of a locus: the SNPID column of
    [original_sumstats], and the columns SNPID, BETA, SE (in [stats]) and
    EAF of [sumstats]. *)
Record Cohort : Type := {
  original_SNPID : list string;
  stats : Locus F;
  EAF : list F
}.

(** A table with an index: [DataFrame.set_index] moves a column there. *)
Record IndexedFrame : Type := {
  index : list string;
  columns : DataFrame F
}.

(** The rows of [sumstats[[SNPID, BETA, SE, EAF]]]. *)
Definition sumstats_rows (c : Cohort) : list (string * (F * F * F)) :=
  zip (SNPID (stats c)) (zip (zip (BETA (stats c)) (SE (stats c))) (EAF c)).

(** A row of [merged_df]: the SNPID and, for each cohort merged so far,
    (BETA_i, SE_i, EAF_i). *)
Definition merged_row : Type := string * list (F * F * F).

(** [pd.merge(merged_df, locus_df, on="SNPID", how="inner")]: the rows of
    the left table in order, each paired with every row of the right table
    that has its SNPID. *)
Definition merge_inner (left : list merged_row) (right : list (string * (F * F * F)))
  : list merged_row :=
  flat_map (fun l => map (fun r => (fst l, snd l ++ [snd r]))
                         (List.filter (fun r => String.eqb (fst r) (fst l)) right))
           left.

(** Lines 668-683. *)
Definition merged_df (first : Cohort) (loci : list Cohort) : list merged_row :=
  fold_left (fun m c => merge_inner m (sumstats_rows c)) loci
            (map (fun s => (s, [])) (original_SNPID first)).

(** [np.sum(rows, axis=0)] at one position: the entries of the cohorts added
    in order. *)
Definition add_reduce (l : list F) : F :=
  match l with
  | [] => f0
  | x :: rest => fold_left fadd rest x
  end.

(** Lines 685-698, for one row of [merged_df] (the source computes the same
    expressions on whole columns). *)
Definition row_weights (cols : list (F * F * F)) : list F :=
  map (fun t => f1 / (snd (fst t) * snd (fst t))) cols.

Definition row_effects (cols : list (F * F * F)) : list F :=
  map (fun t => fst (fst t)) cols.

Definition weighted_mean (cols : list (F * F * F)) : F :=
  add_reduce (zip_with fmul (row_weights cols) (row_effects cols))
  / add_reduce (row_weights cols).

Definition Q_row (cols : list (F * F * F)) : F :=
  add_reduce (zip_with (fun w e => w * ((e - weighted_mean cols) * (e - weighted_mean cols)))
                       (row_weights cols) (row_effects cols)).

(** Line 708: [np.maximum(0, (Q - df) / Q * 100)] *)
Definition I_squared (Q : F) (df : Z) : F :=
  fmax f0 ((Q - of_Z df) / Q * of_Z 100).

Definition cochran_q (loci : list Cohort) : result IndexedFrame :=
  match loci with
  | [] => Raise (IndexError "list index out of range")
  | first :: _ =>
      let merged := merged_df first loci in
      let k := length loci in
      let Q := map (fun row => Q_row (snd row)) merged in
      let df := (Z.of_nat k - 1)%Z in
      let p_value := map (fun q => chi2_sf q df) Q in
      let I2 := map (fun q => I_squared q df) Q in
      Ok {| index := map fst merged;
            columns := [("Q", ColF Q); ("Q_pvalue", ColF p_value); ("I_squared", ColF I2)] |}
  end.
End Heterogeneity.

Arguments Cohort F : clear implicits.
Arguments IndexedFrame F : clear implicits.
End Heterogeneity.

(* ===================================================================== *)
(** * [qc_locus_cli] *)
(* ===================================================================== *)

Section Cli.
Context {F : Type} `{Scalar F} `{Libm F} `{Externals F}.
(** The rows of the loci table that belong to one locus, and
    [credtools.locus.load_locus_set], which reads the locus set they name. *)
Variable locus_info : Type.
Variable load_locus_set : locus_info -> result (LocusSet F).

(** [metric_data.to_csv(f"{locus_out_dir}/{metric_name}.txt.gz", ...)] for
    every entry. *)
Definition write_tables_gz (locus_out_dir : string) (d : list (string * DataFrame F))
  : M F unit :=
  fun w =>
    (Ok tt,
     World (heap w) (rng w)
           (rev (map (fun kv => ((locus_out_dir ++ "/" ++ fst kv ++ ".txt.gz")%string, snd kv)) d)
            ++ files w)).

Definition qc_locus_cli (args : string * locus_info * string) : M F string :=
  let locus_id := fst (fst args) in
  let locus_info := snd (fst args) in
  let base_out_dir := snd args in
  (locus_set <- lift (load_locus_set locus_info) ;;
   qc_metrics <- locus_qc locus_set qc_default_r_tol "null-mle" None ;;
   let locus_out_dir := (base_out_dir ++ "/" ++ locus_id)%string in
   write_tables_gz locus_out_dir qc_metrics ;;
   ret locus_id)%M.
End Cli.

(* ===================================================================== *)
(** * [utils.py] *)
(* ===================================================================== *)

Module Utils.
Local Open Scope string_scope.

(** The exceptions of [utils.py]. [ValueError] is the one [int] raises for
    a string of [value_digits] digits, more than the interpreter converts
    ("Exceeds the limit (4300 digits) for integer string conversion: value
    has ... digits; ..."). *)
Inductive error : Type :=
| KeyError (msg : string)
| FileNotFoundError (msg : string)
| RuntimeError (msg : string)
| CalledProcessError (returncode : Z)
| ValueError (value_digits : nat)
| OtherError (msg : string).

Inductive outcome (A : Type) : Type :=
| Return (a : A)
| Raised (e : error).
Arguments Return {A} a.
Arguments Raised {A} e.

(** The file system is the set of the paths that exist. *)
Abbreviation filesystem := (gset string).

(** The operating system, as [utils.py] calls it. *)
Class OS : Type := {
  (** [shutil.which(name)] *)
  which : filesystem -> string -> option string;
  (** [Path(__file__).parent] *)
  package_dir : string;
  (** [str(directory / relative)] *)
  joinpath : string -> string -> string;
  (** [open(path, "w")], closed again: the file system it leaves. *)
  open_w : string -> filesystem -> outcome filesystem;
  (** [subprocess.run(command, shell=False, check=True, stdout=log, stderr=log)]
      with the log file open. *)
  subprocess_run : list string -> string -> filesystem -> outcome unit * filesystem;
  (** [subprocess.check_output(command, shell=True, universal_newlines=True)] *)
  check_output : string -> outcome string;
  (** [subprocess.run(command, shell=True, check=True, ...).returncode] *)
  run_shell : string -> outcome Z
}.

(** [os.path.exists(path)] *)
Definition path_exists (fs : filesystem) (path : string) : bool :=
  negb (String.eqb path "") && bool_decide (path ∈ fs).

(** The truth value of an [Optional[str]]: [None] and the empty string are
    false. *)
Definition truthy (o : option string) : option string :=
  match o with
  | Some s => if String.eqb s "" then None else Some s
  | None => None
  end.

(* --------------------------------------------------------------------- *)
(** ** [ExternalTool] *)

Record ExternalTool : Type := {
  name : string;
  default_path : option string;
  custom_path : option string
}.

(** [ExternalTool.__init__] *)
Definition new_tool (name : string) (default_path : option string) : ExternalTool :=
  {| name := name; default_path := default_path; custom_path := None |}.

(** [ToolManager.tools]: the registered tools by name. *)
Abbreviation ToolManager := (gmap string ExternalTool).

Section Tools.
Context `{OS}.

Definition set_custom_path (self : ExternalTool) (path : string) (fs : filesystem)
  : outcome ExternalTool :=
  if path_exists fs path
  then Return {| name := name self; default_path := default_path self;
                 custom_path := Some path |}
  else Raised (FileNotFoundError
                 ("Custom path for " ++ name self ++ " does not exist: " ++ path)).

Definition get_path (self : ExternalTool) (fs : filesystem) : outcome string :=
  match truthy (custom_path self) with
  | Some p => Return p
  | None =>
      match truthy (which fs (name self)) with
      | Some system_tool => Return system_tool
      | None =>
          let not_found :=
            Raised (FileNotFoundError ("Could not find " ++ name self ++ " executable")) in
          match truthy (default_path self) with
          | Some dp =>
              let internal_tool := joinpath package_dir dp in
              if path_exists fs internal_tool then Return internal_tool else not_found
          | None => not_found
          end
      end
  end.

(** Lines 316-323: the expected output files, checked in order. *)
Fixpoint check_outputs (paths : list string) (fs : filesystem) : outcome unit :=
  match paths with
  | [] => Return tt
  | path :: rest =>
      if path_exists fs path then check_outputs rest fs
      else Raised (FileNotFoundError ("Expected output file not found: " ++ path))
  end.

(** [output_file_path], a string or a list of strings: nothing is checked
    for [None], the empty string and the empty list. *)
Definition expected_outputs (output_file_path : option (string + list string))
  : list string :=
  match output_file_path with
  | None => []
  | Some (inl s) => if String.eqb s "" then [] else [s]
  | Some (inr l) => l
  end.

Definition run (self : ExternalTool) (command : list string) (log_file : string)
           (output_file_path : option (string + list string)) (fs : filesystem)
  : outcome unit * filesystem :=
  match get_path self fs with
  | Raised e => (Raised e, fs)
  | Return path =>
      let full_command := path :: command in
      match open_w log_file fs with
      | Raised e => (Raised e, fs)
      | Return fs1 =>
          match subprocess_run full_command log_file fs1 with
          | (Raised e, fs2) => (Raised e, fs2)
          | (Return _, fs2) => (check_outputs (expected_outputs output_file_path) fs2, fs2)
          end
      end
  end.

(* --------------------------------------------------------------------- *)
(** ** [ToolManager] *)

Definition not_registered (name : string) : error :=
  KeyError ("Tool " ++ name ++ " is not registered").

Definition register_tool (name : string) (default_path : option string)
           (tools : ToolManager) : ToolManager :=
  <[name := new_tool name default_path]> tools.

Definition set_tool_path (name path : string) (tools : ToolManager) (fs : filesystem)
  : outcome ToolManager :=
  match tools !! name with
  | None => Raised (not_registered name)
  | Some tool =>
      match set_custom_path tool path fs with
      | Return tool' => Return (<[name := tool']> tools)
      | Raised e => Raised e
      end
  end.

Definition get_tool (name : string) (tools : ToolManager) : outcome ExternalTool :=
  match tools !! name with
  | None => Raised (not_registered name)
  | Some tool => Return tool
  end.

Definition run_tool (name : string) (args : list string) (log_file : string)
           (output_file_path : option (string + list string))
           (tools : ToolManager) (fs : filesystem) : outcome unit * filesystem :=
  match tools !! name with
  | None => (Raised (not_registered name), fs)
  | Some _ =>
      match get_tool name tools with
      | Return tool => run tool args log_file output_file_path fs
      | Raised e => (Raised e, fs)
      end
  end.

(** Lines 457-459: the manager of the module, with its two tools. *)
Definition tool_manager : ToolManager :=
  fold_left (fun tools tool => register_tool tool (Some ("bin/" ++ tool)) tools)
            ["finemap"; "SuSiEx"] ∅.

(* --------------------------------------------------------------------- *)
(** ** [check_r_package] *)

(** [\d]. Strings here are sequences of characters with code points below
    256; the decimal digits among those are the ten ASCII digits. *)
Definition is_digit (c : ascii) : bool :=
  (48 <=? nat_of_ascii c)%nat && (nat_of_ascii c <=? 57)%nat.

Fixpoint digits_only (s : string) : bool :=
  match s with
  | String c rest => is_digit c && digits_only rest
  | EmptyString => true
  end.

(** The longest prefix of digits, and what follows it. *)
Fixpoint span_digits (s : string) : string * string :=
  match s with
  | String c rest =>
      if is_digit c
      then let dr := span_digits rest in (String c (fst dr), snd dr)
      else (EmptyString, s)
  | EmptyString => (EmptyString, EmptyString)
  end.

(** [\d+] at the start of [s]: greedy, and a shorter match cannot be followed
    by anything but a digit. *)
Definition match_digits (s : string) : option (string * string) :=
  let dr := span_digits s in
  if String.eqb (fst dr) "" then None else Some dr.

(** [\.] at the start of [s]. *)
Definition match_dot (s : string) : option string :=
  match s with
  | String c rest => if Ascii.eqb c "." then Some rest else None
  | EmptyString => None
  end.

(** [(\d+\.\d+\.\d+)] at the start of [s]: the text of the group. *)
Definition match_version (s : string) : option string :=
  match match_digits s with
  | Some (a, r1) =>
      match match_dot r1 with
      | Some r2 =>
          match match_digits r2 with
          | Some (b, r3) =>
              match match_dot r3 with
              | Some r4 =>
                  match match_digits r4 with
                  | Some (c, _) => Some (a ++ "." ++ b ++ "." ++ c)
                  | None => None
                  end
              | None => None
              end
          | None => None
          end
      | None => None
      end
  | None => None
  end.

(** [R version (\d+\.\d+\.\d+)] at the start of [s]. *)
Definition match_here (s : string) : option string :=
  if String.prefix "R version " s
  then match_version (String.substring 10 (String.length s - 10) s)
  else None.

(** [re.search(r"R version (\d+\.\d+\.\d+)", s)], and [group(1)] of the
    match: the leftmost position where the pattern matches. *)
Fixpoint re_search (s : string) : option string :=
  match match_here s with
  | Some v => Some v
  | None =>
      match s with
      | String _ rest => re_search rest
      | EmptyString => None
      end
  end.

(** [s.split(".")] *)
Fixpoint split_dot (s : string) (current : string) : list string :=
  match s with
  | String c rest =>
      if Ascii.eqb c "." then current :: split_dot rest ""
      else split_dot rest (current ++ String c "")
  | EmptyString => [current]
  end.

(** The number a string of digits denotes, after the digits [acc]. *)
Fixpoint int_of (s : string) (acc : N) : N :=
  match s with
  | String c rest => int_of rest (10 * acc + (N.of_nat (nat_of_ascii c) - 48))%N
  | EmptyString => acc
  end.

(** [sys.get_int_max_str_digits()], as CPython sets it by default. *)
Definition int_max_str_digits : nat := 4300.

(** [int(s)] of a non-empty string of digits: CPython converts at most
    [int_max_str_digits] digits (leading zeros count) and raises
    [ValueError] on a longer string. *)
Definition py_int (s : string) : outcome N :=
  if (int_max_str_digits <? String.length s)%nat
  then Raised (ValueError (String.length s))
  else Return (int_of s 0%N).

(** [tuple(map(int, parts))]: the parts are converted in order, and the
    first conversion that raises ends the call. *)
Fixpoint ints (parts : list string) : outcome (list N) :=
  match parts with
  | [] => Return []
  | part :: rest =>
      match py_int part with
      | Return n =>
          match ints rest with
          | Return ns => Return (n :: ns)
          | Raised e => Raised e
          end
      | Raised e => Raised e
      end
  end.

(** [a < b] on tuples of integers. *)
Fixpoint tuple_ltb (a b : list N) : bool :=
  match a, b with
  | [], [] => false
  | [], _ :: _ => true
  | _ :: _, [] => false
  | x :: a', y :: b' =>
      if (x <? y)%N then true else if (y <? x)%N then false else tuple_ltb a' b'
  end.

Definition version_tuple (r_version : string) : outcome (list N) :=
  ints (split_dot r_version "").

(** The first number of a version string. *)
Definition major (r_version : string) : N := int_of (fst (span_digits r_version)) 0%N.

(** Lines 126-142. The two [except] clauses catch what [check_output]
    raises; the [RuntimeError]s raised inside the [try] and the [ValueError]
    of [int] pass through them. *)
Definition check_r_version : outcome unit :=
  match check_output "R --version" with
  | Return r_version_output =>
      match re_search r_version_output with
      | Some r_version =>
          match version_tuple r_version with
          | Return version =>
              if tuple_ltb version [4; 0; 0]%N
              then Raised (RuntimeError ("R version " ++ r_version ++ " is earlier than 4.0"))
              else Return tt
          | Raised e => Raised e
          end
      | None => Raised (RuntimeError "Unable to determine R version")
      end
  | Raised (CalledProcessError _) => Raised (RuntimeError "Failed to check R version")
  | Raised (FileNotFoundError _) =>
      Raised (FileNotFoundError "R is not installed or not found in the system PATH.")
  | Raised e => Raised e
  end.

Definition double_quote : string := String (ascii_of_nat 34) EmptyString.

Definition r_command (package_name : string) : string :=
  "R --slave -e " ++ double_quote ++ "if (requireNamespace('" ++ package_name
  ++ "', quietly = TRUE)) quit(status = 0) else quit(status = 1)" ++ double_quote.

Definition not_installed (package_name : string) : error :=
  RuntimeError ("R package '" ++ package_name ++ "' is not installed.").

(** Lines 144-158. *)
Definition check_installed (package_name : string) : outcome unit :=
  match run_shell (r_command package_name) with
  | Return returncode =>
      if negb (returncode =? 0)%Z then Raised (not_installed package_name) else Return tt
  | Raised (CalledProcessError _) => Raised (not_installed package_name)
  | Raised e => Raised e
  end.

Definition check_r_package (package_name : string) : outcome unit :=
  match check_r_version with
  | Return _ => check_installed package_name
  | Raised e => Raised e
  end.
End Tools.
End Utils.

(* ===================================================================== *)
(** * More concrete cases *)
(* ===================================================================== *)

Module Scenarios.
Local Open Scope float_scope.

(** A locus without variants. *)
Definition empty_locus : Locus float := {|
  SNPID := [];
  BETA := [];
  SE := [];
  P := [];
  ld_r := [];
  sample_size := 1000;
  popu := "EUR";
  cohort := "demo"
|}.

(** The loci table names one locus set, of the five independent variants. *)
Definition load_five (info : unit) : result (LocusSet float) :=
  Ok {| loci := [Examples.five_variants 1000] |}.

Definition cli_run : result string * world float :=
  qc_locus_cli load_five ("locus1", tt, "out") Examples.base_world.

(** One turn of the loop of [locus_qc], on the five variants. *)
Definition qc_one_run
  : result (DataFrame float * DataFrame float * DataFrame float) * world float :=
  qc_one qc_default_r_tol "null-mle" (Examples.five_variants 1000) Examples.base_world.

Definition qc_one_out : DataFrame float * DataFrame float * DataFrame float :=
  or_else (fst qc_one_run) ([], [], []).

(** Two cohorts over the reals that share the variants rs1 and rs2, listed
    in different orders; the first cohort had a third variant originally. *)
Definition cohort_of (ids : list string) (beta se : list R) : Heterogeneity.Cohort R := {|
  Heterogeneity.original_SNPID := ["rs1"; "rs2"; "rs3"];
  Heterogeneity.stats := {|
    SNPID := ids; BETA := beta; SE := se; P := []; ld_r := [];
    sample_size := 1000; popu := "EUR"; cohort := "demo" |};
  Heterogeneity.EAF := [3 / 10; 1 / 5]%R
|}.

Definition two_cohorts : list (Heterogeneity.Cohort R) :=
  [cohort_of ["rs1"; "rs2"] [1 / 2; 1]%R [1; 2]%R;
   cohort_of ["rs2"; "rs1"] [3 / 2; 1 / 4]%R [1 / 2; 1]%R].

(** The p-values are not looked at. *)
Definition no_p_value : Chi2 R := {| chi2_sf := fun _ _ => 0%R |}.

Definition two_cohorts_table : Heterogeneity.IndexedFrame R :=
  match Heterogeneity.cochran_q (H0:=no_p_value) two_cohorts with
  | Ok t => t
  | Raise _ => {| Heterogeneity.index := []; Heterogeneity.columns := [] |}
  end.

(** An operating system where nothing is on the PATH, every command succeeds
    and writes [out.snp], and R answers with the given text. *)
Definition os_with (r_version_output : string) : Utils.OS := {|
  Utils.which := fun _ _ => None;
  Utils.package_dir := "/pkg";
  Utils.joinpath := fun d r => (d ++ "/" ++ r)%string;
  Utils.open_w := fun p fs => Utils.Return ({[p]} ∪ fs);
  Utils.subprocess_run := fun _ _ fs => (Utils.Return tt, {["out.snp"%string]} ∪ fs);
  Utils.check_output := fun _ => Utils.Return r_version_output;
  Utils.run_shell := fun _ => Utils.Return 0%Z
|}.

Definition demo_os : Utils.OS := os_with "R version 4.3.1 (2023-06-16) -- Beagle Scouts".

Definition demo_fs : gset string := {["/pkg/bin/finemap"%string; "/opt/finemap"%string]}.

Definition finemap_at_opt : Utils.ExternalTool := {|
  Utils.name := "finemap";
  Utils.default_path := Some "bin/finemap"%string;
  Utils.custom_path := Some "/opt/finemap"%string
|}.

(** A version number of 4301 digits. *)
Definition many_nines : string := string_of_list_ascii (repeat "9"%char 4301).

(** The caller's cached spectrum of a locus without variants. *)
Definition empty_world : world float := World [Arr1 []; Arr2 []] 0%N [].

(** A second cohort of the five independent variants. *)
Definition replication : Locus float := {|
  SNPID := ["rs1"; "rs2"; "rs3"; "rs4"; "rs5"];
  BETA := [1; 2; 3; 2; 1];
  SE := [1; 1; 1; 1; 1];
  P := [0.3; 0.04; 0.002; 0.04; 0.3];
  ld_r := Examples.identity5;
  sample_size := 500;
  popu := "EAS";
  cohort := "replication"
|}.

Definition two_cohort_set : LocusSet float :=
  {| loci := [Examples.five_variants 1000; replication] |}.

(** Stand-ins for the two metrics of several cohorts, to run the
    orchestrator on [two_cohort_set]: the heterogeneity table is the one of
    [Heterogeneity.cochran_q] (the loci carry no allele frequency and no
    original table here; the statistics do not read them), with the survival
    function of one degree of freedom; the missingness table has a column of
    ones per cohort, as for cohorts that list the same variants. *)
Definition chi2_one : Chi2 float :=
  {| chi2_sf := fun q _ => Ref.exp (Ref.chi2_logsf q) |}.

Definition cohort_of_locus (l : Locus float) : Heterogeneity.Cohort float := {|
  Heterogeneity.original_SNPID := SNPID l;
  Heterogeneity.stats := l;
  Heterogeneity.EAF := repeat 0.5 (length (SNPID l))
|}.

Definition cochran_q_table (ls : LocusSet float) : result (DataFrame float) :=
  match Heterogeneity.cochran_q (H0:=chi2_one) (map cohort_of_locus (loci ls)) with
  | Ok t => Ok (Heterogeneity.columns t)
  | Raise e => Raise e
  end.

Definition missingness_table (ls : LocusSet float) : result (DataFrame float) :=
  Ok (map (fun l => (cohort_label l, ColF (repeat 1 (length (SNPID l))))) (loci ls)).

Definition tabular : Externals float := {|
  intersect_sumstat_ld := fun l => l;
  linalg_eigh := Ref.eigh_diagonal;
  minimize_scalar := fun f bounds _ => Ref.golden_search 80 f (fst bounds) (snd bounds);
  norm_logpdf := Ref.logpdf;
  chi2_logsf := Ref.chi2_logsf;
  GaussianMixture_fit := Ref.equal_weights;
  concat_rows := Ref.concat_frames;
  compare_maf := Ref.no_table;
  ld_4th_moment := Ref.no_table;
  ld_decay := Ref.no_table;
  cochran_q := cochran_q_table;
  snp_missingness := missingness_table
|}.

(** The orchestrator on the two cohorts. *)
Definition qc_two_run : result (list (string * DataFrame float)) * world float :=
  locus_qc (H1:=tabular) two_cohort_set qc_default_r_tol "null-mle" None
           Examples.base_world.

Definition qc_two_out : list (string * DataFrame float) := or_else (fst qc_two_run) [].
End Scenarios.

Unset Implicit Arguments.

(* ===================================================================== *)
(** * The literals of the source in binary64 *)
(* ===================================================================== *)

Example dec_0_8 : dec (F:=float) 8 1 = 0.8%float.
Proof. vm_compute. reflexivity. Qed.

Example dec_1_05 : dec (F:=float) 105 2 = 1.05%float.
Proof. vm_compute. reflexivity. Qed.

Example dec_1e_8 : dec (F:=float) 1 8 = 1e-8%float.
Proof. vm_compute. reflexivity. Qed.

Example dec_1e_3 : dec (F:=float) 1 3 = 1e-3%float.
Proof. vm_compute. reflexivity. Qed.

Example dec_1e_15 : dec (F:=float) 1 15 = 1e-15%float.
Proof. vm_compute. reflexivity. Qed.

Example float_eps_value : float_eps (F:=float) = 0x1p-52%float.
Proof. vm_compute. reflexivity. Qed.

Example ceil_up : B64.ceil 18.78%float = 19.
Proof. vm_compute. reflexivity. Qed.

Example ceil_negative : B64.ceil (-2.5)%float = -2.
Proof. vm_compute. reflexivity. Qed.

Example ceil_integer : B64.ceil 4%float = 4.
Proof. vm_compute. reflexivity. Qed.

(* ===================================================================== *)
(** * Lemmas on the numpy operations *)
(* ===================================================================== *)

Section NumpyFacts.
Context {F : Type} `{Scalar F}.
Local Open Scope np_scope.

Lemma clamp_length r_tol (v : list F) : length (clamp r_tol v) = length v.
Proof. unfold clamp. now rewrite length_map. Qed.

Lemma clamp_rev r_tol (v : list F) : clamp r_tol (rev v) = rev (clamp r_tol v).
Proof. unfold clamp. now rewrite map_rev. Qed.

(** Writing the mask through the reversed view is clamping the array. *)
Lemma clamp_through_view b r_tol (v : list F) :
  orient b (clamp r_tol (orient b v)) = clamp r_tol v.
Proof.
  destruct b; unfold orient; [|reflexivity].
  now rewrite clamp_rev, rev_involutive.
Qed.

(** Clamping twice at the same tolerance changes nothing more. *)
Lemma clamp_idem r_tol (v : list F) : clamp r_tol (clamp r_tol v) = clamp r_tol v.
Proof.
  unfold clamp. rewrite map_map. apply map_ext. intros x.
  destruct (x <? r_tol) eqn:E; [|now rewrite E].
  now destruct (f0 <? r_tol).
Qed.

(** Whatever was clamped before, an entry below the tolerance ends as 0. *)
Lemma clamp_below r_tol (v : list F) i x :
  v !! i = Some x -> (x <? r_tol) = true -> clamp r_tol v !! i = Some f0.
Proof.
  intros Hx Hlt. unfold clamp.
  change (map ?f ?l) with (f <$> l). rewrite list_lookup_fmap, Hx. cbn.
  now rewrite Hlt.
Qed.

Lemma clamp_twice_below r_tol r_tol' (v : list F) i x :
  v !! i = Some x -> (x <? r_tol) = true ->
  clamp r_tol (clamp r_tol' v) !! i = Some f0.
Proof.
  intros Hx Hlt. unfold clamp.
  change (map ?f ?l) with (f <$> l). rewrite !list_lookup_fmap, Hx. cbn.
  destruct (x <? r_tol').
  - now destruct (f0 <? r_tol).
  - now rewrite Hlt.
Qed.

(** An entry that is not below the tolerance is left as it is. *)
Lemma clamp_above r_tol (v : list F) i x :
  v !! i = Some x -> (x <? r_tol) = false -> clamp r_tol v !! i = Some x.
Proof.
  intros Hx Hlt. unfold clamp.
  change (map ?f ?l) with (f <$> l). rewrite list_lookup_fmap, Hx. cbn.
  now rewrite Hlt.
Qed.

Lemma stabilise_length n (z : list F) : length (stabilise n z) = length z.
Proof. unfold stabilise. now rewrite length_map. Qed.

Lemma nan_to_zero_length (z : list F) : length (nan_to_zero z) = length z.
Proof. unfold nan_to_zero. now rewrite length_map. Qed.

(** The transform and the NaN replacement act entry by entry. *)
Lemma agree_except_map {A B} (f : A -> B) i (a b : list A) :
  agree_except i a b -> agree_except i (map f a) (map f b).
Proof.
  intros [Hl Hj]. split; [now rewrite !length_map|].
  intros j Hji. change (map f ?l) with (f <$> l).
  now rewrite !list_lookup_fmap, (Hj j Hji).
Qed.

Lemma agree_except_take {A} i (a b : list A) :
  agree_except i a b -> take i a = take i b.
Proof.
  intros [Hl Hj]. apply list_eq. intros j.
  destruct (decide (j < i)%nat) as [Hlt|Hge].
  - rewrite !lookup_take_lt by lia. apply Hj. lia.
  - rewrite !lookup_take_ge by lia. reflexivity.
Qed.

Lemma agree_except_drop {A} i (a b : list A) :
  agree_except i a b -> drop (S i) a = drop (S i) b.
Proof.
  intros [Hl Hj]. apply list_eq. intros j.
  rewrite !lookup_drop. apply Hj. lia.
Qed.
End NumpyFacts.

(* ===================================================================== *)
(** * Running the calls *)
(* ===================================================================== *)

Section Runs.
Context {F : Type} `{Scalar F} `{Libm F} `{Externals F}.

Lemma map_orient_false (m : list (list F)) : map (orient false) m = m.
Proof. unfold orient. apply map_id. Qed.

(** [eigen_or_compute] yields a dictionary [d] whose two arrays hold the
    spectrum; writing the eigenvalue array of [d] is [store_with]. *)
Lemma eigen_or_compute_run (w : world F) eigvens input_locus (ev : list F) vecs :
  spectrum_of w eigvens input_locus ev vecs ->
  exists d,
    eigen_or_compute eigvens input_locus w = (Ok d, store_with w eigvens ev vecs)
    /\ (forall x, heap (store_with w eigvens x vecs) !! eigvals d = Some (Arr1 x)
                  /\ heap (store_with w eigvens x vecs) !! eigvecs d = Some (Arr2 vecs))
    /\ (forall x y, store_with (store_with w eigvens x vecs) (Some d) y vecs
                    = store_with w eigvens y vecs).
Proof.
  destruct eigvens as [d|]; cbn.
  - intros [Hv Hm]. exists d. unfold ret.
    assert (Hlt : (eigvals d < length (heap w))%nat)
      by (eapply lookup_lt_Some; eassumption).
    assert (Hne : eigvals d <> eigvecs d)
      by (intros Heq; rewrite Heq in Hv; congruence).
    split; [|split].
    + rewrite list_insert_id by assumption. now destruct w.
    + intros x. split.
      * now apply list_lookup_insert_eq.
      * now rewrite list_lookup_insert_ne.
    + intros x y. now rewrite list_insert_insert_eq.
  - intros Heq. exists (EigenDict (length (heap w)) (S (length (heap w)))).
    unfold get_eigen, bind, alloc, ret. rewrite Heq. cbn.
    rewrite length_app. cbn. rewrite Nat.add_1_r.
    rewrite <- app_assoc. cbn.
    split; [reflexivity|split].
    + intros x. split.
      * rewrite lookup_app_r by lia. now rewrite Nat.sub_diag.
      * rewrite lookup_app_r by lia.
        now replace (S (length (heap w)) - length (heap w))%nat with 1%nat by lia.
    + intros x y. rewrite insert_app_r_alt by lia. now rewrite Nat.sub_diag.
Qed.

(** The in-place clamp on a dictionary whose eigenvalue array holds [ev]. *)
Lemma clamp_in_place_run (w : world F) d b r_tol (ev : list F) vecs :
  heap w !! eigvals d = Some (Arr1 ev) ->
  clamp_in_place (View1 (eigvals d) b) r_tol w
  = (Ok tt, store_with w (Some d) (clamp r_tol ev) vecs).
Proof.
  intros Hv. unfold clamp_in_place. cbn. rewrite Hv.
  now rewrite clamp_through_view.
Qed.

Lemma read_views (w : world F) d b (ev : list F) vecs :
  heap w !! eigvals d = Some (Arr1 ev) ->
  heap w !! eigvecs d = Some (Arr2 vecs) ->
  read1 (View1 (eigvals d) b) w = (Ok (orient b ev), w)
  /\ read2 (View2 (eigvecs d) b) w = (Ok (map (orient b) vecs), w).
Proof.
  intros Hv Hm. unfold read1, read2. cbn. now rewrite Hv, Hm.
Qed.

(** [estimate_s_rss], step by step: the clamp is written first, then the
    sample size is checked, then the estimate is computed from the clamped
    spectrum. *)
Lemma estimate_s_rss_run locus r_tol method eigvens (w : world F) (ev : list F) vecs :
  let input_locus := intersect_sumstat_ld locus in
  let n := sample_size input_locus in
  spectrum_of w eigvens input_locus ev vecs ->
  estimate_s_rss locus r_tol method eigvens w
  = (if (n <=? 1)%Z then Raise n_error
     else estimate_by method (stabilise n (nan_to_zero (raw_z input_locus)))
                      (clamp r_tol ev) vecs,
     store_with w eigvens (clamp r_tol ev) vecs).
Proof.
  intros input_locus n Hs.
  destruct (eigen_or_compute_run _ _ _ _ _ Hs) as (d & Hrun & Hd & Hst).
  unfold estimate_s_rss, bind. fold input_locus. rewrite Hrun.
  rewrite (clamp_in_place_run _ d false r_tol ev vecs (proj1 (Hd ev))), Hst.
  fold n. destruct (n <=? 1)%Z; [reflexivity|].
  destruct (Hd (clamp r_tol ev)) as [Hv Hm].
  destruct (read_views _ d false _ _ Hv Hm) as [R1 R2].
  rewrite R1, R2. cbn. now rewrite map_orient_false.
Qed.

(** The mixture stage of [kriging_rss] leaves the arrays and the files as
    they are, whether it returns or raises. *)
Lemma kriging_table_frame input_locus z s ev vecs (w : world F) :
  heap (snd (kriging_table input_locus z s ev vecs w)) = heap w
  /\ files (snd (kriging_table input_locus z s ev vecs w)) = files w.
Proof.
  unfold kriging_table, bind, lift, gmm_weights, ret.
  destruct (a_grid _ _); cbn; [|now split].
  destruct (row_max _); cbn; [|now split].
  destruct (GaussianMixture_fit _ _ _) as [[wt|e] g]; cbn; [|now split].
  destruct (row_max _); cbn; now split.
Qed.

(** The columns of a returned table. *)
Lemma kriging_table_ok input_locus z s ev vecs (w w' : world F) df :
  kriging_table input_locus z s ev vecs w = (Ok df, w') ->
  let precision := kriging_precision s ev vecs in
  df_floats "z" df = Some z
  /\ df_floats "condmean" df = Some (loo_condmean precision z)
  /\ df_floats "condvar" df = Some (loo_condvar precision z)
  /\ df_floats "z_std_diff" df
     = Some (standardise z (loo_condmean precision z) (loo_condvar precision z))
  /\ is_ok (a_grid (standardise z (loo_condmean precision z) (loo_condvar precision z))
                   (length z)) = true.
Proof.
  unfold kriging_table, bind, lift, gmm_weights, ret.
  destruct (a_grid _ _); cbn; [|discriminate].
  destruct (row_max _); cbn; [|discriminate].
  destruct (GaussianMixture_fit _ _ _) as [[wt|e] g]; cbn; [|discriminate].
  destruct (row_max _); cbn; [|discriminate].
  intros [= <- _]. repeat split.
Qed.

(** [kriging_rss], step by step. With [s] given, the clamp at [r_tol] is the
    only write. Without it, [estimate_s_rss] runs first on the same arrays
    and clamps them at its own default tolerance; if it raises, the clamp at
    [r_tol] is never reached. *)
Lemma kriging_rss_run locus r_tol s eigvens (w : world F) (ev : list F) vecs :
  let input_locus := intersect_sumstat_ld locus in
  let n := sample_size input_locus in
  let z := stabilise n (nan_to_zero (raw_z input_locus)) in
  spectrum_of w eigvens input_locus ev vecs ->
  kriging_rss locus r_tol s eigvens w
  = match s with
    | Some s0 =>
        if (n <=? 1)%Z
        then (Raise n_error, store_with w eigvens (clamp r_tol ev) vecs)
        else kriging_table input_locus z s0 (rev (clamp r_tol ev)) (map (@rev F) vecs)
                           (store_with w eigvens (clamp r_tol ev) vecs)
    | None =>
        let ev1 := clamp default_r_tol ev in
        if (n <=? 1)%Z
        then (Raise n_error, store_with w eigvens ev1 vecs)
        else kriging_table input_locus z (null_mle z ev1 vecs)
                           (rev (clamp r_tol ev1)) (map (@rev F) vecs)
                           (store_with w eigvens (clamp r_tol ev1) vecs)
    end.
Proof.
  intros input_locus n z Hs.
  destruct (eigen_or_compute_run _ _ _ _ _ Hs) as (d & Hrun & Hd & Hst).
  unfold kriging_rss. fold input_locus. fold n.
  unfold bind at 1. rewrite Hrun.
  destruct s as [s0|].
  - unfold bind at 1. unfold ret at 1. unfold bind at 1.
    rewrite (clamp_in_place_run _ d true r_tol ev vecs (proj1 (Hd ev))), Hst.
    destruct (n <=? 1)%Z; [reflexivity|].
    destruct (Hd (clamp r_tol ev)) as [Hv Hm].
    destruct (read_views _ d true _ _ Hv Hm) as [R1 R2].
    unfold bind. rewrite R1, R2. reflexivity.
  - unfold bind at 1.
    assert (Hs' : spectrum_of (store_with w eigvens ev vecs) (Some d)
                              input_locus ev vecs) by exact (Hd ev).
    rewrite (estimate_s_rss_run locus default_r_tol "null-mle" (Some d) _ ev vecs Hs').
    fold input_locus. fold n. rewrite Hst.
    destruct (n <=? 1)%Z eqn:En; [reflexivity|].
    cbn [estimate_by String.eqb Ascii.eqb Bool.eqb].
    cbv zeta. unfold bind at 1.
    rewrite (clamp_in_place_run _ d true r_tol _ vecs
                                (proj1 (Hd (clamp default_r_tol ev)))), Hst.
    destruct (Hd (clamp r_tol (clamp default_r_tol ev))) as [Hv Hm].
    destruct (read_views _ d true _ _ Hv Hm) as [R1 R2].
    unfold bind. rewrite R1, R2. reflexivity.
Qed.
End Runs.

(* ===================================================================== *)
(** * The sample-size check *)
(* ===================================================================== *)

Section SampleSize.
Context {F : Type} `{Scalar F} `{Libm F} `{Externals F}.

(** C7. A locus whose sample size is at most 1 makes both [estimate_s_rss]
    and [kriging_rss] raise [ValueError("n must be greater than 1")]; no
    value is returned. The sample size is the one of the aligned copy the
    functions read it from; the eigen-spectrum is the caller's pair of arrays
    or is computed by the call. *)
Theorem small_sample_raises locus r_tol method s eigvens (w : world F) ev vecs :
  (sample_size (intersect_sumstat_ld locus) <= 1)%Z ->
  spectrum_of w eigvens (intersect_sumstat_ld locus) ev vecs ->
  fst (estimate_s_rss locus r_tol method eigvens w) = Raise n_error
  /\ fst (kriging_rss locus r_tol s eigvens w) = Raise n_error.
Proof.
  intros Hn Hs. apply Z.leb_le in Hn. split.
  - rewrite (estimate_s_rss_run locus r_tol method eigvens w ev vecs Hs).
    cbn. now rewrite Hn.
  - rewrite (kriging_rss_run locus r_tol s eigvens w ev vecs Hs).
    cbv zeta. destruct s; now rewrite Hn.
Qed.
End SampleSize.

(** The check at sample size 1, on the cached spectrum of two variants. *)
Lemma small_sample_raises_witness :
  fst (estimate_s_rss (Examples.pair_locus 0.7%float 1) default_r_tol "null-mle"
                      (Some Examples.cached) Examples.pair_world) = Raise n_error
  /\ fst (kriging_rss (Examples.pair_locus 0.7%float 1) default_r_tol None
                      (Some Examples.cached) Examples.pair_world) = Raise n_error.
Proof.
  apply (small_sample_raises (Examples.pair_locus 0.7%float 1) default_r_tol "null-mle"
           None (Some Examples.cached) Examples.pair_world
           [1e-5; 1.99999]%float
           [[- Examples.inv_sqrt2; Examples.inv_sqrt2];
            [Examples.inv_sqrt2; Examples.inv_sqrt2]]%float).
  - cbn. lia.
  - split; reflexivity.
Defined.

(* ===================================================================== *)
(** * "null-partialmle" *)
(* ===================================================================== *)

Section PartialMle.
Context {F : Type} `{Scalar F} `{Libm F} `{Externals F}.
Local Open Scope np_scope.

Lemma estimate_by_partialmle (z ev : list F) vecs :
  estimate_by "null-partialmle" z ev vecs = Ok (partial_mle z ev vecs).
Proof. reflexivity. Qed.

(** Every eigenvalue positive: the column space is everything. *)
Lemma colspace_full (ev : list F) :
  Forall (fun x => (f0 <? x) = true) ev -> colspace ev = seq 0 (length ev).
Proof.
  intros Hall. unfold colspace. apply forallb_filter_id.
  apply forallb_forall. intros i Hi. apply in_seq in Hi.
  rewrite Forall_forall in Hall. apply Hall.
  apply list_elem_of_In, nth_In. lia.
Qed.

(** No eigenvalue positive: the column space is empty. *)
Lemma colspace_empty (ev : list F) :
  Forall (fun x => (f0 <? x) = false) ev -> colspace ev = [].
Proof.
  intros Hall. unfold colspace.
  rewrite (filter_ext_in _ (fun _ => false)).
  - induction (seq 0 (length ev)); cbn; auto.
  - intros i Hi. apply in_seq in Hi.
    rewrite Forall_forall in Hall. apply Hall.
    apply list_elem_of_In, nth_In. lia.
Qed.

Lemma null_columns_all (ev : list F) vecs p :
  colspace ev = [] -> ncols vecs = p -> null_columns ev vecs p = transpose vecs.
Proof.
  intros Hc Hp. unfold null_columns, transpose. rewrite Hc, Hp. cbn.
  now rewrite filter_true.
Qed.

Lemma transpose_length (m : list (list F)) : length (transpose m) = ncols m.
Proof. unfold transpose. now rewrite length_map, length_seq. Qed.

Lemma matvec_length (m : list (list F)) v : length (matvec m v) = length m.
Proof. unfold matvec. now rewrite length_map. Qed.

(** C3, as the code has it. For a locus of sample size above 1 whose LD
    matrix is full rank after clamping (every eigenvalue is greater than zero
    once the entries below [r_tol] are set to zero, one eigenvalue per
    variant), [estimate_s_rss] with "null-partialmle" returns exactly 0. *)
Theorem partialmle_full_rank locus r_tol eigvens (w : world F) ev vecs :
  (1 < sample_size (intersect_sumstat_ld locus))%Z ->
  spectrum_of w eigvens (intersect_sumstat_ld locus) ev vecs ->
  length ev = length (raw_z (intersect_sumstat_ld locus)) ->
  Forall (fun x => (f0 <? x) = true) (clamp r_tol ev) ->
  fst (estimate_s_rss locus r_tol "null-partialmle" eigvens w) = Ok f0.
Proof.
  intros Hn Hs Hlen Hall.
  rewrite (estimate_s_rss_run locus r_tol _ eigvens w ev vecs Hs). cbn [fst].
  destruct (Z.leb_spec (sample_size (intersect_sumstat_ld locus)) 1); [lia|].
  rewrite estimate_by_partialmle. unfold partial_mle.
  rewrite (colspace_full _ Hall), length_seq, clamp_length, Hlen.
  now rewrite stabilise_length, nan_to_zero_length, Nat.eqb_refl.
Qed.

(** C4, as the code has it. When every eigenvalue clamps to zero, for a
    non-empty locus of sample size above 1 and a spectrum of the size of the
    locus ([p] eigenvalues and [p] by [p] eigenvectors for [p] variants),
    [estimate_s_rss] with "null-partialmle" does not raise: it returns the
    mean of the squares of [eigvecs.T @ z], the projections of the
    transformed z-scores on all the eigenvectors. *)
Theorem partialmle_degenerate locus r_tol eigvens (w : world F) ev vecs :
  let input_locus := intersect_sumstat_ld locus in
  let z := stabilise (sample_size input_locus) (nan_to_zero (raw_z input_locus)) in
  (1 < sample_size input_locus)%Z ->
  spectrum_of w eigvens input_locus ev vecs ->
  raw_z input_locus <> [] ->
  spectrum_shape (length (raw_z input_locus)) ev vecs ->
  Forall (fun x => (f0 <? x) = false) (clamp r_tol ev) ->
  fst (estimate_s_rss locus r_tol "null-partialmle" eigvens w)
  = Ok (np_sum (map (fun x => x * x) (matvec (transpose vecs) z))
        / of_Z (Z.of_nat (length z))).
Proof.
  intros input_locus z Hn Hs Hne Hshape Hall.
  assert (Hcols : ncols vecs = length (raw_z input_locus)).
  { destruct Hshape as (_ & Hrows & Hrow).
    destruct vecs as [|row rest].
    - destruct (raw_z input_locus); [contradiction|discriminate].
    - cbn. now inversion Hrow. }
  rewrite (estimate_s_rss_run locus r_tol _ eigvens w ev vecs Hs). cbn [fst].
  fold input_locus.
  destruct (Z.leb_spec (sample_size input_locus) 1); [lia|].
  rewrite estimate_by_partialmle. fold z. unfold partial_mle.
  assert (Hz : length z = length (raw_z input_locus))
    by (unfold z; now rewrite stabilise_length, nan_to_zero_length).
  rewrite (colspace_empty _ Hall). cbn [length].
  destruct (0 =? length z)%nat eqn:E.
  - apply Nat.eqb_eq in E. rewrite Hz in E.
    destruct (raw_z input_locus); [contradiction|discriminate].
  - rewrite null_columns_all by (rewrite ?Hz; auto using colspace_empty).
    now rewrite matvec_length, transpose_length, Hcols, Hz.
Qed.
End PartialMle.

(** Five independent variants: the spectrum is full rank. *)
Lemma partialmle_full_rank_witness :
  fst (estimate_s_rss (Examples.five_variants 1000) default_r_tol "null-partialmle"
                      (Some Examples.cached) Examples.identity5_world) = Ok f0.
Proof.
  apply (partialmle_full_rank (Examples.five_variants 1000) default_r_tol
           (Some Examples.cached) Examples.identity5_world
           [1; 1; 1; 1; 1]%float Examples.identity5).
  - cbn. lia.
  - split; reflexivity.
  - reflexivity.
  - vm_compute; repeat constructor.
Defined.

(** C3, as claimed, fails: the spectrum of the five independent variants is
    full rank, one eigenvalue per variant, and at sample size 1 the call
    raises at the sample-size check instead of returning 0. *)
Lemma partialmle_full_rank_small_sample :
  heap Examples.identity5_world !! eigvals Examples.cached
  = Some (Arr1 [1; 1; 1; 1; 1]%float)
  /\ Forall (fun x => fltb f0 x = true) (clamp default_r_tol [1; 1; 1; 1; 1]%float)
  /\ length [1; 1; 1; 1; 1]%float
     = length (raw_z (intersect_sumstat_ld (Examples.five_variants 1)))
  /\ fst (estimate_s_rss (Examples.five_variants 1) default_r_tol "null-partialmle"
                         (Some Examples.cached) Examples.identity5_world)
     = Raise n_error
  /\ fst (estimate_s_rss (Examples.five_variants 1) default_r_tol "null-partialmle"
                         (Some Examples.cached) Examples.identity5_world)
     <> Ok f0.
Proof.
  split; [reflexivity|].
  split; [vm_compute; repeat constructor|].
  split; [reflexivity|].
  assert (Hr : fst (estimate_s_rss (Examples.five_variants 1) default_r_tol
                      "null-partialmle" (Some Examples.cached) Examples.identity5_world)
               = Raise n_error) by (vm_compute; reflexivity).
  split; [exact Hr|]. rewrite Hr. discriminate.
Qed.

(** A spectrum that clamps to zero: the estimate is the mean square of the
    transformed z-scores. *)
Lemma partialmle_degenerate_witness :
  fst (estimate_s_rss Examples.null_locus default_r_tol "null-partialmle"
                      (Some Examples.cached) Examples.null_world)
  = Ok (np_sum
          (map (fun x => fmul x x)
               (matvec (transpose [[1; 0]; [0; 1]]%float)
                       (stabilise (sample_size (intersect_sumstat_ld Examples.null_locus))
                          (nan_to_zero (raw_z (intersect_sumstat_ld Examples.null_locus))))))
        / of_Z (Z.of_nat
                  (length
                     (stabilise (sample_size (intersect_sumstat_ld Examples.null_locus))
                        (nan_to_zero (raw_z (intersect_sumstat_ld Examples.null_locus)))))))%np.
Proof.
  apply (partialmle_degenerate Examples.null_locus default_r_tol
           (Some Examples.cached) Examples.null_world
           [0; 0]%float [[1; 0]; [0; 1]]%float).
  - cbn. lia.
  - split; reflexivity.
  - discriminate.
  - repeat split. repeat constructor.
  - vm_compute; repeat constructor.
Defined.

(** C4, as claimed, fails: on a spectrum that clamps to zero the call returns
    the mean of the squared z-scores, 2.494..., not 0. *)
Lemma partialmle_degenerate_not_zero :
  exists s : float,
    fst (estimate_s_rss Examples.null_locus default_r_tol "null-partialmle"
                        (Some Examples.cached) Examples.null_world) = Ok s
    /\ PrimFloat.ltb 2 s = true
    /\ s <> f0.
Proof.
  exists 2.4940119760479043%float. split; [|split].
  - vm_compute. reflexivity.
  - vm_compute. reflexivity.
  - intros Heq. apply (f_equal (PrimFloat.ltb 2)) in Heq. vm_compute in Heq.
    discriminate.
Qed.


(* ===================================================================== *)
(** * The caller's eigenvalue array *)
(* ===================================================================== *)

Section InPlace.
Context {F : Type} `{Scalar F} `{Libm F} `{Externals F}.
Local Open Scope np_scope.

Lemma clamp_lookup r_tol (v : list F) i :
  clamp r_tol v !! i = (fun x => if x <? r_tol then f0 else x) <$> v !! i.
Proof. unfold clamp. change (map ?f ?l) with (f <$> l). apply list_lookup_fmap. Qed.

End InPlace.



(* ===================================================================== *)
(** * Calling [kriging_rss] twice *)
(* ===================================================================== *)

Section Twice.
Context {F : Type} `{Scalar F} `{Libm F} `{Externals F}.

(** Two calls of [kriging_rss] in a row with the same locus and the same
    cached dictionary return the same conditional means and the same
    conditional variances when [s] is given: the clamp of the first call
    changes nothing for the second. Without [s] they do when [r_tol] is the
    tolerance 1e-8 of the nested [estimate_s_rss], the value at which the
    missing argument of line 256 makes no difference. *)
Theorem kriging_twice locus r_tol s d (w w1 w2 : world F) ev vecs df1 df2 :
  heap w !! eigvals d = Some (Arr1 ev) ->
  heap w !! eigvecs d = Some (Arr2 vecs) ->
  s <> None \/ r_tol = default_r_tol ->
  kriging_rss locus r_tol s (Some d) w = (Ok df1, w1) ->
  kriging_rss locus r_tol s (Some d) w1 = (Ok df2, w2) ->
  (exists cm, df_floats "condmean" df1 = Some cm /\ df_floats "condmean" df2 = Some cm)
  /\ (exists cv, df_floats "condvar" df1 = Some cv /\ df_floats "condvar" df2 = Some cv).
Proof.
  intros Hv Hm Hcase R1 R2.
  assert (Hs : spectrum_of w (Some d) (intersect_sumstat_ld locus) ev vecs)
    by (split; assumption).
  rewrite (kriging_rss_run locus r_tol s (Some d) w ev vecs Hs) in R1.
  cbv zeta in R1.
  (* the spectrum the first call leaves behind *)
  set (ev1 := match s with
              | Some _ => clamp r_tol ev
              | None => clamp r_tol (clamp default_r_tol ev)
              end).
  assert (Hn : (sample_size (intersect_sumstat_ld locus) <=? 1)%Z = false).
  { destruct (_ <=? 1)%Z; [|reflexivity]. destruct s; discriminate. }
  rewrite Hn in R1.
  assert (Hh1 : heap w1 = heap (store_with w (Some d) ev1 vecs)).
  { destruct s; subst ev1;
      match type of R1 with
      | kriging_table ?a ?b ?c ?e ?f ?g = _ =>
          pose proof (proj1 (kriging_table_frame a b c e f g)) as Hf;
          rewrite R1 in Hf; exact Hf
      end. }
  assert (Hs1 : spectrum_of w1 (Some d) (intersect_sumstat_ld locus) ev1 vecs).
  { cbn. rewrite Hh1. cbn. split.
    - apply list_lookup_insert_eq. eapply lookup_lt_Some; eassumption.
    - rewrite list_lookup_insert_ne; [assumption|].
      intros Heq. rewrite Heq in Hv. congruence. }
  rewrite (kriging_rss_run locus r_tol s (Some d) w1 ev1 vecs Hs1) in R2.
  cbv zeta in R2. rewrite Hn in R2.
  destruct s as [s0|]; subst ev1.
  - rewrite clamp_idem in R2.
    apply kriging_table_ok in R1. apply kriging_table_ok in R2.
    cbv zeta in R1, R2.
    destruct R1 as (_ & C1 & V1 & _). destruct R2 as (_ & C2 & V2 & _).
    split; eexists; split; eassumption.
  - destruct Hcase as [Hcase | ->]; [congruence|].
    apply kriging_table_ok in R1. apply kriging_table_ok in R2.
    cbv zeta in R1, R2.
    destruct R1 as (_ & C1 & V1 & _). destruct R2 as (_ & C2 & V2 & _).
    repeat rewrite clamp_idem in C1. repeat rewrite clamp_idem in V1.
    repeat rewrite clamp_idem in C2. repeat rewrite clamp_idem in V2.
    split; eexists; split; eassumption.
Qed.
End Twice.

(** Two calls with [s] given, at [r_tol] = 1e-3. *)
Lemma kriging_twice_witness :
  (exists cm,
      df_floats "condmean" (Examples.table_of (Examples.first_call 0.001 (Some 0.5)))%float
      = Some cm
      /\ df_floats "condmean" (Examples.table_of (Examples.second_call 0.001 (Some 0.5)))%float
         = Some cm)
  /\ (exists cv,
         df_floats "condvar" (Examples.table_of (Examples.first_call 0.001 (Some 0.5)))%float
         = Some cv
         /\ df_floats "condvar" (Examples.table_of (Examples.second_call 0.001 (Some 0.5)))%float
            = Some cv).
Proof.
  apply (kriging_twice (Examples.pair_locus 0.7%float 1000) 0.001%float (Some 0.5%float)
           Examples.cached Examples.pair_world
           (snd (Examples.first_call 0.001 (Some 0.5))%float)
           (snd (Examples.second_call 0.001 (Some 0.5))%float)
           [1e-5; 1.99999]%float
           [[- Examples.inv_sqrt2; Examples.inv_sqrt2];
            [Examples.inv_sqrt2; Examples.inv_sqrt2]]%float).
  - reflexivity.
  - reflexivity.
  - left. discriminate.
  - vm_compute. reflexivity.
  - vm_compute. reflexivity.
Defined.

(** C8 on the code. Line 256 calls [estimate_s_rss] without the [r_tol]
    that [kriging_rss] was given (line 260 clamps at it, and [locus_qc]
    passes one tolerance to both functions, lines 781-782), so [s] is
    estimated at the default 1e-8. On two variants in LD 0.99999 with their
    spectrum cached, without [s], at [r_tol] = 1e-3: the first call estimates
    [s] from the spectrum clamped at 1e-8 (the eigenvalue 1e-5 is kept) and
    then clamps the caller's array at 1e-3; the second call estimates [s]
    from that array, in which the eigenvalue is 0. Both calls return, and
    their conditional means and variances differ where the claim has them
    bit-identical. *)
Lemma kriging_twice_differs :
  exists cm1 cm2 cv1 cv2 : list float,
    fst (Examples.first_call 0.001 None)%float
    = Ok (Examples.table_of (Examples.first_call 0.001 None))%float
    /\ fst (Examples.second_call 0.001 None)%float
       = Ok (Examples.table_of (Examples.second_call 0.001 None))%float
    /\ df_floats "condmean" (Examples.table_of (Examples.first_call 0.001 None))%float
       = Some cm1
    /\ df_floats "condmean" (Examples.table_of (Examples.second_call 0.001 None))%float
       = Some cm2
    /\ df_floats "condvar" (Examples.table_of (Examples.first_call 0.001 None))%float
       = Some cv1
    /\ df_floats "condvar" (Examples.table_of (Examples.second_call 0.001 None))%float
       = Some cv2
    /\ cm1 <> cm2 /\ cv1 <> cv2.
Proof.
  exists [0.71431034315380337; 0.70011518952398766]%float,
         [0.71430320001334069; 0.70010818833579724]%float,
         [0.00018153762782302949; 0.00018153762782302949]%float,
         [0.00020153390077182898; 0.00020153390077182898]%float.
  do 6 (split; [vm_compute; reflexivity|]).
  split.
  - intros Heq.
    apply (f_equal (fun l => match l with
                             | x :: _ => PrimFloat.ltb 0.714305 x
                             | [] => false
                             end)) in Heq.
    vm_compute in Heq. discriminate.
  - intros Heq.
    apply (f_equal (fun l => match l with
                             | x :: _ => PrimFloat.ltb 0.00019 x
                             | [] => false
                             end)) in Heq.
    vm_compute in Heq. discriminate.
Qed.

(* ===================================================================== *)
(** * Leave one out *)
(* ===================================================================== *)

Section LeaveOneOut.
Context {F : Type} `{Scalar F} `{Libm F} `{Externals F}.

(** The conditional mean at [i] reads [z] before and after [i] only. *)
Lemma condmean_at_agree (p : list (list F)) (z1 z2 : list F) i :
  agree_except i z1 z2 -> condmean_at p z1 i = condmean_at p z2 i.
Proof.
  intros Ha. unfold condmean_at.
  now rewrite (agree_except_take i z1 z2 Ha), (agree_except_drop i z1 z2 Ha).
Qed.

Lemma loo_condmean_lookup (p : list (list F)) (z : list F) i :
  loo_condmean p z !! i
  = if decide (i < length z)%nat then Some (condmean_at p z i) else None.
Proof.
  unfold loo_condmean. change (map ?f ?l) with (f <$> l).
  rewrite list_lookup_fmap. destruct (decide (i < length z)%nat).
  - now rewrite lookup_seq_lt.
  - now rewrite lookup_seq_ge by lia.
Qed.

Lemma loo_condvar_length_only (p : list (list F)) (z1 z2 : list F) :
  length z1 = length z2 -> loo_condvar p z1 = loo_condvar p z2.
Proof. intros Hl. unfold loo_condvar. now rewrite Hl. Qed.

(** C1. With [s] and the eigen-spectrum given, two runs of [kriging_rss]
    whose loci have the same sample size and the same beta/se ratios except
    at variant [i] return the same conditional mean at [i], and the same
    conditional variances: [condmean[i]] does not depend on [z[i]]. *)
Theorem condmean_leave_one_out l1 l2 r_tol s d (w w1 w2 : world F) ev vecs df1 df2 i :
  heap w !! eigvals d = Some (Arr1 ev) ->
  heap w !! eigvecs d = Some (Arr2 vecs) ->
  sample_size (intersect_sumstat_ld l1) = sample_size (intersect_sumstat_ld l2) ->
  agree_except i (raw_z (intersect_sumstat_ld l1)) (raw_z (intersect_sumstat_ld l2)) ->
  kriging_rss l1 r_tol (Some s) (Some d) w = (Ok df1, w1) ->
  kriging_rss l2 r_tol (Some s) (Some d) w = (Ok df2, w2) ->
  exists cm1 cm2 cv,
    df_floats "condmean" df1 = Some cm1
    /\ df_floats "condmean" df2 = Some cm2
    /\ cm1 !! i = cm2 !! i
    /\ df_floats "condvar" df1 = Some cv
    /\ df_floats "condvar" df2 = Some cv.
Proof.
  intros Hv Hm Hn Ha R1 R2.
  rewrite (kriging_rss_run l1 r_tol (Some s) (Some d) w ev vecs (conj Hv Hm)) in R1.
  rewrite (kriging_rss_run l2 r_tol (Some s) (Some d) w ev vecs (conj Hv Hm)) in R2.
  cbv zeta in R1, R2. rewrite <- Hn in R2.
  destruct (_ <=? 1)%Z; [discriminate|].
  apply kriging_table_ok in R1. apply kriging_table_ok in R2.
  cbv zeta in R1, R2.
  destruct R1 as (_ & C1 & V1 & _). destruct R2 as (_ & C2 & V2 & _).
  set (n := sample_size (intersect_sumstat_ld l1)) in *.
  assert (Hz : agree_except i
                 (stabilise n (nan_to_zero (raw_z (intersect_sumstat_ld l1))))
                 (stabilise n (nan_to_zero (raw_z (intersect_sumstat_ld l2))))).
  { unfold stabilise, nan_to_zero. now do 2 apply agree_except_map. }
  eexists _, _, _. split; [exact C1|]. split; [exact C2|]. split.
  - rewrite !loo_condmean_lookup. rewrite <- (proj1 Hz).
    destruct (decide _); [|reflexivity].
    f_equal. now apply condmean_at_agree.
  - split; [exact V1|]. rewrite V2. f_equal.
    apply loo_condvar_length_only. symmetry. apply Hz.
Qed.
End LeaveOneOut.

(** The first beta of the pair changed from 0.7 to 0.9: the conditional mean
    of the first variant is the same. *)
Lemma condmean_leave_one_out_witness :
  exists cm1 cm2 cv,
    df_floats "condmean"
      (Examples.table_of (kriging_rss (Examples.pair_locus 0.7%float 1000) 0.001%float
                            (Some 0.5%float) (Some Examples.cached) Examples.pair_world))
    = Some cm1
    /\ df_floats "condmean"
         (Examples.table_of (kriging_rss (Examples.pair_locus 0.9%float 1000) 0.001%float
                               (Some 0.5%float) (Some Examples.cached) Examples.pair_world))
       = Some cm2
    /\ cm1 !! 0%nat = cm2 !! 0%nat
    /\ df_floats "condvar"
         (Examples.table_of (kriging_rss (Examples.pair_locus 0.7%float 1000) 0.001%float
                               (Some 0.5%float) (Some Examples.cached) Examples.pair_world))
       = Some cv
    /\ df_floats "condvar"
         (Examples.table_of (kriging_rss (Examples.pair_locus 0.9%float 1000) 0.001%float
                               (Some 0.5%float) (Some Examples.cached) Examples.pair_world))
       = Some cv.
Proof.
  apply (condmean_leave_one_out
           (Examples.pair_locus 0.7%float 1000) (Examples.pair_locus 0.9%float 1000)
           0.001%float 0.5%float Examples.cached Examples.pair_world
           (snd (kriging_rss (Examples.pair_locus 0.7%float 1000) 0.001%float
                   (Some 0.5%float) (Some Examples.cached) Examples.pair_world))
           (snd (kriging_rss (Examples.pair_locus 0.9%float 1000) 0.001%float
                   (Some 0.5%float) (Some Examples.cached) Examples.pair_world))
           [1e-5; 1.99999]%float
           [[- Examples.inv_sqrt2; Examples.inv_sqrt2];
            [Examples.inv_sqrt2; Examples.inv_sqrt2]]%float).
  - reflexivity.
  - reflexivity.
  - reflexivity.
  - split; [reflexivity|]. intros [|[|j]] Hj; [contradiction|reflexivity|reflexivity].
  - vm_compute. reflexivity.
  - vm_compute. reflexivity.
Defined.

(** The same perturbation moves the conditional mean of the other variant. *)
Example condmean_of_the_other_variant_moves :
  exists cm1 cm2 : list float,
    df_floats "condmean"
      (Examples.table_of (kriging_rss (Examples.pair_locus 0.7%float 1000) 0.001%float
                            (Some 0.5%float) (Some Examples.cached) Examples.pair_world))
    = Some cm1
    /\ df_floats "condmean"
         (Examples.table_of (kriging_rss (Examples.pair_locus 0.9%float 1000) 0.001%float
                               (Some 0.5%float) (Some Examples.cached) Examples.pair_world))
       = Some cm2
    /\ cm1 !! 0%nat = cm2 !! 0%nat
    /\ cm1 !! 1%nat = Some 0.35008849833478001%float
    /\ cm2 !! 1%nat = Some 0.45004167378802751%float.
Proof.
  eexists _, _.
  split; [vm_compute; reflexivity|].
  split; [vm_compute; reflexivity|].
  split; [reflexivity|]. split; reflexivity.
Qed.

(* ===================================================================== *)
(** * The keys of the result of [locus_qc] *)
(* ===================================================================== *)

Section Keys.
Context {F : Type} `{Scalar F} `{Libm F} `{Externals F}.

Lemma qc_loop_lengths r_tol method ls (w : world F) ez ds cm :
  fst (qc_loop r_tol method ls w) = Ok (ez, ds, cm) ->
  length ez = length ls /\ length ds = length ls /\ length cm = length ls.
Proof.
  revert w ez ds cm. induction ls as [|l ls IH]; intros w ez ds cm; cbn [qc_loop].
  - unfold ret. cbn. now intros [= <- <- <-].
  - unfold bind at 1. destruct (qc_one r_tol method l w) as [[t|e] w1]; [|discriminate].
    unfold bind at 1. specialize (IH w1).
    destruct (qc_loop r_tol method ls w1) as [[[[ez' ds'] cm']|e] w2]; [|discriminate].
    unfold ret. cbn. intros [= <- <- <-].
    destruct (IH _ _ _ eq_refl) as (L1 & L2 & L3). cbn. now rewrite L1, L2, L3.
Qed.

(** C9. The dictionary [locus_qc] returns holds, in this order, the tables
    'expected_z', 'dentist_s' and 'compare_maf', each the concatenation of
    the tables that the loop has computed, one per locus, then what
    [ld_4th_moment] and [ld_decay] return on the locus set; when the set has
    more than one locus, and only then, the tables that [cochran_q] and
    [snp_missingness] return follow under 'cochran_q' and
    'snp_missingness'. *)
Theorem locus_qc_keys locus_set r_tol method out_dir (w : world F) d :
  fst (locus_qc locus_set r_tol method out_dir w) = Ok d ->
  (has_key "cochran_q" d = true <-> (1 < length (loci locus_set))%nat)
  /\ (has_key "snp_missingness" d = true <-> (1 < length (loci locus_set))%nat)
  /\ exists ez ds cm m4 dk,
       fst (qc_loop r_tol method (loci locus_set) w) = Ok (ez, ds, cm)
       /\ length ez = length (loci locus_set)
       /\ length ds = length (loci locus_set)
       /\ length cm = length (loci locus_set)
       /\ ld_4th_moment locus_set = Ok m4
       /\ ld_decay locus_set = Ok dk
       /\ if (1 <? length (loci locus_set))%nat
          then exists cq sm,
                 cochran_q locus_set = Ok cq
                 /\ snp_missingness locus_set = Ok sm
                 /\ d = [("expected_z", concat_rows ez); ("dentist_s", concat_rows ds);
                         ("compare_maf", concat_rows cm); ("ld_4th_moment", m4);
                         ("ld_decay", dk); ("cochran_q", cq); ("snp_missingness", sm)]
          else d = [("expected_z", concat_rows ez); ("dentist_s", concat_rows ds);
                    ("compare_maf", concat_rows cm); ("ld_4th_moment", m4);
                    ("ld_decay", dk)].
Proof.
  unfold locus_qc, bind, lift, ret, raise, pd_concat, write_tables.
  pose proof (qc_loop_lengths r_tol method (loci locus_set) w) as Hlen.
  remember (1 <? length (loci locus_set))%nat as many eqn:Elen. symmetry in Elen.
  destruct (qc_loop r_tol method (loci locus_set) w) as [[[[ez ds] cm]|e] w']; cbn;
    [|discriminate].
  destruct (Hlen _ _ _ eq_refl) as (L1 & L2 & L3). clear Hlen.
  destruct ez as [|e1 ez]; cbn; [discriminate|].
  destruct ds as [|d1 ds]; cbn; [discriminate|].
  destruct cm as [|c1 cm]; cbn; [discriminate|].
  destruct (ld_4th_moment locus_set) as [m4|]; cbn; [|discriminate].
  destruct (ld_decay locus_set) as [dk|]; cbn; [|discriminate].
  destruct many.
  - apply Nat.ltb_lt in Elen.
    destruct (cochran_q locus_set) as [cq|]; cbn; [|discriminate].
    destruct (snp_missingness locus_set) as [sm|]; cbn; [|discriminate].
    destruct out_dir; cbn; intros [= <-]; (split; [now split|]); (split; [now split|]);
      exists (e1 :: ez), (d1 :: ds), (c1 :: cm), m4, dk;
      repeat (split; [reflexivity || assumption|]); now exists cq, sm.
  - apply Nat.ltb_ge in Elen.
    destruct out_dir; cbn; intros [= <-];
      (split; [split; [discriminate|lia]|]); (split; [split; [discriminate|lia]|]);
      exists (e1 :: ez), (d1 :: ds), (c1 :: cm), m4, dk;
      repeat (split; [reflexivity || assumption|]); reflexivity.
Qed.
End Keys.

(** Two cohorts of the five independent variants. *)
Lemma locus_qc_keys_witness :
  (has_key "cochran_q" Scenarios.qc_two_out = true
   <-> (1 < length (loci Scenarios.two_cohort_set))%nat)
  /\ (has_key "snp_missingness" Scenarios.qc_two_out = true
      <-> (1 < length (loci Scenarios.two_cohort_set))%nat)
  /\ exists ez ds cm m4 dk,
       fst (qc_loop (H1:=Scenarios.tabular) qc_default_r_tol "null-mle"
                    (loci Scenarios.two_cohort_set) Examples.base_world)
       = Ok (ez, ds, cm)
       /\ length ez = length (loci Scenarios.two_cohort_set)
       /\ length ds = length (loci Scenarios.two_cohort_set)
       /\ length cm = length (loci Scenarios.two_cohort_set)
       /\ @ld_4th_moment float Scenarios.tabular Scenarios.two_cohort_set = Ok m4
       /\ @ld_decay float Scenarios.tabular Scenarios.two_cohort_set = Ok dk
       /\ if (1 <? length (loci Scenarios.two_cohort_set))%nat
          then exists cq sm,
                 @cochran_q float Scenarios.tabular Scenarios.two_cohort_set = Ok cq
                 /\ @snp_missingness float Scenarios.tabular Scenarios.two_cohort_set
                    = Ok sm
                 /\ Scenarios.qc_two_out
                    = [("expected_z", @concat_rows float Scenarios.tabular ez);
                       ("dentist_s", @concat_rows float Scenarios.tabular ds);
                       ("compare_maf", @concat_rows float Scenarios.tabular cm);
                       ("ld_4th_moment", m4);
                       ("ld_decay", dk); ("cochran_q", cq); ("snp_missingness", sm)]
          else Scenarios.qc_two_out
               = [("expected_z", @concat_rows float Scenarios.tabular ez);
                  ("dentist_s", @concat_rows float Scenarios.tabular ds);
                  ("compare_maf", @concat_rows float Scenarios.tabular cm);
                  ("ld_4th_moment", m4);
                  ("ld_decay", dk)].
Proof.
  apply (locus_qc_keys (H1:=Scenarios.tabular) Scenarios.two_cohort_set qc_default_r_tol
           "null-mle" None Examples.base_world Scenarios.qc_two_out).
  vm_compute. reflexivity.
Defined.

(** The seven tables of that run and their numbers of rows: ten for the
    tables concatenated over the two cohorts, five variants in the
    heterogeneity and missingness tables. *)
Example locus_qc_of_two_cohorts :
  map (fun kv => (fst kv, df_rows (snd kv))) Scenarios.qc_two_out
  = [("expected_z", 10%nat); ("dentist_s", 10%nat); ("compare_maf", 0%nat);
     ("ld_4th_moment", 0%nat); ("ld_decay", 0%nat); ("cochran_q", 5%nat);
     ("snp_missingness", 5%nat)].
Proof. vm_compute. reflexivity. Qed.

(** Two cohorts: the heterogeneity and missingness tables are there. *)
Example locus_qc_keys_of_two :
  map fst (or_else (fst Examples.qc_of_two) [])
  = ["expected_z"; "dentist_s"; "compare_maf"; "ld_4th_moment"; "ld_decay";
     "cochran_q"; "snp_missingness"].
Proof. vm_compute. reflexivity. Qed.

(** One cohort: they are not. *)
Example locus_qc_keys_of_one :
  map fst (or_else (fst Examples.qc_of_one) [])
  = ["expected_z"; "dentist_s"; "compare_maf"; "ld_4th_moment"; "ld_decay"].
Proof. vm_compute. reflexivity. Qed.

(* ===================================================================== *)
(** * The grid of scale multipliers *)
(* ===================================================================== *)

Section Grid.
Context {F : Type} `{Scalar F} `{Libm F}.
Local Open Scope np_scope.

Lemma arange_length a b : length (arange a b) = Z.to_nat (b - a).
Proof. unfold arange. now rewrite length_map, length_seq. Qed.

Lemma np_max_ok_nonempty (l : list F) m : np_max l = Ok m -> l <> [].
Proof. destruct l; [discriminate|discriminate]. Qed.

(** At line 285, [len(z)] is also the number of standardized differences. *)
Lemma standardise_length (p : list (list F)) (z : list F) :
  length (standardise z (loo_condmean p z) (loo_condvar p z)) = length z.
Proof.
  unfold standardise, loo_condmean, loo_condvar.
  rewrite !length_zip_with, !length_map, length_seq. lia.
Qed.

(** C5, as the code has it. The grid is [1.05**k * a_max] for
    [k = -npoint, ..., 0], where [a_max] is 2, or 2*sqrt(m) when the largest
    squared standardized difference [m] is not below 1, and
    [npoint = min(ceil(log2(a_max / 0.8) / log2(1.05)), p - 1)] for [p]
    variants: the step ratio is 1.05, 0.8 enters through the number of steps
    only, and the grid has [npoint + 1] points, at most [p]. *)
Theorem a_grid_shape (z_std_diff : list F) p grid :
  a_grid z_std_diff p = Ok grid ->
  p = length z_std_diff ->
  exists m a_max n0 npoint,
    np_max (map (fun x => x * x) z_std_diff) = Ok m
    /\ a_max = (if m <? f1 then f2 else f2 * fsqrt m)
    /\ int_ceil (np_log2 (a_max / dec 8 1) / np_log2 (dec 105 2)) = Ok n0
    /\ npoint = Z.min n0 (Z.of_nat p - 1)
    /\ grid = map (fun k => np_power (dec 105 2) (of_Z k) * a_max) (arange (- npoint) 1)
    /\ length grid = Z.to_nat (npoint + 1)
    /\ (length grid <= p)%nat.
Proof.
  unfold a_grid, grid_a_max, grid_npoint, grid_of, a_min. intros Hg Hp.
  destruct (np_max _) as [m|e] eqn:Em; [|discriminate].
  destruct (int_ceil _) as [n0|e] eqn:En; [|discriminate].
  injection Hg as <-.
  exists m, (if m <? f1 then f2 else f2 * fsqrt m), n0, (Z.min n0 (Z.of_nat p - 1)).
  repeat split; try assumption.
  - rewrite length_map, arange_length. f_equal. lia.
  - rewrite length_map, arange_length.
    apply np_max_ok_nonempty in Em.
    assert (p <> 0%nat).
    { subst p. destruct z_std_diff; [now cbn in Em|discriminate]. }
    lia.
Qed.
End Grid.

(** The grid of the five independent variants. *)
Lemma a_grid_shape_witness :
  exists m a_max n0 npoint,
    np_max (map (fun x => fmul x x) (stabilise 1000 [2; 2; 2; 2; 2]%float)) = Ok m
    /\ a_max = (if fltb m f1 then f2 else fmul f2 (fsqrt m))
    /\ int_ceil (fdiv (np_log2 (fdiv a_max (dec 8 1))) (np_log2 (dec 105 2))) = Ok n0
    /\ npoint = Z.min n0 (Z.of_nat 5 - 1)
    /\ or_else Examples.five_grid []
       = map (fun k => fmul (np_power (dec 105 2) (of_Z k)) a_max) (arange (- npoint) 1)
    /\ length (or_else Examples.five_grid []) = Z.to_nat (npoint + 1)
    /\ (length (or_else Examples.five_grid []) <= 5)%nat.
Proof.
  apply (a_grid_shape (stabilise 1000 [2; 2; 2; 2; 2]%float) 5).
  - vm_compute. reflexivity.
  - reflexivity.
Defined.

(** C5, as claimed, fails: for the five independent variants of the
    specification's scenario the grid has five points, one more than
    (variant count - 1). *)
Lemma a_grid_exceeds_variant_count_minus_one :
  exists zsd grid : list float,
    df_floats "z_std_diff"
      (Examples.table_of (kriging_rss (Examples.five_variants 1000) default_r_tol
                            (Some 0.5%float) (Some Examples.cached)
                            Examples.identity5_world)) = Some zsd
    /\ a_grid zsd (length zsd) = Ok grid
    /\ length zsd = 5%nat
    /\ length grid = 5%nat
    /\ ~ (length grid <= length zsd - 1)%nat.
Proof.
  exists (stabilise 1000 [2; 2; 2; 2; 2]%float).
  exists [3.2858798441158195; 3.4501738363216106; 3.6226825281376911;
          3.8038166545445757; 3.9940074872718045]%float.
  split; [vm_compute; reflexivity|].
  split; [vm_compute; reflexivity|].
  split; [reflexivity|]. split; [reflexivity|].
  cbn. lia.
Qed.

(** With thirty variants and a_max = 2 the grid has 20 points, and the
    smallest multiplier, 2 / 1.05**19, is below 0.8. *)
Example grid_starts_below_0_8 :
  exists first rest,
    Examples.thirty_grid = Ok (first :: rest)
    /\ length (first :: rest) = 20%nat
    /\ PrimFloat.ltb first 0.8 = true
    /\ last rest = Some 2%float.
Proof.
  eexists _, _. split; [vm_compute; reflexivity|].
  split; [reflexivity|]. split; vm_compute; reflexivity.
Qed.

(* ===================================================================== *)
(** * Dentist-S under perfect LD *)
(* ===================================================================== *)

Section Binary64Facts.
Local Open Scope Z_scope.
Local Arguments Pos.mul : simpl nomatch.

Lemma shr_52_zeros (m : positive) :
  SpecFloat.iter_pos shr_1 52 (Build_shr_record (Zpos (4503599627370496 * m)) false false)
  = Build_shr_record (Zpos m) false false.
Proof. reflexivity. Qed.

Lemma digits_times_2_52 (m : positive) :
  Zpos (digits2_pos (4503599627370496 * m)) = Zpos (digits2_pos m) + 52.
Proof. cbn [Pos.mul digits2_pos]. rewrite !Pos2Z.inj_succ. lia. Qed.

Lemma SFmul_one_finite s m e :
  valid_binary (S754_finite s m e) = true ->
  SF64mul (Prim2SF 1) (S754_finite s m e) = S754_finite s m e.
Proof.
  intros Hv. cbn in Hv. unfold bounded, canonical_mantissa in Hv.
  apply andb_true_iff in Hv. destruct Hv as [Hc Hb].
  apply Z.eqb_eq in Hc.
  change (Prim2SF 1) with (S754_finite false 4503599627370496 (-52)).
  unfold SF64mul, SFmul, binary_round_aux.
  unfold shr_fexp at 1.
  unfold Zdigits2 at 1. rewrite digits_times_2_52.
  replace (Z.pos (digits2_pos m) + 52 + (-52 + e)) with (Z.pos (digits2_pos m) + e) by lia.
  rewrite Hc.
  replace (e - (-52 + e)) with 52 by lia.
  unfold shr. cbn [shr_record_of_loc]. rewrite shr_52_zeros.
  cbn [shr_m loc_of_shr_record round_nearest_even].
  unfold shr_fexp. unfold Zdigits2.
  replace (-52 + e + 52) with e by lia.
  rewrite Hc. rewrite Z.sub_diag. cbn [shr shr_record_of_loc shr_m].
  rewrite Hb. now destruct s.
Qed.

(** 1 * z is z, for every binary64 value. *)
Lemma mul_one_l (z : float) : PrimFloat.mul 1 z = z.
Proof.
  apply Prim2SF_inj. rewrite mul_spec.
  pose proof (Prim2SF_valid z) as Hv.
  destruct (Prim2SF z) as [s| s | | s m e] eqn:E.
  - now destruct s.
  - now destruct s.
  - reflexivity.
  - now apply SFmul_one_finite.
Qed.

(** z - z is +0, for every finite binary64 value. *)
Lemma sub_diag_finite (z : float) :
  PrimFloat.is_finite z = true -> PrimFloat.sub z z = 0%float.
Proof.
  intros Hf. apply Prim2SF_inj. rewrite sub_spec.
  change (Prim2SF 0) with (S754_zero false).
  destruct (Prim2SF z) as [s| s | | s m e] eqn:E.
  - now destruct s.
  - exfalso. unfold is_finite, is_infinity, is_nan in Hf.
    rewrite !FloatAxioms.eqb_spec, FloatAxioms.abs_spec, E in Hf. destruct s; vm_compute in Hf; discriminate.
  - exfalso. unfold is_finite, is_infinity, is_nan in Hf.
    rewrite !FloatAxioms.eqb_spec, E in Hf. vm_compute in Hf. discriminate.
  - unfold SF64sub, SFsub. rewrite Z.sub_diag. reflexivity.
Qed.

(** Lines 376-377 at r = 1 and equal z: 0/0. *)
Lemma dentist_t_perfect_ld (z : float) :
  PrimFloat.is_finite z = true -> dentist_t z 1%float z = PrimFloat.nan.
Proof.
  intros Hf. unfold dentist_t. cbn [fmul fsub fdiv fltb finf Scalar_float].
  rewrite mul_one_l, (sub_diag_finite z Hf). vm_compute. reflexivity.
Qed.
End Binary64Facts.

Section DentistPerfectLD.
Context `{Externals float}.

(** C6, as the code has it. In binary64, for a variant [j] other than the
    lead whose LD with the lead is 1 and whose z-score equals the lead's
    (finite) z-score, [t_dentist_s] is 0/0, that is NaN. *)
Theorem dentist_perfect_ld_nan locus df lead j (r : list float) (z : float) :
  compute_dentist_s locus = Ok df ->
  idxmin (P (intersect_sumstat_ld locus)) = Some lead ->
  j <> lead ->
  ld_r (intersect_sumstat_ld locus) !! lead = Some r ->
  r !! j = Some 1%float ->
  raw_z (intersect_sumstat_ld locus) !! j = Some z ->
  raw_z (intersect_sumstat_ld locus) !! lead = Some z ->
  PrimFloat.is_finite z = true ->
  exists t, df_floats "t_dentist_s" df = Some t /\ t !! j = Some PrimFloat.nan.
Proof.
  intros Hrun Hlead Hj Hr Hrj Hzj Hzl Hfin.
  unfold compute_dentist_s in Hrun. rewrite Hlead, Hzl, Hr in Hrun.
  destruct (negb _); [discriminate|].
  apply (f_equal (fun r => match r with Ok d => df_floats "t_dentist_s" d | _ => None end))
    in Hrun. cbn in Hrun.
  eexists. split; [symmetry; exact Hrun|].
  rewrite list_lookup_insert_ne by congruence.
  rewrite lookup_zip_with, Hzj. cbn. rewrite Hrj. cbn.
  now rewrite (dentist_t_perfect_ld z Hfin).
Qed.
End DentistPerfectLD.

(** Two variants in perfect LD with equal z-scores. *)
Lemma dentist_perfect_ld_nan_witness :
  exists t,
    df_floats "t_dentist_s" (or_else (compute_dentist_s Examples.perfect_ld_locus) [])
    = Some t
    /\ t !! 1%nat = Some PrimFloat.nan.
Proof.
  apply (dentist_perfect_ld_nan Examples.perfect_ld_locus _ 0%nat 1%nat [1; 1]%float 3%float).
  - vm_compute. reflexivity.
  - vm_compute. reflexivity.
  - discriminate.
  - reflexivity.
  - reflexivity.
  - vm_compute. reflexivity.
  - vm_compute. reflexivity.
  - vm_compute. reflexivity.
Defined.

(** C6, as claimed, fails: the statistic of the second variant is NaN, not 0. *)
Lemma dentist_perfect_ld_not_zero :
  exists t x,
    compute_dentist_s Examples.perfect_ld_locus
    = Ok [("SNPID", ColS ["rs1"; "rs2"]); ("t_dentist_s", ColF t);
          ("p_dentist_s", ColF (map chi2_logsf t))]
    /\ idxmin (P (intersect_sumstat_ld Examples.perfect_ld_locus)) = Some 0%nat
    /\ t !! 1%nat = Some x
    /\ PrimFloat.is_nan x = true
    /\ x <> f0.
Proof.
  exists [PrimFloat.nan; PrimFloat.nan], PrimFloat.nan.
  repeat split; try (vm_compute; reflexivity).
  intros Heq. apply (f_equal PrimFloat.is_nan) in Heq. vm_compute in Heq. discriminate.
Qed.

(* ===================================================================== *)
(** * The conditional mean of the pseudo-likelihood, in exact arithmetic *)
(* ===================================================================== *)

Section ExactArithmetic.
Context {F : Type} `{Scalar F}.
Hypothesis exact :
  field_theory f0 f1 fadd fmul fsub fopp fdiv (fun x => fdiv f1 x) (@eq F).
Local Open Scope np_scope.

Add Field exact_field : exact.

Lemma fold_add_shift (l : list F) x : fold_left fadd l x = x + np_sum l.
Proof.
  unfold np_sum. revert x. induction l as [|a l IH]; intros x; cbn.
  - ring.
  - rewrite IH, (IH (f0 + a)). ring.
Qed.

Lemma np_sum_app (a b : list F) : np_sum (a ++ b) = np_sum a + np_sum b.
Proof. unfold np_sum at 1. rewrite fold_left_app. apply fold_add_shift. Qed.

Lemma np_sum_cons x (l : list F) : np_sum (x :: l) = x + np_sum l.
Proof. unfold np_sum. cbn. rewrite fold_add_shift. unfold np_sum. ring. Qed.

(** A dot product, split at position [i]. *)
Lemma dot_split (row z : list F) i p zi :
  row !! i = Some p -> z !! i = Some zi ->
  dot row z
  = dot (take i row) (take i z) + p * zi + dot (drop (S i) row) (drop (S i) z).
Proof.
  intros Hr Hz. unfold dot.
  rewrite <- (take_drop_middle row i p Hr) at 1.
  rewrite <- (take_drop_middle z i zi Hz) at 1.
  rewrite zip_with_app.
  - cbn. rewrite np_sum_app, np_sum_cons. ring.
  - rewrite !length_take.
    apply lookup_lt_Some in Hr. apply lookup_lt_Some in Hz. lia.
Qed.

(** The identity behind C2, in exact arithmetic: where the diagonal entry is
    not zero, the conditional mean of line 166, [-(1/P[i,i]) * P[i,:].dot(z) +
    z[i]], is the leave-one-out mean over the other variants, whatever the
    matrix [P]. *)
Lemma postmean_is_leave_one_out (precision : list (list F)) (z : list F) i row p zi :
  precision !! i = Some row -> row !! i = Some p -> z !! i = Some zi ->
  p <> f0 ->
  pseudo_postmean precision z !! i = Some (spec_loo_mean precision z i).
Proof.
  intros Hrow Hp Hz Hne.
  unfold pseudo_postmean. change (map ?f ?l) with (f <$> l).
  rewrite list_lookup_fmap, lookup_seq_lt by (eapply lookup_lt_Some; eassumption).
  cbn. f_equal. unfold spec_loo_mean, at2.
  rewrite (nth_lookup_Some _ _ _ _ Hrow), (nth_lookup_Some _ _ _ _ Hp),
    (nth_lookup_Some _ _ _ _ Hz).
  rewrite (dot_split row z i p zi Hp Hz).
  field. exact Hne.
Qed.
End ExactArithmetic.

Lemma exact_R :
  field_theory (f0 (F:=R)) f1 fadd fmul fsub fopp fdiv (fun x => fdiv f1 x) (@eq R).
Proof.
  constructor.
  - constructor; intros; cbn; unfold f0, f1; cbn; ring.
  - cbn. unfold f0, f1. cbn. exact R1_neq_R0.
  - intros p q. cbn. unfold f1. cbn. unfold Rdiv. ring.
  - intros p Hp. cbn. unfold f1. cbn. unfold Rdiv. rewrite Rmult_1_l.
    apply Rinv_l. exact Hp.
Qed.

(** Over the reals, on the matrix ((2, 1), (1, 2)). *)
Example postmean_is_leave_one_out_R :
  pseudo_postmean [[2; 1]; [1; 2]]%R [3; 5]%R !! 0%nat
  = Some (spec_loo_mean [[2; 1]; [1; 2]]%R [3; 5]%R 0).
Proof.
  apply (postmean_is_leave_one_out exact_R [[2; 1]; [1; 2]]%R [3; 5]%R 0 [2; 1]%R 2%R 3%R);
    try reflexivity.
  cbn. unfold f0. cbn. lra.
Qed.

(* ===================================================================== *)
(** * The precision matrix of the pseudo-likelihood *)
(* ===================================================================== *)

(** C2 on the code. At s = 1/2, on the spectrum (0, 0, 1, 3) with the
    Hadamard eigenvectors (a decomposition of [Examples.hadamard4_ld]; all the
    arithmetic below is exact in binary64), line 162 of [pseudolikelihood]
    builds diag(2, 2, 1, 1/2): [eigvecs.T / d] divides column j by [d[j]], so the
    product is (V Vt) diag(1/d) and not V diag(1/d) Vt. The matrix of the
    specification, which is also the one [kriging_rss] builds at line 270,
    has 1.375 on the diagonal. The conditional means of the objective are
    all 0 where the leave-one-out means under the specified matrix are not. *)
Theorem pseudolikelihood_precision_diverges :
  matmul Examples.hadamard4
         (matmul (diag Examples.hadamard4_eigvals) (transpose Examples.hadamard4))
  = Examples.hadamard4_ld
  /\ pseudo_precision 0.5%float Examples.hadamard4_eigvals Examples.hadamard4
     = [[2; 0; 0; 0]; [0; 2; 0; 0]; [0; 0; 1; 0]; [0; 0; 0; 0.5]]%float
  /\ spec_precision 0.5%float Examples.hadamard4_eigvals Examples.hadamard4
     = [[1.375; 0.125; 0.625; -0.125]; [0.125; 1.375; -0.125; 0.625];
        [0.625; -0.125; 1.375; 0.125]; [-0.125; 0.625; 0.125; 1.375]]%float
  /\ kriging_precision 0.5%float (rev Examples.hadamard4_eigvals)
                       (map (@rev float) Examples.hadamard4)
     = spec_precision 0.5%float Examples.hadamard4_eigvals Examples.hadamard4
  /\ pseudo_postmean
       (pseudo_precision 0.5%float Examples.hadamard4_eigvals Examples.hadamard4)
       [1; 2; 3; 4]%float
     = [0; 0; 0; 0]%float
  /\ map (spec_loo_mean
            (spec_precision 0.5%float Examples.hadamard4_eigvals Examples.hadamard4)
            [1; 2; 3; 4]%float)
         (seq 0 4)
     = [-1.1818181818181819; -1.6363636363636365; -0.63636363636363635;
        -1.0909090909090908]%float.
Proof.
  repeat split; vm_compute; reflexivity.
Qed.

(* ===================================================================== *)
(** * The method of [estimate_s_rss] *)
(* ===================================================================== *)

Section Methods.
Context {F : Type} `{Scalar F} `{Libm F} `{Externals F}.

(** A method other than the three implemented ones is reported by
    [ValueError("The method is not implemented")] only after the eigenvalues
    have been clamped in place and the sample size has been checked: the
    sample-size error comes first, and in both cases the caller's eigenvalue
    array has been written. *)
Theorem unknown_method_raises locus r_tol method eigvens (w : world F) ev vecs :
  method <> "null-mle" -> method <> "null-partialmle" -> method <> "null-pseudomle" ->
  spectrum_of w eigvens (intersect_sumstat_ld locus) ev vecs ->
  estimate_s_rss locus r_tol method eigvens w
  = (if (sample_size (intersect_sumstat_ld locus) <=? 1)%Z then Raise n_error
     else Raise (ValueError "The method is not implemented"),
     store_with w eigvens (clamp r_tol ev) vecs).
Proof.
  intros Hm1 Hm2 Hm3 Hs.
  rewrite (estimate_s_rss_run locus r_tol method eigvens w ev vecs Hs).
  destruct (_ <=? 1)%Z; [reflexivity|].
  unfold estimate_by.
  apply String.eqb_neq in Hm1, Hm2, Hm3. now rewrite Hm1, Hm2, Hm3.
Qed.
End Methods.

Lemma unknown_method_raises_witness :
  estimate_s_rss (Examples.pair_locus 0.7%float 1000) 0.001%float "mle"
                 (Some Examples.cached) Examples.pair_world
  = (if (sample_size (intersect_sumstat_ld (Examples.pair_locus 0.7%float 1000)) <=? 1)%Z
     then Raise n_error
     else Raise (ValueError "The method is not implemented"),
     store_with Examples.pair_world (Some Examples.cached)
       (clamp 0.001%float [1e-5; 1.99999]%float)
       [[- Examples.inv_sqrt2; Examples.inv_sqrt2];
        [Examples.inv_sqrt2; Examples.inv_sqrt2]]%float).
Proof.
  apply (unknown_method_raises (Examples.pair_locus 0.7%float 1000) 0.001%float "mle"
           (Some Examples.cached) Examples.pair_world
           [1e-5; 1.99999]%float
           [[- Examples.inv_sqrt2; Examples.inv_sqrt2];
            [Examples.inv_sqrt2; Examples.inv_sqrt2]]%float).
  - discriminate.
  - discriminate.
  - discriminate.
  - split; reflexivity.
Defined.

(* ===================================================================== *)
(** * The table of [kriging_rss] *)
(* ===================================================================== *)

Section Table.
Context {F : Type} `{Scalar F} `{Libm F} `{Externals F}.

Lemma all_ok_length {A} (l : list (result A)) r : all_ok l = Ok r -> length r = length l.
Proof.
  revert r. induction l as [|[a|e] l IH]; intros r; cbn.
  - now intros [= <-].
  - destruct (all_ok l) as [r'|]; [|discriminate].
    intros [= <-]. cbn. f_equal. now apply IH.
  - discriminate.
Qed.

Lemma row_max_length (m : list (list F)) lf : row_max m = Ok lf -> length lf = length m.
Proof.
  unfold row_max. intros Hr. apply all_ok_length in Hr. now rewrite length_map in Hr.
Qed.

Lemma llik_rows_length (x : list F) sd :
  length (llik_rows x sd) = Nat.min (length x) (length sd).
Proof. unfold llik_rows. now rewrite length_zip_with. Qed.

Lemma loo_condmean_length (p : list (list F)) z : length (loo_condmean p z) = length z.
Proof. unfold loo_condmean. now rewrite length_map, length_seq. Qed.

Lemma loo_condvar_length (p : list (list F)) z : length (loo_condvar p z) = length z.
Proof. unfold loo_condvar. now rewrite length_map, length_seq. Qed.

(** A call of [kriging_rss] that returns went through the mixture stage. *)
Lemma kriging_rss_ok_inv locus r_tol s eigvens (w w' : world F) df :
  kriging_rss locus r_tol s eigvens w = (Ok df, w') ->
  let input_locus := intersect_sumstat_ld locus in
  let z := stabilise (sample_size input_locus) (nan_to_zero (raw_z input_locus)) in
  (1 < sample_size input_locus)%Z
  /\ exists s0 ev vecs w0, kriging_table input_locus z s0 ev vecs w0 = (Ok df, w').
Proof.
  unfold kriging_rss, bind. cbv zeta.
  destruct (eigen_or_compute _ _ w) as [[d|e] w1]; [|discriminate].
  destruct (match s with Some s0 => ret s0 | None => _ end w1) as [[s0|e] w2];
    [|discriminate].
  destruct (clamp_in_place _ _ w2) as [[[]|e] w3]; [|discriminate].
  destruct (Z.leb_spec (sample_size (intersect_sumstat_ld locus)) 1); [discriminate|].
  destruct (read1 _ w3) as [[ev|e] w4]; [|discriminate].
  destruct (read2 _ w4) as [[vecs|e] w5]; [|discriminate].
  intros Hk. split; [lia|]. now exists s0, ev, vecs, w5.
Qed.

(** The table [kriging_rss] returns has the six columns SNPID, z, condmean,
    condvar, z_std_diff and logLR, in this order, and every column has one
    row per variant of the aligned summary statistics. *)
Theorem kriging_rss_table_shape locus r_tol s eigvens (w w' : world F) df :
  let input_locus := intersect_sumstat_ld locus in
  kriging_rss locus r_tol s eigvens w = (Ok df, w') ->
  length (SNPID input_locus) = length (BETA input_locus) ->
  length (SE input_locus) = length (BETA input_locus) ->
  dict_keys df = ["SNPID"; "z"; "condmean"; "condvar"; "z_std_diff"; "logLR"]
  /\ Forall (fun kc => column_length (snd kc) = length (BETA input_locus)) df.
Proof.
  intros input_locus Hk Hid Hse.
  apply kriging_rss_ok_inv in Hk. cbv zeta in Hk. fold input_locus in Hk.
  destruct Hk as (_ & s0 & ev & vecs & w0 & Hk).
  set (z := stabilise (sample_size input_locus) (nan_to_zero (raw_z input_locus))) in *.
  assert (Hz : length z = length (BETA input_locus)).
  { unfold z, raw_z. rewrite stabilise_length, nan_to_zero_length, length_zip_with. lia. }
  revert Hk. unfold kriging_table, bind, lift, gmm_weights, ret.
  destruct (a_grid _ _) as [grid|]; cbn; [|discriminate].
  destruct (row_max _) as [lf0|] eqn:E0; cbn; [|discriminate].
  destruct (GaussianMixture_fit _ _ _) as [[wt|e] g]; cbn; [|discriminate].
  destruct (row_max (llik_rows (zip_with fadd _ _) _)) as [lf1|] eqn:E1; cbn;
    [|discriminate].
  apply row_max_length in E0, E1.
  rewrite llik_rows_length, length_zip_with in E0, E1.
  unfold sd_mtx in E0, E1. rewrite length_map in E0, E1.
  rewrite loo_condmean_length, loo_condvar_length in E0, E1.
  intros Hk.
  injection Hk as <- _. split; [reflexivity|].
  repeat constructor; cbn [snd column_length].
  - exact Hid.
  - exact Hz.
  - now rewrite loo_condmean_length.
  - now rewrite loo_condvar_length.
  - now rewrite standardise_length.
  - unfold log_mix, shift_rows. rewrite !length_zip_with, !llik_rows_length.
    rewrite !length_zip_with. unfold sd_mtx. rewrite !length_map.
    rewrite loo_condmean_length, loo_condvar_length. lia.
Qed.

(** A locus without variants, with the spectrum of its size (no eigenvalue,
    an eigenvector matrix without entries): [np.max] of the empty array of
    squared standardized differences raises, whether [s] is given or
    estimated. *)
Theorem kriging_rss_no_variant_raises locus r_tol s eigvens (w : world F) ev vecs :
  (1 < sample_size (intersect_sumstat_ld locus))%Z ->
  spectrum_of w eigvens (intersect_sumstat_ld locus) ev vecs ->
  raw_z (intersect_sumstat_ld locus) = [] ->
  spectrum_shape (length (raw_z (intersect_sumstat_ld locus))) ev vecs ->
  fst (kriging_rss locus r_tol s eigvens w)
  = Raise (ValueError "zero-size array to reduction operation maximum which has no identity").
Proof.
  intros Hn Hs Hz _.
  rewrite (kriging_rss_run locus r_tol s eigvens w ev vecs Hs). cbv zeta.
  destruct (Z.leb_spec (sample_size (intersect_sumstat_ld locus)) 1); [lia|].
  rewrite Hz. destruct s; reflexivity.
Qed.
End Table.

(** The table of the two variants in LD 0.99999. *)
Lemma kriging_rss_table_shape_witness :
  dict_keys (Examples.table_of (Examples.first_call 0.001 (Some 0.5))%float)
  = ["SNPID"; "z"; "condmean"; "condvar"; "z_std_diff"; "logLR"]
  /\ Forall (fun kc => column_length (snd kc)
                       = length (BETA (intersect_sumstat_ld (Examples.pair_locus 0.7%float 1000))))
            (Examples.table_of (Examples.first_call 0.001 (Some 0.5))%float).
Proof.
  apply (kriging_rss_table_shape (Examples.pair_locus 0.7%float 1000) 0.001%float
           (Some 0.5%float) (Some Examples.cached) Examples.pair_world
           (snd (Examples.first_call 0.001 (Some 0.5))%float)).
  - vm_compute. reflexivity.
  - reflexivity.
  - reflexivity.
Defined.

(** No variants, the empty spectrum cached by the caller, [s] estimated. *)
Lemma kriging_rss_no_variant_raises_witness :
  fst (kriging_rss Scenarios.empty_locus default_r_tol None (Some Examples.cached)
                   Scenarios.empty_world)
  = Raise (ValueError "zero-size array to reduction operation maximum which has no identity").
Proof.
  apply (kriging_rss_no_variant_raises Scenarios.empty_locus default_r_tol None
           (Some Examples.cached) Scenarios.empty_world [] []).
  - cbn. lia.
  - split; reflexivity.
  - reflexivity.
  - repeat split. constructor.
Defined.

(* ===================================================================== *)
(** * NaN and the order of binary64 *)
(* ===================================================================== *)

Section Binary64Order.

(** There is one NaN. *)
Lemma is_nan_SF (x : float) : PrimFloat.is_nan x = true <-> Prim2SF x = S754_nan.
Proof.
  unfold PrimFloat.is_nan. rewrite FloatAxioms.eqb_spec.
  destruct (Prim2SF x) as [s|s| |s m e]; cbn.
  - split; discriminate.
  - destruct s; split; discriminate.
  - split; reflexivity.
  - unfold SFeqb, SFcompare.
    destruct s; rewrite Z.compare_refl, Pos.compare_cont_refl; split; discriminate.
Qed.

Lemma is_nan_eq (x : float) : PrimFloat.is_nan x = true -> x = PrimFloat.nan.
Proof. intros Hx. apply Prim2SF_inj. now apply is_nan_SF. Qed.

Lemma div_nan_l (y : float) : PrimFloat.div PrimFloat.nan y = PrimFloat.nan.
Proof. apply Prim2SF_inj. rewrite div_spec. reflexivity. Qed.

Lemma ltb_nan_r (x : float) : PrimFloat.ltb x PrimFloat.nan = false.
Proof.
  rewrite ltb_spec. change (Prim2SF PrimFloat.nan) with S754_nan.
  unfold SFltb, SFcompare. now destruct (Prim2SF x) as [s|s| |s m e].
Qed.

Lemma ltb_nan_l (x : float) : PrimFloat.ltb PrimFloat.nan x = false.
Proof. rewrite ltb_spec. reflexivity. Qed.

Lemma SFltb_key (x y : spec_float) :
  x <> S754_nan -> y <> S754_nan -> (SFltb x y = true <-> lex_lt (SFkey x) (SFkey y)).
Proof.
  intros Hx Hy. unfold SFltb, SFcompare, lex_lt.
  destruct x as [sx|sx| |sx mx ex]; [| |contradiction|];
    (destruct y as [sy|sy| |sy my ey]; [| |contradiction|]);
    try destruct sx; try destruct sy; cbn;
    try (split; [discriminate|lia]);
    try (split; [lia|reflexivity]).
  - destruct (Z.compare_spec ex ey); [|split; [discriminate|lia]|split; [lia|reflexivity]].
    change (Pos.compare_cont Eq mx my) with (Pos.compare mx my).
    destruct (Pos.compare_spec mx my); cbn; split; try discriminate; try reflexivity; lia.
  - destruct (Z.compare_spec ex ey); [|split; [lia|reflexivity]|split; [discriminate|lia]].
    change (Pos.compare_cont Eq mx my) with (Pos.compare mx my).
    destruct (Pos.compare_spec mx my); cbn; split; try discriminate; try reflexivity; lia.
Qed.

Lemma ltb_key (x y : float) :
  PrimFloat.is_nan x = false -> PrimFloat.is_nan y = false ->
  (PrimFloat.ltb x y = true <-> lex_lt (SFkey (Prim2SF x)) (SFkey (Prim2SF y))).
Proof.
  intros Hx Hy. rewrite ltb_spec. apply SFltb_key.
  - intros E. apply is_nan_SF in E. congruence.
  - intros E. apply is_nan_SF in E. congruence.
Qed.

Lemma ltb_not_nan (x y : float) :
  PrimFloat.ltb x y = true -> PrimFloat.is_nan x = false /\ PrimFloat.is_nan y = false.
Proof.
  intros Hlt. split.
  - destruct (PrimFloat.is_nan x) eqn:E; [|reflexivity].
    apply is_nan_eq in E. subst x. now rewrite ltb_nan_l in Hlt.
  - destruct (PrimFloat.is_nan y) eqn:E; [|reflexivity].
    apply is_nan_eq in E. subst y. now rewrite ltb_nan_r in Hlt.
Qed.

(** x < y and not z < y give x < z, when z is not NaN. *)
Lemma ltb_le_trans (x y z : float) :
  PrimFloat.ltb x y = true -> PrimFloat.ltb z y = false -> PrimFloat.is_nan z = false ->
  PrimFloat.ltb x z = true.
Proof.
  intros Hxy Hzy Hz. destruct (ltb_not_nan x y Hxy) as [Hx Hy].
  apply (ltb_key x z Hx Hz). apply (ltb_key x y Hx Hy) in Hxy.
  assert (Hn : ~ lex_lt (SFkey (Prim2SF z)) (SFkey (Prim2SF y))).
  { intros Hl. apply (ltb_key z y Hz Hy) in Hl. congruence. }
  unfold lex_lt in *. lia.
Qed.

(** not y < x and z < x ... : x <= y and y < z give not z < x. *)
Lemma ltb_asym (x y : float) : PrimFloat.ltb x y = true -> PrimFloat.ltb y x = false.
Proof.
  intros Hxy. destruct (ltb_not_nan x y Hxy) as [Hx Hy].
  destruct (PrimFloat.ltb y x) eqn:E; [|reflexivity].
  apply (ltb_key x y Hx Hy) in Hxy. apply (ltb_key y x Hy Hx) in E.
  unfold lex_lt in *. lia.
Qed.

Lemma ltb_trans (x y z : float) :
  PrimFloat.ltb x y = true -> PrimFloat.ltb y z = true -> PrimFloat.ltb x z = true.
Proof.
  intros Hxy Hyz. destruct (ltb_not_nan x y Hxy) as [Hx Hy].
  destruct (ltb_not_nan y z Hyz) as [_ Hz].
  apply (ltb_key x z Hx Hz).
  apply (ltb_key x y Hx Hy) in Hxy. apply (ltb_key y z Hy Hz) in Hyz.
  unfold lex_lt in *. lia.
Qed.
End Binary64Order.

(* ===================================================================== *)
(** * A NaN among the standardized differences *)
(* ===================================================================== *)

Section NaNGrid.
Context {L : Libm float} {E : Externals float}.
(** The C library's [log2] maps NaN to NaN. *)
Hypothesis log2_nan : np_log2 PrimFloat.nan = PrimFloat.nan.

Lemma fold_fmax_nan (l : list float) :
  fold_left fmax l PrimFloat.nan = PrimFloat.nan.
Proof. induction l as [|x l IH]; [reflexivity|exact IH]. Qed.

Lemma fold_fmax_has_nan (l : list float) acc i :
  l !! i = Some PrimFloat.nan -> fold_left fmax l acc = PrimFloat.nan.
Proof.
  revert acc i. induction l as [|x l IH]; intros acc i Hi; [discriminate|].
  destruct i as [|i]; cbn in *.
  - injection Hi as ->.
    replace (fmax acc PrimFloat.nan) with PrimFloat.nan; [apply fold_fmax_nan|].
    unfold fmax. cbn [fisnan Scalar_float].
    destruct (PrimFloat.is_nan acc) eqn:Ea; [|reflexivity].
    symmetry. now apply is_nan_eq.
  - now apply (IH _ i).
Qed.

Lemma np_max_has_nan (l : list float) i :
  l !! i = Some PrimFloat.nan -> np_max l = Ok PrimFloat.nan.
Proof.
  destruct l as [|x l]; [discriminate|]. cbn [np_max]. intros Hi. f_equal.
  destruct i as [|i]; cbn in Hi.
  - injection Hi as ->. apply fold_fmax_nan.
  - now apply (fold_fmax_has_nan l x i).
Qed.

(** Lines 282-283 on a NaN: the maximum is NaN, [NaN < 1] is false, so
    [a_max] is [2 * sqrt(NaN)], and [int(np.ceil(NaN))] raises. *)
Lemma a_grid_nan (z_std_diff : list float) p i x :
  z_std_diff !! i = Some x -> PrimFloat.is_nan x = true ->
  a_grid z_std_diff p = Raise (ValueError "cannot convert float NaN to integer").
Proof.
  intros Hi Hx. apply is_nan_eq in Hx. subst x.
  unfold a_grid, grid_a_max.
  rewrite (np_max_has_nan (map (fun x => fmul x x) z_std_diff) i).
  - cbn [fltb fmul fsqrt Scalar_float].
    replace (if PrimFloat.ltb PrimFloat.nan f1 then f2
             else PrimFloat.mul f2 (PrimFloat.sqrt PrimFloat.nan))
      with PrimFloat.nan by (vm_compute; reflexivity).
    unfold grid_npoint. cbn [fdiv Scalar_float].
    rewrite div_nan_l, log2_nan, div_nan_l. reflexivity.
  - change (map ?f ?l) with (f <$> l). rewrite list_lookup_fmap, Hi. reflexivity.
Qed.

End NaNGrid.


(* ===================================================================== *)
(** * The weights of the null directions *)
(* ===================================================================== *)

Lemma rev_lookup {A} (l : list A) i :
  (i < length l)%nat -> rev l !! i = l !! (length l - S i)%nat.
Proof. intros Hi. rewrite rev_alt. now apply reverse_lookup. Qed.

(** Lines 260 and 268-269 at [s] = 0: an eigenvalue below [r_tol] is clamped
    to 0, its weight 1/0 is infinite and is replaced by 0, so the direction
    drops out of the precision matrix; the eigenvalues are seen through the
    reversed view. *)
Theorem kriging_dinv_null_direction (r_tol : float) (ev : list float) i x :
  ev !! i = Some x -> PrimFloat.ltb x r_tol = true ->
  kriging_dinv 0%float (rev (clamp r_tol ev)) !! (length ev - S i)%nat = Some 0%float.
Proof.
  intros Hi Hlt.
  assert (Hlen : (i < length ev)%nat) by (eapply lookup_lt_Some; eassumption).
  unfold kriging_dinv. change (map ?f ?l) with (f <$> l).
  rewrite !list_lookup_fmap, rev_lookup by (rewrite clamp_length; lia).
  rewrite clamp_length.
  replace (length ev - S (length ev - S i))%nat with i by lia.
  rewrite (@clamp_below float Scalar_float r_tol ev i x Hi Hlt). vm_compute. reflexivity.
Qed.

Lemma kriging_dinv_null_direction_witness :
  kriging_dinv 0%float (rev (clamp 0.001%float [1e-5; 1.99999]%float))
  !! (length [1e-5; 1.99999]%float - 1)%nat = Some 0%float.
Proof.
  apply (kriging_dinv_null_direction 0.001%float [1e-5; 1.99999]%float 0%nat 1e-5%float).
  - reflexivity.
  - vm_compute. reflexivity.
Defined.

(* ===================================================================== *)
(** * The lead variant of Dentist-S *)
(* ===================================================================== *)

Section Lead.

Lemma first_min_snoc_nan pre best x :
  first_min pre best -> PrimFloat.is_nan x = true -> first_min (pre ++ [x]) best.
Proof.
  intros Hinv Hx. apply is_nan_eq in Hx. subst x.
  destruct best as [[k b]|]; cbn in *.
  - destruct Hinv as (Hk & Hb & Hmin & Hfirst).
    assert (Hlt : (k < length pre)%nat) by (eapply lookup_lt_Some; eassumption).
    split; [now rewrite lookup_app_l|]. split; [assumption|]. split.
    + intros j y Hj. apply lookup_app_Some in Hj as [Hj|[_ Hj]]; [eauto|].
      apply list_lookup_singleton_Some in Hj as [_ <-]. apply ltb_nan_l.
    + intros j y Hjk Hj. rewrite lookup_app_l in Hj by lia. eauto.
  - intros j y Hj. apply lookup_app_Some in Hj as [Hj|[_ Hj]]; [eauto|].
    now apply list_lookup_singleton_Some in Hj as [_ <-].
Qed.

Lemma first_min_snoc_first pre x :
  first_min pre None -> PrimFloat.is_nan x = false ->
  first_min (pre ++ [x]) (Some (length pre, x)).
Proof.
  cbn. intros Hinv Hx. split; [|split; [assumption|split]].
  - rewrite lookup_app_r by lia. now rewrite Nat.sub_diag.
  - intros j y Hj. apply lookup_app_Some in Hj as [Hj|[_ Hj]].
    + apply Hinv in Hj. apply is_nan_eq in Hj. subst y. apply ltb_nan_l.
    + apply list_lookup_singleton_Some in Hj as [_ <-].
      destruct (PrimFloat.ltb x x) eqn:E; [|reflexivity].
      now rewrite (ltb_asym x x E) in E.
  - intros j y Hjk Hj Hy. rewrite lookup_app_l in Hj by lia.
    apply Hinv in Hj. congruence.
Qed.

Lemma first_min_snoc_smaller pre k b x :
  first_min pre (Some (k, b)) -> PrimFloat.ltb x b = true ->
  first_min (pre ++ [x]) (Some (length pre, x)).
Proof.
  cbn. intros (Hk & Hb & Hmin & Hfirst) Hlt.
  destruct (ltb_not_nan x b Hlt) as [Hx _].
  split; [|split; [assumption|split]].
  - rewrite lookup_app_r by lia. now rewrite Nat.sub_diag.
  - intros j y Hj. apply lookup_app_Some in Hj as [Hj|[_ Hj]].
    + destruct (PrimFloat.ltb y x) eqn:E; [|reflexivity].
      pose proof (Hmin j y Hj) as Hyb. now rewrite (ltb_trans y x b E Hlt) in Hyb.
    + apply list_lookup_singleton_Some in Hj as [_ <-].
      destruct (PrimFloat.ltb x x) eqn:E; [|reflexivity].
      now rewrite (ltb_asym x x E) in E.
  - intros j y Hjk Hj Hy. rewrite lookup_app_l in Hj by lia.
    exact (ltb_le_trans x b y Hlt (Hmin j y Hj) Hy).
Qed.

Lemma first_min_snoc_keep pre k b x :
  first_min pre (Some (k, b)) -> PrimFloat.ltb x b = false ->
  first_min (pre ++ [x]) (Some (k, b)).
Proof.
  cbn. intros (Hk & Hb & Hmin & Hfirst) Hlt.
  assert (Hkl : (k < length pre)%nat) by (eapply lookup_lt_Some; eassumption).
  split; [now rewrite lookup_app_l|]. split; [assumption|]. split.
  - intros j y Hj. apply lookup_app_Some in Hj as [Hj|[_ Hj]]; [eauto|].
    now apply list_lookup_singleton_Some in Hj as [_ <-].
  - intros j y Hjk Hj. rewrite lookup_app_l in Hj by lia. eauto.
Qed.

Lemma idxmin_from_first_min (l pre : list float) best :
  first_min pre best ->
  match idxmin_from l (length pre) best with
  | None => first_min (pre ++ l) None
  | Some k => exists b, first_min (pre ++ l) (Some (k, b))
  end.
Proof.
  revert pre best. induction l as [|x l IH]; intros pre best Hinv.
  - rewrite app_nil_r. cbn. destruct best as [[k b]|]; cbn; [now exists b|assumption].
  - replace (pre ++ x :: l) with ((pre ++ [x]) ++ l) by now rewrite <- app_assoc.
    assert (Hlen : S (length pre) = length (pre ++ [x]))
      by (rewrite length_app; cbn; lia).
    cbn [idxmin_from fisnan fltb Scalar_float].
    destruct (PrimFloat.is_nan x) eqn:Ex.
    + rewrite Hlen. apply IH. now apply first_min_snoc_nan.
    + destruct best as [[k b]|].
      * destruct (PrimFloat.ltb x b) eqn:Elt; rewrite Hlen; apply IH.
        -- now apply (first_min_snoc_smaller pre k b).
        -- now apply first_min_snoc_keep.
      * rewrite Hlen. apply IH. now apply first_min_snoc_first.
Qed.

Lemma idxmin_first_min (l : list float) k :
  idxmin l = Some k -> exists b, first_min l (Some (k, b)).
Proof.
  intros Hk. pose proof (idxmin_from_first_min l [] None) as Hs.
  cbn [length app] in Hs. unfold idxmin in Hk. rewrite Hk in Hs.
  apply Hs. intros j y Hj. discriminate.
Qed.
End Lead.

Section DentistTable.
Context `{Externals float}.

(** The lead variant of [compute_dentist_s] is the first variant with the
    smallest p-value, NaN p-values skipped: no p-value is below the lead's,
    and every p-value before it is above. Its own statistic is NaN. *)
Theorem dentist_lead_is_first_minimum locus df :
  let input_locus := intersect_sumstat_ld locus in
  compute_dentist_s locus = Ok df ->
  exists lead p t,
    P input_locus !! lead = Some p
    /\ PrimFloat.is_nan p = false
    /\ (forall j q, P input_locus !! j = Some q -> PrimFloat.ltb q p = false)
    /\ (forall j q, (j < lead)%nat -> P input_locus !! j = Some q ->
                    PrimFloat.is_nan q = false -> PrimFloat.ltb p q = true)
    /\ df_floats "t_dentist_s" df = Some t
    /\ t !! lead = Some PrimFloat.nan.
Proof.
  intros input_locus. unfold compute_dentist_s. fold input_locus.
  destruct (idxmin (P input_locus)) as [lead|] eqn:El; [|discriminate].
  destruct (raw_z input_locus !! lead) as [lead_z|] eqn:Ez; [|discriminate].
  destruct (ld_r input_locus !! lead) as [r|] eqn:Er; [|discriminate].
  destruct (negb _) eqn:Elen; [discriminate|].
  apply negb_false_iff, Nat.eqb_eq in Elen.
  intros [= <-].
  destruct (idxmin_first_min _ _ El) as (p & Hp & Hnan & Hmin & Hfirst).
  exists lead, p. eexists. split; [exact Hp|]. split; [exact Hnan|].
  split; [exact Hmin|]. split; [exact Hfirst|]. split; [reflexivity|].
  apply list_lookup_insert_eq. rewrite length_zip_with, Elen.
  apply lookup_lt_Some in Ez. lia.
Qed.

Lemma dentist_t_not_negative (z r lead_z : float) :
  PrimFloat.ltb (dentist_t z r lead_z) 0 = false.
Proof.
  unfold dentist_t. cbn [fltb finf f0 Scalar_float].
  match goal with |- context [if PrimFloat.ltb ?t ?c then _ else _] =>
    destruct (PrimFloat.ltb t c) eqn:Et end.
  - reflexivity.
  - exact Et.
Qed.

(** The table of [compute_dentist_s] has the columns SNPID, t_dentist_s and
    p_dentist_s, one statistic per z-score; no statistic is negative (a
    negative quotient has been replaced by +infinity, the lead's is NaN), and
    the p-value column is [chi2.logsf] of the statistics, entry by entry. *)
Theorem dentist_never_negative locus df :
  compute_dentist_s locus = Ok df ->
  exists t,
    dict_keys df = ["SNPID"; "t_dentist_s"; "p_dentist_s"]
    /\ df_floats "t_dentist_s" df = Some t
    /\ df_floats "p_dentist_s" df = Some (map chi2_logsf t)
    /\ length t = length (raw_z (intersect_sumstat_ld locus))
    /\ Forall (fun x => PrimFloat.ltb x 0 = false) t.
Proof.
  unfold compute_dentist_s.
  destruct (idxmin _) as [lead|] eqn:El; [|discriminate].
  destruct (raw_z _ !! lead) as [lead_z|] eqn:Ez; [|discriminate].
  destruct (ld_r _ !! lead) as [r|] eqn:Er; [|discriminate].
  destruct (negb _) eqn:Elen; [discriminate|].
  apply negb_false_iff, Nat.eqb_eq in Elen.
  intros [= <-]. eexists. split; [reflexivity|]. split; [reflexivity|].
  split; [reflexivity|]. split.
  - rewrite length_insert, length_zip_with. lia.
  - apply Forall_lookup_2. intros j x Hj.
    destruct (decide (j = lead)) as [->|Hne].
    + rewrite list_lookup_insert_eq in Hj
        by (rewrite length_zip_with, Elen; apply lookup_lt_Some in Ez; lia).
      now injection Hj as <-.
    + rewrite list_lookup_insert_ne in Hj by congruence.
      apply lookup_zip_with_Some in Hj as (zj & rj & -> & _ & _).
      apply dentist_t_not_negative.
Qed.
End DentistTable.

Lemma dentist_lead_is_first_minimum_witness :
  exists lead p t,
    P (intersect_sumstat_ld (Examples.five_variants 1000)) !! lead = Some p
    /\ PrimFloat.is_nan p = false
    /\ (forall j q, P (intersect_sumstat_ld (Examples.five_variants 1000)) !! j = Some q ->
                    PrimFloat.ltb q p = false)
    /\ (forall j q, (j < lead)%nat ->
                    P (intersect_sumstat_ld (Examples.five_variants 1000)) !! j = Some q ->
                    PrimFloat.is_nan q = false -> PrimFloat.ltb p q = true)
    /\ df_floats "t_dentist_s" (or_else (compute_dentist_s (Examples.five_variants 1000)) [])
       = Some t
    /\ t !! lead = Some PrimFloat.nan.
Proof.
  apply (dentist_lead_is_first_minimum (Examples.five_variants 1000)).
  vm_compute. reflexivity.
Defined.

Lemma dentist_never_negative_witness :
  exists t,
    dict_keys (or_else (compute_dentist_s (Examples.five_variants 1000)) [])
    = ["SNPID"; "t_dentist_s"; "p_dentist_s"]
    /\ df_floats "t_dentist_s" (or_else (compute_dentist_s (Examples.five_variants 1000)) [])
       = Some t
    /\ df_floats "p_dentist_s" (or_else (compute_dentist_s (Examples.five_variants 1000)) [])
       = Some (map chi2_logsf t)
    /\ length t = length (raw_z (intersect_sumstat_ld (Examples.five_variants 1000)))
    /\ Forall (fun x => PrimFloat.ltb x 0 = false) t.
Proof.
  apply (dentist_never_negative (Examples.five_variants 1000)).
  vm_compute. reflexivity.
Defined.

(* ===================================================================== *)
(** * What [locus_qc] writes *)
(* ===================================================================== *)

Section Files.
Context {F : Type} `{Scalar F} `{Libm F} `{Externals F}.

Lemma bind_files {A B} (m : M F A) (k : A -> M F B) (w : world F) :
  (forall w0, files (snd (m w0)) = files w0) ->
  (forall a w0, files (snd (k a w0)) = files w0) ->
  files (snd (bind m k w)) = files w.
Proof.
  intros Hm Hk. unfold bind. specialize (Hm w).
  destruct (m w) as [[a|e] w1]; cbn in *; [|assumption].
  now rewrite Hk.
Qed.

Lemma lift_files {A} (r : result A) (w : world F) : files (snd (lift r w)) = files w.
Proof. reflexivity. Qed.

Lemma get_eigen_files ldmatrix (w : world F) :
  files (snd (get_eigen ldmatrix w)) = files w.
Proof. reflexivity. Qed.

Lemma eigen_or_compute_files eigvens input_locus (w : world F) :
  files (snd (eigen_or_compute eigvens input_locus w)) = files w.
Proof. destruct eigvens; reflexivity. Qed.

Lemma clamp_in_place_files v r_tol (w : world F) :
  files (snd (clamp_in_place v r_tol w)) = files w.
Proof. unfold clamp_in_place. now destruct (heap w !! base1 v) as [[|]|]. Qed.

Lemma read1_files v (w : world F) : files (snd (read1 v w)) = files w.
Proof. unfold read1. now destruct (heap w !! base1 v) as [[|]|]. Qed.

Lemma read2_files v (w : world F) : files (snd (read2 v w)) = files w.
Proof. unfold read2. now destruct (heap w !! base2 v) as [[|]|]. Qed.

Lemma estimate_s_rss_files locus r_tol method eigvens (w : world F) :
  files (snd (estimate_s_rss locus r_tol method eigvens w)) = files w.
Proof.
  unfold estimate_s_rss.
  apply bind_files; [apply eigen_or_compute_files|intros d w0].
  apply bind_files; [apply clamp_in_place_files|intros _ w1].
  destruct (_ <=? 1)%Z; [reflexivity|].
  apply bind_files; [apply read1_files|intros ev w2].
  apply bind_files; [apply read2_files|intros vecs w3].
  apply lift_files.
Qed.

Lemma kriging_rss_files locus r_tol s eigvens (w : world F) :
  files (snd (kriging_rss locus r_tol s eigvens w)) = files w.
Proof.
  unfold kriging_rss.
  apply bind_files; [apply eigen_or_compute_files|intros d w0].
  apply bind_files; [destruct s; [reflexivity|apply estimate_s_rss_files]|intros s0 w1].
  apply bind_files; [apply clamp_in_place_files|intros _ w2].
  destruct (_ <=? 1)%Z; [reflexivity|].
  apply bind_files; [apply read1_files|intros ev w3].
  apply bind_files; [apply read2_files|intros vecs w4].
  apply kriging_table_frame.
Qed.

Lemma qc_one_files r_tol method locus (w : world F) :
  files (snd (qc_one r_tol method locus w)) = files w.
Proof.
  unfold qc_one.
  apply bind_files; [apply get_eigen_files|intros d w0].
  apply bind_files; [apply estimate_s_rss_files|intros s w1].
  apply bind_files; [apply kriging_rss_files|intros ez w2].
  apply bind_files; [apply lift_files|intros ds w3].
  apply bind_files; [apply lift_files|intros cm w4].
  reflexivity.
Qed.

Lemma qc_loop_files r_tol method ls (w : world F) :
  files (snd (qc_loop r_tol method ls w)) = files w.
Proof.
  revert w. induction ls as [|l ls IH]; intros w; [reflexivity|].
  cbn [qc_loop].
  apply bind_files; [apply qc_one_files|intros t w0].
  apply bind_files; [apply IH|intros r w1]. reflexivity.
Qed.

Lemma pd_concat_files frames (w : world F) :
  files (snd (pd_concat frames w)) = files w.
Proof. now destruct frames. Qed.

(** The files of a run of [locus_qc], and the keys of its dictionary. *)
Lemma locus_qc_run locus_set r_tol method out_dir (w w' : world F) r :
  locus_qc locus_set r_tol method out_dir w = (r, w') ->
  match r with
  | Ok d =>
      dict_keys d
      = (if (1 <? length (loci locus_set))%nat
         then ["expected_z"; "dentist_s"; "compare_maf"; "ld_4th_moment"; "ld_decay";
               "cochran_q"; "snp_missingness"]
         else ["expected_z"; "dentist_s"; "compare_maf"; "ld_4th_moment"; "ld_decay"])
      /\ files w'
         = match out_dir with
           | Some dir =>
               rev (map (fun kv => ((dir ++ "/" ++ fst kv ++ ".txt")%string, snd kv)) d)
               ++ files w
           | None => files w
           end
  | Raise _ => files w' = files w
  end.
Proof.
  unfold locus_qc, bind, lift, ret, raise, pd_concat, write_tables.
  generalize (1 <? length (loci locus_set))%nat. intros many.
  pose proof (qc_loop_files r_tol method (loci locus_set) w) as Hl.
  destruct (qc_loop r_tol method (loci locus_set) w) as [[[[ez ds] cm]|e] w1];
    cbn [fst snd] in *; rewrite <- Hl; clear Hl; [|now intros [= <- <-]].
  destruct ez; cbn; [now intros [= <- <-]|].
  destruct ds; cbn; [now intros [= <- <-]|].
  destruct cm; cbn; [now intros [= <- <-]|].
  destruct (ld_4th_moment locus_set); cbn; [|now intros [= <- <-]].
  destruct (ld_decay locus_set); cbn; [|now intros [= <- <-]].
  destruct many.
  - destruct (cochran_q locus_set); cbn; [|now intros [= <- <-]].
    destruct (snp_missingness locus_set); cbn; [|now intros [= <- <-]].
    destruct out_dir; cbn; now intros [= <- <-].
  - destruct out_dir; cbn; now intros [= <- <-].
Qed.

(** [locus_qc] writes to disk at its very end only: with [out_dir] given and
    every metric computed, one file [{out_dir}/{key}.txt] per key of the
    returned dictionary, in the order of the keys, holding the table of that
    key; nothing when [out_dir] is [None], and nothing when the call raises. *)
Theorem locus_qc_files locus_set r_tol method out_dir (w : world F) :
  files (snd (locus_qc locus_set r_tol method out_dir w))
  = match fst (locus_qc locus_set r_tol method out_dir w), out_dir with
    | Ok d, Some dir =>
        rev (map (fun kv => ((dir ++ "/" ++ fst kv ++ ".txt")%string, snd kv)) d) ++ files w
    | _, _ => files w
    end.
Proof.
  destruct (locus_qc locus_set r_tol method out_dir w) as [r w'] eqn:E.
  apply locus_qc_run in E. cbn [fst snd].
  destruct r as [d|e]; [|exact E].
  destruct E as [_ E]. destruct out_dir; exact E.
Qed.

(** An empty locus set: the three lists of per-locus tables are empty and
    [pd.concat] raises; nothing has been computed or written. *)
Theorem locus_qc_empty_raises locus_set r_tol method out_dir (w : world F) :
  loci locus_set = [] ->
  locus_qc locus_set r_tol method out_dir w
  = (Raise (ValueError "No objects to concatenate"), w).
Proof. intros Hl. unfold locus_qc. now rewrite Hl. Qed.

Lemma qc_one_small_sample r_tol method locus (w : world F) :
  (sample_size (intersect_sumstat_ld locus) <= 1)%Z ->
  fst (qc_one r_tol method locus w) = Raise n_error.
Proof.
  intros Hn. unfold qc_one.
  destruct (linalg_eigh (ld_r (intersect_sumstat_ld locus))) as [ev vecs] eqn:Ee.
  destruct (eigen_or_compute_run w None (intersect_sumstat_ld locus) ev vecs Ee)
    as (d & Hrun & Hd & _).
  cbn [eigen_or_compute] in Hrun. unfold bind at 1. rewrite Hrun.
  unfold bind at 1.
  rewrite (estimate_s_rss_run locus r_tol method (Some d) _ ev vecs (Hd ev)).
  apply Z.leb_le in Hn. now rewrite Hn.
Qed.

Lemma qc_loop_small_sample r_tol method ls l (w : world F) :
  In l ls -> (sample_size (intersect_sumstat_ld l) <= 1)%Z ->
  exists e, fst (qc_loop r_tol method ls w) = Raise e.
Proof.
  intros Hin Hn. revert w. induction ls as [|l0 ls IH]; intros w; [contradiction|].
  cbn [qc_loop]. unfold bind at 1.
  destruct Hin as [->|Hin].
  - pose proof (qc_one_small_sample r_tol method l w Hn) as Hq.
    destruct (qc_one r_tol method l w) as [[t|e] w1]; cbn in Hq; [discriminate|].
    now exists e.
  - destruct (qc_one r_tol method l0 w) as [[t|e] w1]; [|now exists e].
    unfold bind at 1. destruct (IH Hin w1) as [e He].
    destruct (qc_loop r_tol method ls w1) as [[r|e'] w2]; cbn in He; [discriminate|].
    now exists e'.
Qed.

(** One cohort of sample size at most 1 anywhere in the set makes the whole
    call raise: no dictionary is returned, for none of the cohorts. *)
Theorem locus_qc_small_sample_raises locus_set r_tol method out_dir (w : world F) l :
  In l (loci locus_set) -> (sample_size (intersect_sumstat_ld l) <= 1)%Z ->
  exists e, fst (locus_qc locus_set r_tol method out_dir w) = Raise e.
Proof.
  intros Hin Hn. unfold locus_qc, bind at 1.
  destruct (qc_loop_small_sample r_tol method _ l w Hin Hn) as [e He].
  destruct (qc_loop r_tol method (loci locus_set) w) as [[r|e'] w1]; cbn in He;
    [discriminate|].
  now exists e'.
Qed.
End Files.

Lemma locus_qc_empty_raises_witness :
  locus_qc (F:=float) {| loci := [] |} qc_default_r_tol "null-mle" (Some "out")
           Examples.base_world
  = (Raise (ValueError "No objects to concatenate"), Examples.base_world).
Proof.
  apply (locus_qc_empty_raises {| loci := [] |} qc_default_r_tol "null-mle" (Some "out")
           Examples.base_world).
  reflexivity.
Defined.

Lemma locus_qc_small_sample_raises_witness :
  exists e,
    fst (locus_qc {| loci := [Examples.five_variants 1000; Examples.five_variants 1] |}
                  qc_default_r_tol "null-mle" None Examples.base_world) = Raise e.
Proof.
  apply (locus_qc_small_sample_raises
           {| loci := [Examples.five_variants 1000; Examples.five_variants 1] |}
           qc_default_r_tol "null-mle" None Examples.base_world (Examples.five_variants 1)).
  - right. left. reflexivity.
  - cbn. lia.
Defined.

(* ===================================================================== *)
(** * The variance-stabilising transform, in exact arithmetic *)
(* ===================================================================== *)

(** Lines 128-129 and 265-266 over the reals: for a sample size above 2 the
    transformed z-scores are bounded, [z'**2 < n - 1], whatever the z-scores
    were. *)
Theorem stabilise_bounded (n : Z) (z : list R) :
  (2 < n)%Z ->
  Forall (fun x => (x * x < IZR (n - 1))%R) (stabilise n z).
Proof.
  intros Hn. unfold stabilise. apply Forall_forall. intros y Hy.
  apply list_elem_of_In, in_map_iff in Hy. destruct Hy as (x & <- & _).
  cbn [fsqrt fmul fdiv fadd fsub of_Z Scalar_R].
  assert (Hn1 : (2 < IZR n)%R) by (apply (IZR_lt 2); exact Hn).
  rewrite minus_IZR.
  set (d := (x * x + IZR n - 2)%R).
  assert (Hx : (0 <= x * x)%R) by nra.
  assert (Hd : (0 < d)%R) by (unfold d; lra).
  set (a := ((IZR n - 1) / d)%R).
  assert (Ha : (0 <= a)%R).
  { unfold a. apply Rlt_le, Rdiv_lt_0_compat; lra. }
  replace (sqrt a * x * (sqrt a * x))%R with (sqrt a * sqrt a * (x * x))%R by ring.
  rewrite sqrt_sqrt by exact Ha.
  unfold a. unfold Rdiv.
  replace ((IZR n - 1) * / d * (x * x))%R with ((IZR n - 1) * ((x * x) * / d))%R by ring.
  assert (Hq : (x * x * / d < 1)%R).
  { apply (Rmult_lt_reg_r d); [exact Hd|].
    rewrite Rmult_assoc, Rinv_l by lra. unfold d. lra. }
  nra.
Qed.

Lemma stabilise_bounded_witness :
  Forall (fun x => (x * x < IZR (1000 - 1))%R) (stabilise 1000 [2; -3; 40]%R).
Proof. apply (stabilise_bounded 1000 [2; -3; 40]%R). lia. Defined.

(* ===================================================================== *)
(** * The objective of "null-pseudomle", in exact arithmetic *)
(* ===================================================================== *)

Section PseudoExact.
Context {F : Type} `{Scalar F}.
Hypothesis exact :
  field_theory f0 f1 fadd fmul fsub fopp fdiv (fun x => fdiv f1 x) (@eq F).
Local Open Scope np_scope.

Add Field pseudo_exact_field : exact.

Lemma dot_cons x (a : list F) y b : dot (x :: a) (y :: b) = x * y + dot a b.
Proof. unfold dot. cbn [zip_with]. apply (np_sum_cons exact). Qed.

Lemma dot_nil_l (b : list F) : dot [] b = f0.
Proof. reflexivity. Qed.

Lemma dot_nil_r (a : list F) : dot a [] = f0.
Proof. destruct a; reflexivity. Qed.

Lemma div_as_mul (x c : F) : x / c = x * (f1 / c).
Proof. exact (Fdiv_def exact x c). Qed.

(** [a.dot(b / c)] is [a.dot(b) / c]. *)
Lemma dot_scale_r (a b : list F) c : dot a (map (fun x => x / c) b) = dot a b / c.
Proof.
  revert b. induction a as [|x a IH]; intros b.
  - rewrite !dot_nil_l, (div_as_mul f0). ring.
  - destruct b as [|y b]; cbn [map].
    + rewrite !dot_nil_r, (div_as_mul f0). ring.
    + rewrite !dot_cons, IH, (div_as_mul y), (div_as_mul (dot a b)),
        (div_as_mul (x * y + dot a b)). ring.
Qed.

Lemma dot_zeros_l (a b : list F) : Forall (fun x => x = f0) a -> dot a b = f0.
Proof.
  intros Ha. revert b. induction Ha as [|x a -> _ IH]; intros b; [reflexivity|].
  destruct b as [|y b]; [apply dot_nil_r|]. rewrite dot_cons, IH. ring.
Qed.

(** Row [i] of a diagonal matrix against a vector. *)
Lemma dot_diag_row (v z : list F) i zi :
  (i < length v)%nat -> z !! i = Some zi ->
  dot (map (fun j => if (i =? j)%nat then nth i v f0 else f0) (seq 0 (length v))) z
  = nth i v f0 * zi.
Proof.
  intros Hi Hz.
  set (row := map (fun j => if (i =? j)%nat then nth i v f0 else f0) (seq 0 (length v))).
  assert (Hrow : forall j, (j < length v)%nat ->
                           row !! j = Some (if (i =? j)%nat then nth i v f0 else f0)).
  { intros j Hj. unfold row. change (map ?f ?l) with (f <$> l).
    now rewrite list_lookup_fmap, lookup_seq_lt. }
  rewrite (dot_split exact row z i (nth i v f0) zi); [|now rewrite Hrow, Nat.eqb_refl|exact Hz].
  rewrite !dot_zeros_l; [ring| |].
  - apply Forall_lookup_2. intros j x Hj. rewrite lookup_drop in Hj.
    assert (Hlt : (S i + j < length v)%nat).
    { apply lookup_lt_Some in Hj. unfold row in Hj.
      now rewrite length_map, length_seq in Hj. }
    rewrite (Hrow _ Hlt) in Hj. injection Hj as <-.
    destruct (i =? _)%nat eqn:E; [apply Nat.eqb_eq in E; lia|reflexivity].
  - apply Forall_lookup_2. intros j x Hj.
    apply lookup_take_Some in Hj as [Hj Hji].
    assert (Hlt : (j < length v)%nat) by lia.
    rewrite (Hrow _ Hlt) in Hj. injection Hj as <-.
    destruct (i =? _)%nat eqn:E; [apply Nat.eqb_eq in E; lia|reflexivity].
Qed.

Lemma lookup_nth {A} (l : list A) i d : (i < length l)%nat -> l !! i = Some (nth i l d).
Proof. intros Hi. destruct (nth_lookup_or_length l i d); [assumption|lia]. Qed.

Lemma nth_zip_with (op : F -> F -> F) (a b : list F) j :
  (j < length a)%nat -> (j < length b)%nat ->
  nth j (zip_with op a b) f0 = op (nth j a f0) (nth j b f0).
Proof.
  intros Ha Hb. apply nth_lookup_Some.
  now rewrite lookup_zip_with, (lookup_nth a j f0 Ha), (lookup_nth b j f0 Hb).
Qed.

Lemma nth_seq_map {A} (f : nat -> A) n i d : (i < n)%nat -> nth i (map f (seq 0 n)) d = f i.
Proof.
  intros Hi. rewrite (nth_indep _ d (f 0%nat)) by now rewrite length_map, length_seq.
  now rewrite (map_nth f (seq 0 n) 0%nat i), seq_nth.
Qed.

Lemma list_as_seq_map {A} (l : list A) d : l = map (fun i => nth i l d) (seq 0 (length l)).
Proof.
  apply (nth_ext _ _ d d); [now rewrite length_map, length_seq|].
  intros i Hi. now rewrite nth_seq_map.
Qed.

Lemma nth_column (m : list (list F)) j i :
  (i < length m)%nat -> nth i (column j m) f0 = nth j (nth i m []) f0.
Proof.
  intros Hi. unfold column.
  rewrite (nth_indep _ f0 ((fun row => nth j row f0) [])) by now rewrite length_map.
  now rewrite (map_nth (fun row => nth j row f0) m [] i).
Qed.

Section Square.
Variable V : list (list F).
Variable n : nat.
Hypothesis rows : length V = n.
Hypothesis cols : Forall (fun row => length row = n) V.

Lemma row_length i : (i < n)%nat -> length (nth i V []) = n.
Proof.
  intros Hi. rewrite Forall_forall in cols. apply cols.
  apply list_elem_of_In, nth_In. lia.
Qed.

Lemma ncols_square : ncols V = n.
Proof.
  destruct V as [|r V'] eqn:EV; [exact rows|].
  cbn. inversion cols; subst. assumption.
Qed.

(** Column [j] of the transpose is row [j]. *)
Lemma column_transpose j : (j < n)%nat -> column j (transpose V) = nth j V [].
Proof.
  intros Hj. unfold transpose. rewrite ncols_square. unfold column at 1.
  rewrite map_map. rewrite (list_as_seq_map (nth j V []) f0), (row_length j Hj).
  apply map_ext_in. intros k Hk. apply in_seq in Hk.
  now rewrite nth_column by lia.
Qed.

(** Column [j] of [eigvecs.T / d], [d] broadcast along the last axis, is row
    [j] of [eigvecs] divided by [d[j]]. *)
Lemma column_broadcast (d : list F) j :
  length d = n -> (j < n)%nat ->
  column j (broadcast_last fdiv (transpose V) d)
  = map (fun x => x / nth j d f0) (nth j V []).
Proof.
  intros Hd Hj. unfold broadcast_last, transpose. rewrite ncols_square.
  unfold column at 1. rewrite !map_map.
  rewrite (list_as_seq_map (nth j V []) f0) at 1.
  rewrite (row_length j Hj), map_map.
  apply map_ext_in. intros k Hk. apply in_seq in Hk.
  assert (Hlen : length (column k V) = n) by (unfold column; now rewrite length_map).
  rewrite nth_zip_with by lia. rewrite nth_column by lia. reflexivity.
Qed.

(** [eigvecs @ eigvecs.T] at (i, j) is the product of rows [i] and [j]. *)
Lemma gram_entry i j :
  (i < n)%nat -> (j < n)%nat ->
  at2 (matmul V (transpose V)) i j = dot (nth i V []) (nth j V []).
Proof.
  intros Hi Hj. unfold at2, matmul.
  rewrite (nth_indep _ [] ((fun row => map (fun j => dot row (column j (transpose V)))
                                           (seq 0 (ncols (transpose V)))) []))
    by (rewrite length_map; lia).
  rewrite (map_nth (fun row => map (fun j => dot row (column j (transpose V)))
                                    (seq 0 (ncols (transpose V)))) V [] i).
  assert (Hc : ncols (transpose V) = n).
  { unfold transpose. rewrite ncols_square. destruct n as [|m]; [lia|].
    cbn. unfold column. now rewrite length_map. }
  rewrite Hc, nth_seq_map by lia. now rewrite column_transpose.
Qed.

Hypothesis orthonormal : matmul V (transpose V) = diag (repeat f1 n).

Lemma rows_orthonormal i j :
  (i < n)%nat -> (j < n)%nat ->
  dot (nth i V []) (nth j V []) = if (i =? j)%nat then f1 else f0.
Proof.
  intros Hi Hj. rewrite <- gram_entry by assumption. rewrite orthonormal.
  unfold at2, diag. rewrite repeat_length, !nth_seq_map by lia.
  destruct (i =? j)%nat; [|reflexivity].
  apply nth_repeat_lt. exact Hi.
Qed.

Lemma pseudo_precision_diag (s : F) (eigvals : list F) :
  length eigvals = n ->
  pseudo_precision s eigvals V
  = diag (map (fun l => f1 / ((f1 - s) * l + s)) eigvals).
Proof.
  intros He. unfold pseudo_precision.
  set (d := map (fun l => (f1 - s) * l + s) eigvals).
  assert (Hd : length d = n) by (unfold d; now rewrite length_map).
  assert (Hc : ncols (broadcast_last fdiv (transpose V) d) = n).
  { unfold broadcast_last, transpose. rewrite ncols_square. destruct n as [|m] eqn:En; [reflexivity|].
    cbn. rewrite length_zip_with. unfold column. rewrite length_map. lia. }
  unfold matmul. rewrite Hc. unfold diag. rewrite length_map, He.
  rewrite (list_as_seq_map V []) at 1. rewrite rows, map_map.
  apply map_ext_in. intros i Hi. apply in_seq in Hi.
  apply map_ext_in. intros j Hj. apply in_seq in Hj.
  rewrite column_broadcast by (assumption || lia).
  rewrite dot_scale_r, rows_orthonormal by lia.
  assert (Hdj : forall k, (k < n)%nat ->
                nth k (map (fun l => f1 / ((f1 - s) * l + s)) eigvals) f0 = f1 / nth k d f0).
  { intros k Hk. unfold d.
    rewrite (nth_indep _ f0 ((fun l => f1 / ((f1 - s) * l + s)) f0))
      by (rewrite length_map; lia).
    rewrite (map_nth (fun l => f1 / ((f1 - s) * l + s)) eigvals f0 k).
    rewrite (nth_indep (map _ eigvals) f0 ((fun l => (f1 - s) * l + s) f0))
      by (rewrite length_map; lia).
    now rewrite (map_nth (fun l => (f1 - s) * l + s) eigvals f0 k). }
  destruct (Nat.eqb_spec i j) as [->|Hne].
  - now rewrite Hdj by lia.
  - rewrite (div_as_mul f0). ring.
Qed.

(** With orthonormal eigenvectors, the matrix line 162 builds,
    [eigvecs @ (eigvecs.T / d)] with [d = (1 - s) * eigvals + s], is the
    diagonal matrix of the [1 / d[j]]: the eigenvectors have cancelled. *)
Theorem pseudo_precision_is_diagonal (s : F) (eigvals : list F) :
  length eigvals = n ->
  pseudo_precision s eigvals V
  = diag (map (fun l => f1 / ((f1 - s) * l + s)) eigvals).
Proof. exact (pseudo_precision_diag s eigvals). Qed.

(** So the conditional means of lines 165-167 are all zero and the
    conditional variances are the [d[i]] themselves, whatever the (orthonormal)
    eigenvectors are, where no [d[i]] is zero: the objective scores
    [z[i]] against N(0, d[i]) and does not see the LD structure. *)
Theorem pseudo_postmean_is_zero (s : F) (eigvals z : list F) :
  length eigvals = n -> length z = n ->
  Forall (fun l => (f1 - s) * l + s <> f0) eigvals ->
  pseudo_postmean (pseudo_precision s eigvals V) z = repeat f0 n
  /\ pseudo_postvar (pseudo_precision s eigvals V) z
     = map (fun l => (f1 - s) * l + s) eigvals.
Proof.
  intros He Hz Hd. rewrite (pseudo_precision_diag s eigvals He).
  set (w := map (fun l => f1 / ((f1 - s) * l + s)) eigvals).
  assert (Hw : length w = n) by (unfold w; now rewrite length_map).
  assert (Hwi : forall i, (i < n)%nat ->
                nth i w f0 = f1 / ((f1 - s) * nth i eigvals f0 + s)
                /\ (f1 - s) * nth i eigvals f0 + s <> f0).
  { intros i Hi. split.
    - unfold w. rewrite (nth_indep _ f0 ((fun l => f1 / ((f1 - s) * l + s)) f0))
        by (rewrite length_map; lia).
      now rewrite (map_nth (fun l => f1 / ((f1 - s) * l + s)) eigvals f0 i).
    - rewrite Forall_forall in Hd. apply Hd, list_elem_of_In, nth_In. lia. }
  assert (Hrow : forall i, (i < n)%nat ->
                 nth i (diag w) []
                 = map (fun j => if (i =? j)%nat then nth i w f0 else f0) (seq 0 (length w))).
  { intros i Hi. unfold diag. now rewrite nth_seq_map by lia. }
  assert (Hii : forall i, (i < n)%nat -> at2 (diag w) i i = nth i w f0).
  { intros i Hi. unfold at2. rewrite Hrow, nth_seq_map by lia. now rewrite Nat.eqb_refl. }
  split.
  - unfold pseudo_postmean. rewrite Hz.
    rewrite (map_ext_in _ (fun _ => f0)).
    + clear. induction n as [|m IH]; [reflexivity|].
      rewrite seq_S, map_app, IH. cbn. clear. induction m; cbn; [reflexivity|now f_equal].
    + intros i Hi. apply in_seq in Hi.
      rewrite Hii, Hrow by lia.
      rewrite (dot_diag_row w z i (nth i z f0)) by (try apply lookup_nth; lia).
      destruct (Hwi i ltac:(lia)) as [-> Hne].
      field. split; [exact Hne|]. apply (F_1_neq_0 exact).
  - unfold pseudo_postvar. rewrite Hz.
    rewrite (list_as_seq_map eigvals f0) at 1. rewrite He, map_map.
    apply map_ext_in. intros i Hi. apply in_seq in Hi.
    rewrite Hii by lia. destruct (Hwi i ltac:(lia)) as [-> Hne].
    field. split; [exact Hne|]. apply (F_1_neq_0 exact).
Qed.
End Square.
End PseudoExact.

(** Over the reals, on a rotation of the plane. *)
Lemma rotation_orthonormal :
  matmul [[3 / 5; 4 / 5]; [- 4 / 5; 3 / 5]]%R (transpose [[3 / 5; 4 / 5]; [- 4 / 5; 3 / 5]]%R)
  = diag (repeat f1 2).
Proof.
  cbn. unfold diag, f0, f1. cbn. repeat (f_equal; try lra).
Qed.

Lemma pseudo_precision_is_diagonal_witness :
  pseudo_precision (1 / 2)%R [1; 3]%R [[3 / 5; 4 / 5]; [- 4 / 5; 3 / 5]]%R
  = diag (map (fun l => fdiv f1 (fadd (fmul (fsub f1 (1 / 2)%R) l) (1 / 2)%R)) [1; 3]%R).
Proof.
  apply (pseudo_precision_is_diagonal exact_R [[3 / 5; 4 / 5]; [- 4 / 5; 3 / 5]]%R 2).
  - reflexivity.
  - repeat constructor.
  - exact rotation_orthonormal.
  - reflexivity.
Defined.

Lemma pseudo_postmean_is_zero_witness :
  pseudo_postmean
    (pseudo_precision (1 / 2)%R [1; 3]%R [[3 / 5; 4 / 5]; [- 4 / 5; 3 / 5]]%R) [1; 2]%R
  = repeat f0 2
  /\ pseudo_postvar
       (pseudo_precision (1 / 2)%R [1; 3]%R [[3 / 5; 4 / 5]; [- 4 / 5; 3 / 5]]%R) [1; 2]%R
     = map (fun l => fadd (fmul (fsub f1 (1 / 2)%R) l) (1 / 2)%R) [1; 3]%R.
Proof.
  apply (pseudo_postmean_is_zero exact_R [[3 / 5; 4 / 5]; [- 4 / 5; 3 / 5]]%R 2).
  - reflexivity.
  - repeat constructor.
  - exact rotation_orthonormal.
  - reflexivity.
  - reflexivity.
  - repeat constructor; cbn; unfold f0, f1; cbn; lra.
Defined.

(* ===================================================================== *)
(** * One turn of the loop of [locus_qc] *)
(* ===================================================================== *)

Section OneLocus.
Context {F : Type} `{Scalar F} `{Libm F} `{Externals F}.

(** [locus_qc] hands the same dictionary to [estimate_s_rss] and then to
    [kriging_rss], with the same tolerance. The clamp the first call has
    written changes nothing for the second: [kriging_rss] returns the table,
    and leaves the store, it would have without the first call. *)
Theorem shared_dictionary_same_table locus r_tol method s d (w : world F) ev vecs :
  heap w !! eigvals d = Some (Arr1 ev) ->
  heap w !! eigvecs d = Some (Arr2 vecs) ->
  kriging_rss locus r_tol (Some s) (Some d)
              (snd (estimate_s_rss locus r_tol method (Some d) w))
  = kriging_rss locus r_tol (Some s) (Some d) w.
Proof.
  intros Hv Hm.
  assert (Hs : spectrum_of w (Some d) (intersect_sumstat_ld locus) ev vecs)
    by (split; assumption).
  rewrite (estimate_s_rss_run locus r_tol method (Some d) w ev vecs Hs). cbn [snd].
  assert (Hs1 : spectrum_of (store_with w (Some d) (clamp r_tol ev) vecs) (Some d)
                            (intersect_sumstat_ld locus) (clamp r_tol ev) vecs).
  { cbn. split.
    - apply list_lookup_insert_eq. eapply lookup_lt_Some; eassumption.
    - rewrite list_lookup_insert_ne; [assumption|].
      intros Heq. rewrite Heq in Hv. congruence. }
  rewrite (kriging_rss_run locus r_tol (Some s) (Some d) _ (clamp r_tol ev) vecs Hs1).
  rewrite (kriging_rss_run locus r_tol (Some s) (Some d) w ev vecs Hs).
  cbv zeta. rewrite clamp_idem.
  assert (Hw : store_with (store_with w (Some d) (clamp r_tol ev) vecs) (Some d)
                          (clamp r_tol ev) vecs
               = store_with w (Some d) (clamp r_tol ev) vecs).
  { cbn. now rewrite list_insert_insert_eq. }
  now rewrite Hw.
Qed.

(** The table of the mixture stage, written out. *)
Lemma kriging_table_columns input_locus z s ev vecs (w w' : world F) df :
  kriging_table input_locus z s ev vecs w = (Ok df, w') ->
  exists logLR,
    df = [("SNPID", ColS (SNPID input_locus));
          ("z", ColF z);
          ("condmean", ColF (loo_condmean (kriging_precision s ev vecs) z));
          ("condvar", ColF (loo_condvar (kriging_precision s ev vecs) z));
          ("z_std_diff",
           ColF (standardise z (loo_condmean (kriging_precision s ev vecs) z)
                             (loo_condvar (kriging_precision s ev vecs) z)));
          ("logLR", ColF logLR)].
Proof.
  unfold kriging_table, bind, lift, gmm_weights, ret.
  destruct (a_grid _ _) as [grid|]; cbn; [|discriminate].
  destruct (row_max _) as [lf0|]; cbn; [|discriminate].
  destruct (GaussianMixture_fit _ _ _) as [[wt|e] g]; cbn; [|discriminate].
  destruct (row_max (llik_rows (zip_with fadd _ _) _)) as [lf1|]; cbn; [|discriminate].
  intros [= <- _]. eexists. reflexivity.
Qed.

(** The tables of one cohort, as [locus_qc] collects them: the table of
    [kriging_rss] with the columns [lambda_s], constant and equal to what
    [estimate_s_rss] returned for the same tolerance and method, and
    [cohort], constant and equal to [{popu}_{cohort}]; the table of
    [compute_dentist_s] with the column [cohort]. *)
Theorem qc_one_tables r_tol method locus (w w' : world F) ez ds cm :
  let input_locus := intersect_sumstat_ld locus in
  qc_one r_tol method locus w = (Ok (ez, ds, cm), w') ->
  dict_keys ez = ["SNPID"; "z"; "condmean"; "condvar"; "z_std_diff"; "logLR";
                  "lambda_s"; "cohort"]
  /\ (exists eigens w0 s,
         get_eigen (ld_r input_locus) w = (Ok eigens, w0)
         /\ fst (estimate_s_rss locus r_tol method (Some eigens) w0) = Ok s
         /\ df_floats "lambda_s" ez = Some (repeat s (length (SNPID input_locus))))
  /\ df_get "cohort" ez
     = Some (ColS (repeat (popu locus ++ "_" ++ cohort locus)%string
                          (length (SNPID input_locus))))
  /\ dict_keys ds = ["SNPID"; "t_dentist_s"; "p_dentist_s"; "cohort"]
  /\ df_get "cohort" ds
     = Some (ColS (repeat (popu locus ++ "_" ++ cohort locus)%string
                          (length (SNPID input_locus)))).
Proof.
  intros input_locus. unfold qc_one. fold input_locus.
  unfold bind at 1.
  destruct (get_eigen (ld_r input_locus) w) as [[eigens|e] w0] eqn:Eg; [|discriminate].
  unfold bind at 1.
  destruct (estimate_s_rss locus r_tol method (Some eigens) w0) as [[s|e] w1] eqn:Ee;
    [|discriminate].
  unfold bind at 1.
  destruct (kriging_rss locus r_tol (Some s) (Some eigens) w1) as [[df|e] w2] eqn:Ek;
    [|discriminate].
  apply kriging_rss_ok_inv in Ek. cbv zeta in Ek. fold input_locus in Ek.
  destruct Ek as (_ & s0 & ev & vecs & w3 & Ek).
  apply kriging_table_columns in Ek. destruct Ek as [logLR ->].
  unfold bind at 1. unfold lift at 1.
  destruct (compute_dentist_s locus) as [ds0|e] eqn:Ed; [|discriminate].
  unfold bind at 1. unfold lift at 1.
  destruct (compare_maf locus) as [cm0|e]; [|discriminate].
  unfold ret. intros [= <- <- <- <-].
  unfold compute_dentist_s in Ed. fold input_locus in Ed.
  destruct (idxmin _) as [lead|]; [|discriminate].
  destruct (raw_z input_locus !! lead); [|discriminate].
  destruct (ld_r input_locus !! lead); [|discriminate].
  destruct (negb _); [discriminate|].
  injection Ed as <-.
  split; [reflexivity|]. split.
  - exists eigens, w0, s. split; [reflexivity|]. split; [now rewrite Ee|reflexivity].
  - split; [reflexivity|]. split; reflexivity.
Qed.
End OneLocus.

Lemma shared_dictionary_same_table_witness :
  kriging_rss (Examples.pair_locus 0.7%float 1000) 0.001%float (Some 0.5%float)
              (Some Examples.cached)
              (snd (estimate_s_rss (Examples.pair_locus 0.7%float 1000) 0.001%float
                                   "null-mle" (Some Examples.cached) Examples.pair_world))
  = kriging_rss (Examples.pair_locus 0.7%float 1000) 0.001%float (Some 0.5%float)
                (Some Examples.cached) Examples.pair_world.
Proof.
  apply (shared_dictionary_same_table (Examples.pair_locus 0.7%float 1000) 0.001%float
           "null-mle" 0.5%float Examples.cached Examples.pair_world
           [1e-5; 1.99999]%float
           [[- Examples.inv_sqrt2; Examples.inv_sqrt2];
            [Examples.inv_sqrt2; Examples.inv_sqrt2]]%float).
  - reflexivity.
  - reflexivity.
Defined.

(** The tables of the five independent variants. *)
Lemma qc_one_tables_witness :
  dict_keys (fst (fst Scenarios.qc_one_out))
  = ["SNPID"; "z"; "condmean"; "condvar"; "z_std_diff"; "logLR"; "lambda_s"; "cohort"]
  /\ (exists eigens w0 s,
         get_eigen (ld_r (intersect_sumstat_ld (Examples.five_variants 1000)))
                   Examples.base_world = (Ok eigens, w0)
         /\ fst (estimate_s_rss (Examples.five_variants 1000) qc_default_r_tol "null-mle"
                                (Some eigens) w0) = Ok s
         /\ df_floats "lambda_s" (fst (fst Scenarios.qc_one_out))
            = Some (repeat s (length (SNPID (intersect_sumstat_ld
                                               (Examples.five_variants 1000))))))
  /\ df_get "cohort" (fst (fst Scenarios.qc_one_out))
     = Some (ColS (repeat (popu (Examples.five_variants 1000) ++ "_"
                           ++ cohort (Examples.five_variants 1000))%string
                          (length (SNPID (intersect_sumstat_ld
                                            (Examples.five_variants 1000))))))
  /\ dict_keys (snd (fst Scenarios.qc_one_out))
     = ["SNPID"; "t_dentist_s"; "p_dentist_s"; "cohort"]
  /\ df_get "cohort" (snd (fst Scenarios.qc_one_out))
     = Some (ColS (repeat (popu (Examples.five_variants 1000) ++ "_"
                           ++ cohort (Examples.five_variants 1000))%string
                          (length (SNPID (intersect_sumstat_ld
                                            (Examples.five_variants 1000)))))).
Proof.
  apply (qc_one_tables qc_default_r_tol "null-mle" (Examples.five_variants 1000)
           Examples.base_world (snd Scenarios.qc_one_run)
           (fst (fst Scenarios.qc_one_out)) (snd (fst Scenarios.qc_one_out))
           (snd Scenarios.qc_one_out)).
  vm_compute. reflexivity.
Defined.

(* ===================================================================== *)
(** * The variants of [cochran_q] *)
(* ===================================================================== *)

Section Merge.
Import Heterogeneity.
Context {F : Type} `{Scalar F} `{Chi2 F}.

Lemma merge_inner_keys (left : list (merged_row (F:=F))) right snp :
  In snp (map fst (merge_inner left right))
  <-> In snp (map fst left) /\ In snp (map fst right).
Proof.
  unfold merge_inner. rewrite !in_map_iff. split.
  - intros ([k cols] & <- & Hin). apply in_flat_map in Hin.
    destruct Hin as (l & Hl & Hin). apply in_map_iff in Hin.
    destruct Hin as (r & [= <- _] & Hr). apply filter_In in Hr.
    destruct Hr as [Hr Heq]. apply String.eqb_eq in Heq. cbn. split.
    + now exists l.
    + exists r. now split.
  - intros [(l & <- & Hl) (r & Heq & Hr)].
    exists (fst l, snd l ++ [snd r]). split; [reflexivity|].
    apply in_flat_map. exists l. split; [exact Hl|].
    apply in_map_iff. exists r. split; [reflexivity|].
    apply filter_In. split; [exact Hr|]. now apply String.eqb_eq.
Qed.

Lemma merge_inner_width (left : list (merged_row (F:=F))) right n :
  Forall (fun row => length (snd row) = n) left ->
  Forall (fun row => length (snd row) = S n) (merge_inner left right).
Proof.
  intros Hl. apply Forall_forall. intros row Hin.
  apply list_elem_of_In in Hin. unfold merge_inner in Hin.
  apply in_flat_map in Hin. destruct Hin as (l & Hin & Hrow).
  apply in_map_iff in Hrow. destruct Hrow as (r & <- & _). cbn.
  rewrite length_app. cbn. rewrite Forall_forall in Hl.
  rewrite (Hl l) by now apply list_elem_of_In. lia.
Qed.

Lemma merged_fold_keys (loci : list (Cohort F)) init snp :
  In snp (map fst (fold_left (fun m c => merge_inner m (sumstats_rows c)) loci init))
  <-> In snp (map fst init)
      /\ Forall (fun c => In snp (map fst (sumstats_rows c))) loci.
Proof.
  revert init. induction loci as [|c loci IH]; intros init; cbn [fold_left].
  - split; [intros Hin; split; [exact Hin|constructor]|now intros [Hin _]].
  - rewrite IH, merge_inner_keys, Forall_cons. tauto.
Qed.

Lemma merged_fold_width (loci : list (Cohort F)) init n :
  Forall (fun row => length (snd row) = n) init ->
  Forall (fun row => length (snd row) = (n + length loci)%nat)
         (fold_left (fun m c => merge_inner m (sumstats_rows c)) loci init).
Proof.
  revert init n. induction loci as [|c loci IH]; intros init n Hinit; cbn [fold_left length].
  - now rewrite Nat.add_0_r.
  - replace (n + S (length loci))%nat with (S n + length loci)%nat by lia.
    apply IH. now apply merge_inner_width.
Qed.

(** [cochran_q] on a non-empty list of cohorts returns a table indexed by
    SNPID whose variants are those of the first cohort's original summary
    statistics that occur in the summary statistics of every cohort (an inner
    join); each of them carries one (BETA, SE) pair per cohort; SNPID is the
    index, the columns are Q, Q_pvalue and I_squared, one row per index
    entry. *)
Theorem cochran_q_variants (first : Cohort F) (rest : list (Cohort F)) :
  exists t,
    cochran_q (first :: rest) = Ok t
    /\ (forall snp,
           In snp (index t)
           <-> In snp (original_SNPID first)
               /\ Forall (fun c => In snp (map fst (sumstats_rows c))) (first :: rest))
    /\ Forall (fun row => length (snd row) = length (first :: rest))
              (merged_df first (first :: rest))
    /\ dict_keys (columns t) = ["Q"; "Q_pvalue"; "I_squared"]
    /\ Forall (fun kc => column_length (snd kc) = length (index t)) (columns t).
Proof.
  eexists. split; [reflexivity|]. cbn [index columns]. split; [|split; [|split]].
  - intros snp. unfold merged_df. rewrite merged_fold_keys, map_map. cbn.
    now rewrite map_id.
  - unfold merged_df.
    apply (merged_fold_width (first :: rest) _ 0).
    apply Forall_forall. intros row Hin. apply list_elem_of_In, in_map_iff in Hin.
    now destruct Hin as (s & <- & _).
  - reflexivity.
  - repeat constructor; cbn; now rewrite !length_map.
Qed.

(** Without cohorts, [locus_set.loci[0]] raises. *)
Lemma cochran_q_empty : cochran_q (F:=F) [] = Raise (IndexError "list index out of range").
Proof. reflexivity. Qed.
End Merge.

(* ===================================================================== *)
(** * Q and I-squared, in exact arithmetic *)
(* ===================================================================== *)

Section QExact.
Import Heterogeneity.
Context {F : Type} `{Scalar F}.
Hypothesis exact :
  field_theory f0 f1 fadd fmul fsub fopp fdiv (fun x => fdiv f1 x) (@eq F).
Local Open Scope np_scope.

Add Field q_exact_field : exact.

Lemma add_reduce_sum (l : list F) : add_reduce l = np_sum l.
Proof.
  destruct l as [|x l]; [reflexivity|]. cbn [add_reduce].
  now rewrite (fold_add_shift exact), (np_sum_cons exact).
Qed.

Lemma np_sum_zeros (l : list F) : Forall (fun x => x = f0) l -> np_sum l = f0.
Proof.
  intros Hl. induction Hl as [|x l -> _ IH]; [reflexivity|].
  rewrite (np_sum_cons exact), IH. ring.
Qed.

Lemma np_sum_scale (l : list F) c : np_sum (map (fun x => x * c) l) = np_sum l * c.
Proof.
  induction l as [|x l IH]; cbn [map].
  - unfold np_sum. cbn. ring.
  - rewrite !(np_sum_cons exact), IH. ring.
Qed.

(** A variant whose effect is the same in every cohort has Q = 0, where the
    weights do not add up to zero: the weighted mean is that effect. *)
Theorem Q_row_homogeneous (cols : list (F * F * F)) e :
  Forall (fun t => fst (fst t) = e) cols ->
  add_reduce (row_weights cols) <> f0 ->
  weighted_mean cols = e /\ Q_row cols = f0.
Proof.
  intros He Hw.
  assert (Hmean : weighted_mean cols = e).
  { unfold weighted_mean.
    assert (Hz : zip_with fmul (row_weights cols) (row_effects cols)
                 = map (fun x => x * e) (row_weights cols)).
    { unfold row_weights, row_effects. clear Hw.
      induction He as [|t cols Ht _ IH]; [reflexivity|].
      cbn [map zip_with]. now rewrite IH, Ht. }
    rewrite Hz, !add_reduce_sum, np_sum_scale. rewrite add_reduce_sum in Hw.
    field. exact Hw. }
  split; [exact Hmean|].
  unfold Q_row. rewrite Hmean, add_reduce_sum. apply np_sum_zeros.
  apply Forall_forall. intros x Hx.
  apply list_elem_of_In in Hx. unfold row_weights, row_effects in Hx.
  clear Hw Hmean. induction He as [|t cols Ht _ IH]; [contradiction|].
  cbn [map zip_with] in Hx. destruct Hx as [<-|Hx]; [|now apply IH].
  rewrite Ht. ring.
Qed.
End QExact.

(** Three cohorts with the effect 1/4 and standard errors 1, 2 and 1/2. *)
Lemma Q_row_homogeneous_witness :
  Heterogeneity.weighted_mean [(1 / 4, 1, 3 / 10); (1 / 4, 2, 3 / 10); (1 / 4, 1 / 2, 1 / 5)]%R
  = (1 / 4)%R
  /\ Heterogeneity.Q_row [(1 / 4, 1, 3 / 10); (1 / 4, 2, 3 / 10); (1 / 4, 1 / 2, 1 / 5)]%R
     = f0.
Proof.
  apply (Q_row_homogeneous exact_R
           [(1 / 4, 1, 3 / 10); (1 / 4, 2, 3 / 10); (1 / 4, 1 / 2, 1 / 5)]%R (1 / 4)%R).
  - repeat constructor.
  - cbn. unfold f0, f1. cbn. lra.
Defined.

Section QReal.
Import Heterogeneity.
Context `{Chi2 R}.

Lemma np_sum_nonneg (l : list R) : Forall (fun x => (0 <= x)%R) l -> (0 <= np_sum l)%R.
Proof.
  intros Hl. induction Hl as [|x l Hx _ IH].
  - unfold np_sum. cbn. unfold f0. cbn. lra.
  - rewrite (np_sum_cons exact_R). cbn [fadd Scalar_R]. lra.
Qed.

Lemma weight_nonneg (se : R) : (0 <= 1 / (se * se))%R.
Proof.
  destruct (Req_dec se 0) as [->|Hne].
  - unfold Rdiv. rewrite Rmult_0_l, Rinv_0. lra.
  - apply Rlt_le, Rdiv_lt_0_compat; [lra|]. nra.
Qed.

Lemma Q_row_nonneg (cols : list (R * R * R)) : (0 <= Q_row cols)%R.
Proof.
  unfold Q_row. rewrite (add_reduce_sum exact_R). apply np_sum_nonneg.
  apply Forall_forall. intros x Hx. apply list_elem_of_In in Hx.
  unfold row_weights, row_effects in Hx.
  set (m := weighted_mean cols) in *. clearbody m.
  induction cols as [|t cols IH]; [contradiction|].
  cbn [map zip_with] in Hx. destruct Hx as [<-|Hx]; [|now apply IH].
  cbn [fmul fsub fdiv Scalar_R]. unfold f1. cbn [of_Z Scalar_R].
  apply Rmult_le_pos; [apply weight_nonneg|].
  generalize (fst (fst t) - m)%R. intros y. nra.
Qed.

Lemma I_squared_range (Q : R) (df : Z) :
  (0 <= Q)%R -> (1 <= df)%Z -> (0 <= I_squared Q df < 100)%R.
Proof.
  intros HQ Hdf. unfold I_squared, fmax.
  cbn [fisnan fltb fsub fdiv fmul of_Z Scalar_R]. unfold f0. cbn [of_Z Scalar_R].
  assert (Hd : (1 <= IZR df)%R) by (apply (IZR_le 1); exact Hdf).
  destruct (Rlt_dec 0 ((Q - IZR df) / Q * 100)) as [Hpos|Hneg]; [|lra].
  split; [lra|].
  destruct (Req_dec Q 0) as [->|Hne].
  - unfold Rdiv. rewrite Rinv_0. lra.
  - assert (HQ' : (0 < Q)%R) by lra.
    assert (Hq : ((Q - IZR df) / Q < 1)%R).
    { apply (Rmult_lt_reg_r Q); [exact HQ'|].
      unfold Rdiv. rewrite Rmult_assoc, Rinv_l by lra. lra. }
    lra.
Qed.

(** Over the reals, with two cohorts or more: every Q is at least 0 and every
    I-squared lies in [0, 100). *)
Theorem cochran_q_ranges (loci : list (Cohort R)) t :
  (2 <= length loci)%nat ->
  cochran_q loci = Ok t ->
  exists Q I2,
    df_floats "Q" (columns t) = Some Q
    /\ Forall (fun q => (0 <= q)%R) Q
    /\ df_floats "I_squared" (columns t) = Some I2
    /\ Forall (fun x => (0 <= x < 100)%R) I2.
Proof.
  intros Hk. destruct loci as [|first rest]; [discriminate|].
  cbn [cochran_q]. intros [= <-]. cbn [columns].
  eexists _, _. split; [reflexivity|]. split; [|split; [reflexivity|]].
  - apply Forall_forall. intros q Hq. apply list_elem_of_In, in_map_iff in Hq.
    destruct Hq as (row & <- & _). apply Q_row_nonneg.
  - apply Forall_forall. intros x Hx. apply list_elem_of_In, in_map_iff in Hx.
    destruct Hx as (q & <- & Hq). apply in_map_iff in Hq.
    destruct Hq as (row & <- & _).
    apply I_squared_range; [apply Q_row_nonneg|]. cbn [length] in *. lia.
Qed.
End QReal.

(** Two cohorts, two shared variants. *)
Lemma cochran_q_ranges_witness :
  exists Q I2,
    df_floats "Q" (Heterogeneity.columns Scenarios.two_cohorts_table) = Some Q
    /\ Forall (fun q => (0 <= q)%R) Q
    /\ df_floats "I_squared" (Heterogeneity.columns Scenarios.two_cohorts_table) = Some I2
    /\ Forall (fun x => (0 <= x < 100)%R) I2.
Proof.
  apply (cochran_q_ranges (H:=Scenarios.no_p_value) Scenarios.two_cohorts
           Scenarios.two_cohorts_table).
  - cbn. lia.
  - reflexivity.
Defined.

(** The index of that table: rs1 and rs2, in the order of the first cohort's
    original summary statistics; rs3 is in no cohort. *)
Example two_cohorts_index :
  Heterogeneity.index Scenarios.two_cohorts_table = ["rs1"; "rs2"].
Proof. reflexivity. Qed.

(* ===================================================================== *)
(** * [qc_locus_cli] *)
(* ===================================================================== *)

Section CliFiles.
Context {F : Type} `{Scalar F} `{Libm F} `{Externals F}.
Variable locus_info : Type.
Variable load_locus_set : locus_info -> result (LocusSet F).

(** [qc_locus_cli] runs [locus_qc] with its defaults (tolerance 1e-3, method
    "null-mle", no output directory) on the loaded locus set. When it returns,
    it returns the locus id and has written one file
    [{base_out_dir}/{locus_id}/{key}.txt.gz] per key of the dictionary, five
    for a single cohort and seven for more; when loading or the quality
    control raises, it has written nothing. *)
Theorem qc_locus_cli_files locus_id info base_out_dir (w w' : world F) r :
  qc_locus_cli load_locus_set (locus_id, info, base_out_dir) w = (r, w') ->
  match r with
  | Ok id =>
      id = locus_id
      /\ exists locus_set d,
           load_locus_set info = Ok locus_set
           /\ fst (locus_qc locus_set qc_default_r_tol "null-mle" None w) = Ok d
           /\ dict_keys d
              = (if (1 <? length (loci locus_set))%nat
                 then ["expected_z"; "dentist_s"; "compare_maf"; "ld_4th_moment";
                       "ld_decay"; "cochran_q"; "snp_missingness"]
                 else ["expected_z"; "dentist_s"; "compare_maf"; "ld_4th_moment";
                       "ld_decay"])
           /\ files w'
              = rev (map (fun kv =>
                            (((base_out_dir ++ "/" ++ locus_id) ++ "/" ++ fst kv ++ ".txt.gz")%string,
                             snd kv)) d)
                ++ files w
  | Raise _ => files w' = files w
  end.
Proof.
  unfold qc_locus_cli. cbn [fst snd]. unfold bind at 1. unfold lift at 1.
  destruct (load_locus_set info) as [locus_set|e]; [|now intros [= <- <-]].
  unfold bind at 1.
  destruct (locus_qc locus_set qc_default_r_tol "null-mle" None w) as [r0 w0] eqn:E.
  pose proof (locus_qc_run _ _ _ _ _ _ _ E) as Hrun.
  destruct r0 as [d|e]; [|now intros [= <- <-]].
  destruct Hrun as [Hkeys Hfiles].
  unfold bind, write_tables_gz, ret. cbn. intros [= <- <-]. cbn.
  split; [reflexivity|]. exists locus_set, d.
  split; [reflexivity|]. split; [now rewrite E|]. split; [exact Hkeys|].
  now rewrite Hfiles.
Qed.
End CliFiles.

(** One cohort of five variants: five files. *)
Lemma qc_locus_cli_files_witness :
  match Ok "locus1" with
  | Ok id =>
      id = "locus1"
      /\ exists locus_set d,
           Scenarios.load_five tt = Ok locus_set
           /\ fst (locus_qc locus_set qc_default_r_tol "null-mle" None Examples.base_world)
              = Ok d
           /\ dict_keys d
              = (if (1 <? length (loci locus_set))%nat
                 then ["expected_z"; "dentist_s"; "compare_maf"; "ld_4th_moment";
                       "ld_decay"; "cochran_q"; "snp_missingness"]
                 else ["expected_z"; "dentist_s"; "compare_maf"; "ld_4th_moment";
                       "ld_decay"])
           /\ files (snd Scenarios.cli_run)
              = rev (map (fun kv =>
                            ((("out" ++ "/" ++ "locus1") ++ "/" ++ fst kv ++ ".txt.gz")%string,
                             snd kv)) d)
                ++ files Examples.base_world
  | Raise _ => files (snd Scenarios.cli_run) = files Examples.base_world
  end.
Proof.
  apply (qc_locus_cli_files unit Scenarios.load_five "locus1" tt "out" Examples.base_world
           (snd Scenarios.cli_run) (Ok "locus1")).
  vm_compute. reflexivity.
Defined.

Example cli_run_files :
  map fst (files (snd Scenarios.cli_run))
  = ["out/locus1/ld_decay.txt.gz"; "out/locus1/ld_4th_moment.txt.gz";
     "out/locus1/compare_maf.txt.gz"; "out/locus1/dentist_s.txt.gz";
     "out/locus1/expected_z.txt.gz"].
Proof. vm_compute. reflexivity. Qed.

(* ===================================================================== *)
(** * The tool registry of [utils.py] *)
(* ===================================================================== *)

Section Registry.
Import Utils.
Context `{OS}.

(** Registering a tool makes [get_tool] return a tool with that name and
    default path and without a custom path, also when the name was registered
    before and had a custom path: the old entry is replaced. The other names
    are as before, and a name that is not registered is a [KeyError]. *)
Theorem register_then_get (name other : string) default_path (tools : ToolManager) :
  get_tool name (register_tool name default_path tools)
  = Return (new_tool name default_path)
  /\ (other <> name ->
      get_tool other (register_tool name default_path tools) = get_tool other tools)
  /\ (tools !! other = None <-> get_tool other tools = Raised (not_registered other)).
Proof.
  unfold get_tool, register_tool. split; [|split].
  - now rewrite lookup_insert_eq.
  - intros Hne. now rewrite lookup_insert_ne by congruence.
  - destruct (tools !! other); split; congruence.
Qed.

Lemma path_exists_not_empty (fs : filesystem) path :
  path_exists fs path = true -> truthy (Some path) = Some path.
Proof.
  unfold path_exists, truthy. destruct (String.eqb path ""); [discriminate|reflexivity].
Qed.

(** Once [set_tool_path] has succeeded, the tool's path is the custom path,
    whatever the PATH and the default path are and whether or not the file
    still exists; the other tools are untouched. It succeeds only for a
    registered tool and a path that exists. *)
Theorem custom_path_wins (name path : string) (tools tools' : ToolManager) (fs : filesystem) :
  set_tool_path name path tools fs = Return tools' ->
  path_exists fs path = true
  /\ (exists tool, tools !! name = Some tool)
  /\ (exists tool',
         get_tool name tools' = Return tool'
         /\ forall fs', get_path tool' fs' = Return path)
  /\ (forall other, other <> name -> get_tool other tools' = get_tool other tools).
Proof.
  unfold set_tool_path, set_custom_path.
  destruct (tools !! name) as [tool|] eqn:Et; [|discriminate].
  destruct (path_exists fs path) eqn:Ep; [|discriminate].
  intros [= <-]. split; [reflexivity|]. split; [now exists tool|]. split.
  - eexists. unfold get_tool. rewrite lookup_insert_eq. split; [reflexivity|].
    intros fs'. unfold get_path. cbn [custom_path].
    now rewrite (path_exists_not_empty fs path Ep).
  - intros other Hne. unfold get_tool. now rewrite lookup_insert_ne by congruence.
Qed.

Lemma check_outputs_spec (paths : list string) (fs : filesystem) :
  match check_outputs paths fs with
  | Return _ => Forall (fun p => path_exists fs p = true) paths
  | Raised e =>
      exists found missing rest,
        paths = found ++ missing :: rest
        /\ Forall (fun p => path_exists fs p = true) found
        /\ path_exists fs missing = false
        /\ e = FileNotFoundError ("Expected output file not found: " ++ missing)
  end.
Proof.
  induction paths as [|p paths IH]; cbn [check_outputs]; [constructor|].
  destruct (path_exists fs p) eqn:Ep.
  - destruct (check_outputs paths fs) as [[]|e].
    + now constructor.
    + destruct IH as (found & missing & rest & -> & Hf & Hm & ->).
      exists (p :: found), missing, rest. repeat split; auto.
  - exists [], p, paths. repeat split; auto.
Qed.

(** A call of [run] that returns has found the executable, run it with the
    command appended, and every expected output file exists afterwards. A
    call whose command succeeded fails on the first expected file that is
    missing, with a [FileNotFoundError] that names it; and when the
    executable cannot be found, the log file is not opened and nothing is
    run. *)
Theorem run_outputs (self : ExternalTool) command log_file output_file_path
        (fs fs' : filesystem) r :
  run self command log_file output_file_path fs = (r, fs') ->
  match get_path self fs with
  | Raised e => r = Raised e /\ fs' = fs
  | Return path =>
      match open_w log_file fs with
      | Raised e => r = Raised e /\ fs' = fs
      | Return fs1 =>
          exists ran, subprocess_run (path :: command) log_file fs1 = (ran, fs')
          /\ match ran, r with
             | Raised e, _ => r = Raised e
             | Return _, Return _ =>
                 Forall (fun p => path_exists fs' p = true)
                        (expected_outputs output_file_path)
             | Return _, Raised e =>
                 exists found missing rest,
                   expected_outputs output_file_path = found ++ missing :: rest
                   /\ Forall (fun p => path_exists fs' p = true) found
                   /\ path_exists fs' missing = false
                   /\ e = FileNotFoundError ("Expected output file not found: " ++ missing)
             end
      end
  end.
Proof.
  unfold run.
  destruct (get_path self fs) as [path|e]; [|now intros [= <- <-]].
  destruct (open_w log_file fs) as [fs1|e]; [|now intros [= <- <-]].
  destruct (subprocess_run (path :: command) log_file fs1) as [[[]|e] fs2].
  - intros [= <- <-]. eexists. split; [reflexivity|].
    apply check_outputs_spec.
  - intros [= <- <-]. eexists. split; reflexivity.
Qed.
End Registry.

(** finemap, registered by the module, given the path /opt/finemap. *)
Lemma custom_path_wins_witness :
  Utils.path_exists Scenarios.demo_fs "/opt/finemap" = true
  /\ (exists tool, Utils.tool_manager !! "finemap" = Some tool)
  /\ (exists tool',
         Utils.get_tool "finemap" (<["finemap" := Scenarios.finemap_at_opt]> Utils.tool_manager)
         = Utils.Return tool'
         /\ forall fs', Utils.get_path (H:=Scenarios.demo_os) tool' fs'
                        = Utils.Return "/opt/finemap")
  /\ (forall other, other <> "finemap" ->
        Utils.get_tool other (<["finemap" := Scenarios.finemap_at_opt]> Utils.tool_manager)
        = Utils.get_tool other Utils.tool_manager).
Proof.
  apply (custom_path_wins (H:=Scenarios.demo_os) "finemap" "/opt/finemap" Utils.tool_manager
           (<["finemap" := Scenarios.finemap_at_opt]> Utils.tool_manager)
           Scenarios.demo_fs).
  vm_compute. reflexivity.
Defined.

(** finemap found in the package directory, run with one expected output. *)
Lemma run_outputs_witness :
  let self := Utils.new_tool "finemap" (Some "bin/finemap") in
  let fs' := snd (Utils.run (H:=Scenarios.demo_os) self ["--in-files"; "data.master"]
                            "finemap.log" (Some (inl "out.snp")) Scenarios.demo_fs) in
  match Utils.get_path (H:=Scenarios.demo_os) self Scenarios.demo_fs with
  | Utils.Raised e => Utils.Return tt = Utils.Raised e /\ fs' = Scenarios.demo_fs
  | Utils.Return path =>
      match Utils.open_w (OS:=Scenarios.demo_os) "finemap.log" Scenarios.demo_fs with
      | Utils.Raised e => Utils.Return tt = Utils.Raised e /\ fs' = Scenarios.demo_fs
      | Utils.Return fs1 =>
          exists ran,
            Utils.subprocess_run (OS:=Scenarios.demo_os)
              (path :: ["--in-files"; "data.master"]) "finemap.log" fs1 = (ran, fs')
            /\ match ran, Utils.Return tt with
               | Utils.Raised e, _ => Utils.Return tt = Utils.Raised e
               | Utils.Return _, Utils.Return _ =>
                   Forall (fun p => Utils.path_exists fs' p = true)
                          (Utils.expected_outputs (Some (inl "out.snp")))
               | Utils.Return _, Utils.Raised e =>
                   exists found missing rest,
                     Utils.expected_outputs (Some (inl "out.snp")) = found ++ missing :: rest
                     /\ Forall (fun p => Utils.path_exists fs' p = true) found
                     /\ Utils.path_exists fs' missing = false
                     /\ e = Utils.FileNotFoundError
                              ("Expected output file not found: " ++ missing)
               end
      end
  end.
Proof.
  cbv zeta.
  apply (run_outputs (H:=Scenarios.demo_os) (Utils.new_tool "finemap" (Some "bin/finemap"))
           ["--in-files"; "data.master"] "finemap.log" (Some (inl "out.snp"))
           Scenarios.demo_fs).
  vm_compute. reflexivity.
Defined.

(** The same run ends with the log file and the output in place. *)
Example run_finemap :
  Utils.run (H:=Scenarios.demo_os) (Utils.new_tool "finemap" (Some "bin/finemap"))
            ["--in-files"; "data.master"] "finemap.log" (Some (inl "out.snp"))
            Scenarios.demo_fs
  = (Utils.Return tt,
     {["out.snp"; "finemap.log"; "/pkg/bin/finemap"; "/opt/finemap"]}).
Proof. vm_compute. reflexivity. Qed.

(** An expected file that the command did not write. *)
Example run_finemap_missing_output :
  fst (Utils.run (H:=Scenarios.demo_os) (Utils.new_tool "finemap" (Some "bin/finemap"))
                 ["--in-files"; "data.master"] "finemap.log"
                 (Some (inr ["out.snp"; "out.config"])) Scenarios.demo_fs)
  = Utils.Raised (Utils.FileNotFoundError "Expected output file not found: out.config").
Proof. vm_compute. reflexivity. Qed.

(** A tool that is nowhere: not on the PATH, no default path. *)
Example run_unknown_tool :
  Utils.run (H:=Scenarios.demo_os) (Utils.new_tool "plink" None) [] "plink.log" None
            Scenarios.demo_fs
  = (Utils.Raised (Utils.FileNotFoundError "Could not find plink executable"),
     Scenarios.demo_fs).
Proof. vm_compute. reflexivity. Qed.

(* ===================================================================== *)
(** * The R version check of [utils.py] *)
(* ===================================================================== *)

Section RVersion.
Import Utils.
Local Open Scope string_scope.

Lemma append_cons (x : ascii) (a b : string) : String x a ++ b = String x (a ++ b).
Proof. reflexivity. Qed.

Lemma append_empty_l (b : string) : "" ++ b = b.
Proof. reflexivity. Qed.

Lemma append_assoc (a b c : string) : (a ++ b) ++ c = a ++ (b ++ c).
Proof.
  induction a as [|x a IH]; [reflexivity|]. now rewrite !append_cons, IH.
Qed.

Lemma append_empty_r (a : string) : a ++ "" = a.
Proof. induction a as [|x a IH]; [reflexivity|]. now rewrite append_cons, IH. Qed.

Lemma digit_not_dot (c : ascii) : is_digit c = true -> Ascii.eqb c "." = false.
Proof.
  intros Hd. destruct (Ascii.eqb_spec c "."%char) as [->|]; [|reflexivity].
  discriminate.
Qed.

Lemma span_digits_digits (s : string) : digits_only (fst (span_digits s)) = true.
Proof.
  induction s as [|c s IH]; [reflexivity|]. cbn.
  destruct (is_digit c) eqn:Ec; [|reflexivity]. cbn. now rewrite Ec, IH.
Qed.

(** Digits followed by a dot: the span is the digits. *)
Lemma span_digits_dot (d rest : string) :
  digits_only d = true -> span_digits (d ++ String "." rest) = (d, String "." rest).
Proof.
  induction d as [|c d IH]; [reflexivity|].
  rewrite append_cons. cbn [digits_only span_digits].
  intros Hd. apply andb_true_iff in Hd as [Hc Hd]. now rewrite Hc, (IH Hd).
Qed.

Lemma split_dot_digits (d rest current : string) :
  digits_only d = true -> split_dot (d ++ rest) current = split_dot rest (current ++ d).
Proof.
  revert current. induction d as [|c d IH]; intros current.
  - now rewrite append_empty_l, append_empty_r.
  - rewrite append_cons. cbn [digits_only split_dot].
    intros Hd. apply andb_true_iff in Hd as [Hc Hd].
    rewrite (digit_not_dot c Hc), (IH _ Hd). f_equal.
    now rewrite append_assoc.
Qed.

(** A version string [a.b.c] splits into its three numbers. *)
Lemma split_version (a b c : string) :
  digits_only a = true -> digits_only b = true -> digits_only c = true ->
  split_dot (a ++ "." ++ b ++ "." ++ c) "" = [a; b; c].
Proof.
  intros Ha Hb Hc.
  rewrite (split_dot_digits a _ "" Ha), append_empty_l, append_cons, append_empty_l.
  cbn [split_dot Ascii.eqb Bool.eqb]. f_equal.
  rewrite (split_dot_digits b _ "" Hb), append_empty_l, append_cons, append_empty_l.
  cbn [split_dot Ascii.eqb Bool.eqb]. f_equal.
  rewrite <- (append_empty_r c) at 1.
  now rewrite (split_dot_digits c "" "" Hc).
Qed.

Lemma match_digits_Some (s d r : string) :
  match_digits s = Some (d, r) -> digits_only d = true.
Proof.
  unfold match_digits. destruct (String.eqb _ _); [discriminate|].
  intros [= E]. change d with (fst (d, r)). rewrite <- E. apply span_digits_digits.
Qed.

Lemma match_version_form (s v : string) :
  match_version s = Some v ->
  exists a b c,
    v = a ++ "." ++ b ++ "." ++ c
    /\ digits_only a = true /\ digits_only b = true /\ digits_only c = true.
Proof.
  unfold match_version.
  destruct (match_digits s) as [[a r1]|] eqn:Ea; [|discriminate].
  destruct (match_dot r1) as [r2|]; [|discriminate].
  destruct (match_digits r2) as [[b r3]|] eqn:Eb; [|discriminate].
  destruct (match_dot r3) as [r4|]; [|discriminate].
  destruct (match_digits r4) as [[c r5]|] eqn:Ec; [|discriminate].
  intros [= <-]. exists a, b, c. split; [reflexivity|].
  split; [exact (match_digits_Some _ _ _ Ea)|].
  split; [exact (match_digits_Some _ _ _ Eb)|exact (match_digits_Some _ _ _ Ec)].
Qed.

Lemma re_search_form (s v : string) :
  re_search s = Some v ->
  exists a b c,
    v = a ++ "." ++ b ++ "." ++ c
    /\ digits_only a = true /\ digits_only b = true /\ digits_only c = true.
Proof.
  induction s as [|x s IH]; cbn [re_search].
  - destruct (match_here "") as [v'|] eqn:E; [|discriminate].
    intros [= <-]. unfold match_here in E.
    destruct (String.prefix _ _); [|discriminate]. now apply match_version_form in E.
  - destruct (match_here (String x s)) as [v'|] eqn:E; [|exact IH].
    intros [= <-]. unfold match_here in E.
    destruct (String.prefix _ _); [|discriminate]. now apply match_version_form in E.
Qed.

(** [(a, b, c) < (4, 0, 0)] is [a < 4]. *)
Lemma tuple_ltb_4 (a b c : N) : tuple_ltb [a; b; c] [4; 0; 0]%N = (a <? 4)%N.
Proof.
  cbn [tuple_ltb].
  destruct (N.ltb_spec a 4); [reflexivity|].
  destruct (N.ltb_spec 4 a); [reflexivity|].
  destruct (N.ltb_spec b 0); [lia|].
  destruct (N.ltb_spec 0 b); [reflexivity|].
  destruct (N.ltb_spec c 0); [lia|].
  now destruct (N.ltb_spec 0 c).
Qed.

(** A matched version splits into three numbers, the first of which is
    its major number. *)
Lemma version_parts (out v : string) :
  re_search out = Some v ->
  exists a b c, split_dot v "" = [a; b; c] /\ major v = int_of a 0%N.
Proof.
  intros Hs. apply re_search_form in Hs as (a & b & c & -> & Ha & Hb & Hc).
  exists a, b, c. split; [exact (split_version a b c Ha Hb Hc)|].
  unfold major.
  rewrite (append_cons "." "" (b ++ "." ++ c)), append_empty_l.
  now rewrite (span_digits_dot a _ Ha).
Qed.

(** [tuple(map(int, parts))] returns exactly when no part has more digits
    than [int] converts. *)
Lemma ints_Return (parts : list string) :
  Forall (fun part => (String.length part <= int_max_str_digits)%nat) parts ->
  ints parts = Return (map (fun part => int_of part 0%N) parts).
Proof.
  induction parts as [|part rest IH]; intros Hall; [reflexivity|].
  inversion Hall as [|? ? Hp Hrest]; subst.
  cbn [ints map]. unfold py_int.
  destruct (Nat.ltb_spec int_max_str_digits (String.length part)); [lia|].
  now rewrite (IH Hrest).
Qed.

Lemma ints_Return_inv (parts : list string) ns :
  ints parts = Return ns ->
  Forall (fun part => (String.length part <= int_max_str_digits)%nat) parts.
Proof.
  revert ns. induction parts as [|part rest IH]; intros ns; [constructor|].
  cbn [ints]. unfold py_int.
  destruct (Nat.ltb_spec int_max_str_digits (String.length part)); [discriminate|].
  destruct (ints rest) as [ns'|e] eqn:E; [|discriminate].
  intros _. constructor; [lia|]. now apply (IH ns').
Qed.

Context `{OS}.


(** A package that is not there is reported by the same [RuntimeError],
    whether the R command exits with a status other than 0 or
    [subprocess] raises [CalledProcessError]. *)
Lemma check_installed_missing (package_name : string) rc :
  (run_shell (r_command package_name) = Return rc /\ rc <> 0%Z)
  \/ run_shell (r_command package_name) = Raised (CalledProcessError rc) ->
  check_installed package_name
  = Raised (RuntimeError ("R package '" ++ package_name ++ "' is not installed.")).
Proof.
  unfold check_installed. intros [[-> Hrc]| ->]; [|reflexivity].
  now destruct (Z.eqb_spec rc 0).
Qed.
End RVersion.

(** R 3.6.3 is refused, R 10.0.0 is accepted: the numbers are compared, not
    the text. *)
Example r_3_6_3_refused :
  Utils.check_r_package (H:=Scenarios.os_with "R version 3.6.3 (2020-02-29)") "susieR"
  = Utils.Raised (Utils.RuntimeError "R version 3.6.3 is earlier than 4.0").
Proof. vm_compute. reflexivity. Qed.

Example r_10_0_0_accepted :
  Utils.check_r_package (H:=Scenarios.os_with "R version 10.0.0 (2031-04-01)") "susieR"
  = Utils.Return tt.
Proof. vm_compute. reflexivity. Qed.

(** A major number of 4301 digits: [int] refuses it. *)
Example r_version_too_long :
  Utils.check_r_package
    (H:=Scenarios.os_with ("R version " ++ Scenarios.many_nines ++ ".0.0")%string) "susieR"
  = Utils.Raised (Utils.ValueError 4301).
Proof. vm_compute. reflexivity. Qed.

Example r_version_unreadable :
  Utils.check_r_package (H:=Scenarios.os_with "R version 4.3 (devel)") "susieR"
  = Utils.Raised (Utils.RuntimeError "Unable to determine R version").
Proof. vm_compute. reflexivity. Qed.
